(** * upy_serial_cli: host shell and device module, embedded and verified

Shallow embedding of the protocol core of [upy_serial_cli.py] (host side),
of [upy-src/cli_module.py] and of the decorators of [ESP8266/upy-src/boot.py]
(device side).

Conventions of the embedding.
- A Python [str] is a [string]; its characters are the code points
  U+0000..U+00FF, which is what [ascii] holds.
- A Python [bytes] is a [list byte].
- [sys.exit] ends the process and an exception may leave a function: a
  function that may do either returns an [outcome], one of [Return v],
  [Exit code printed] and [Raised e].
- The transport (pyserial) and the device are outside the repository: the
  transport is a log of what was handed to it, the replies of the device
  are inputs of the functions that read them. *)

From Stdlib Require Import Strings.String Strings.Ascii Strings.Byte List Bool Arith ZArith QArith Lia.
From Stdlib Require Import DecimalString Qround.
Import ListNotations.

Close Scope Q_scope.
Open Scope string_scope.

(** ** Characters that have no literal spelling *)

Definition LF : ascii := "010"%char.
Definition CR : ascii := "013"%char.
Definition TAB : ascii := "009"%char.
Definition DQUOTE : ascii := "034"%char.
Definition SQUOTE : ascii := "039"%char.
Definition BACKSLASH : ascii := "092"%char.

Definition chr (c : ascii) : string := String c EmptyString.

(** The two-character string ["\r\n"]. *)
Definition CRLF : string := String CR (String LF EmptyString).

(** ** Python string primitives used by the sources *)

Module PyStr.

(** [s.startswith(p)] *)
Fixpoint startswith (p s : string) : bool :=
  match p, s with
  | EmptyString, _ => true
  | String _ _, EmptyString => false
  | String a p', String b s' => Ascii.eqb a b && startswith p' s'
  end.

(** [s[n:]] *)
Fixpoint drop (n : nat) (s : string) : string :=
  match n, s with
  | O, _ => s
  | S _, EmptyString => EmptyString
  | S n', String _ s' => drop n' s'
  end.

(** [sub in s] *)
Fixpoint contains (sub s : string) : bool :=
  startswith sub s ||
  match s with
  | EmptyString => false
  | String _ t => contains sub t
  end.

(** Number of positions of [s] at which [sub] starts (overlaps counted). *)
Fixpoint occurrences (sub s : string) : nat :=
  (if startswith sub s then 1 else 0) +
  match s with
  | EmptyString => 0
  | String _ t => occurrences sub t
  end.

(** First occurrence of [sep]: the text before it and the text after it,
    as [s.partition(sep)] finds them; [None] when [sep] does not occur. *)
Fixpoint cut (sep s : string) : option (string * string) :=
  if startswith sep s then Some (EmptyString, drop (String.length sep) s)
  else match s with
       | EmptyString => None
       | String c t =>
           match cut sep t with
           | Some (a, b) => Some (String c a, b)
           | None => None
           end
       end.

(** [s.split(sep)] for a non-empty [sep] (Python raises [ValueError] on an
    empty one; every separator in the sources is a non-empty literal).
    The scan goes left to right and resumes after each separator found,
    so the occurrences it uses do not overlap.  Each round consumes at
    least one character, hence [length s] rounds are enough. *)
Fixpoint split_fuel (fuel : nat) (sep s : string) : list string :=
  match fuel with
  | O => [s]
  | S fuel' =>
      match cut sep s with
      | None => [s]
      | Some (a, b) => a :: split_fuel fuel' sep b
      end
  end.

Definition split (sep s : string) : list string :=
  split_fuel (String.length s) sep s.

(** [sep.join(parts)] *)
Definition join (sep : string) (parts : list string) : string :=
  String.concat sep parts.

(** [s.replace(old, new)] for a non-empty [old]: the non-overlapping
    occurrences found from the left are replaced, which is what joining the
    pieces of the split with [new] does. *)
Definition replace (old new s : string) : string :=
  join new (split old s).

(** [s.endswith(p)]: [p] is [s] or ends what follows the first character
    of [s]. *)
Fixpoint endswith (p s : string) : bool :=
  String.eqb p s ||
  match s with
  | EmptyString => false
  | String _ t => endswith p t
  end.

(** ["{}".format(b)] for a [bool]. *)
Definition str_of_bool (b : bool) : string := if b then "True" else "False".

(** ["{}".format(n)] for an [int]. *)
Definition str_of_int (n : Z) : string := NilEmpty.string_of_int (Z.to_int n).

(** [x in argv] for a list of strings. *)
Definition mem (x : string) (argv : list string) : bool :=
  existsb (String.eqb x) argv.

End PyStr.
Import PyStr.

(** ** Process exit and the [error] function (upy_serial_cli.py, 17-37) *)

Definition EXIT_SUCCESS : Z := 0.
Definition EXIT_FAILURE : Z := 255.

(** An exception object: its class, the text [str(err)], and the attributes
    [message] and [errno] that [error] looks for.  An attribute is absent
    ([None] here) or present with its value; the value of [errno] is an
    integer or Python's [None], which is what an [OSError] built from a text
    alone holds. *)
Record pyexn : Type := mk_pyexn {
  exn_class : string;
  exn_str : string;
  exn_message : option string;
  exn_errno : option (option Z)
}.

Inductive outcome (A : Type) : Type :=
| Return (v : A)                      (* the function returns [v] *)
| Exit (code : Z) (printed : string)  (* [sys.exit(code)] after printing [printed] *)
| Raised (e : pyexn).                 (* an exception leaves the function *)
Arguments Return {A} v.
Arguments Exit {A} code printed.
Arguments Raised {A} e.

(** [ValueError(msg)]: neither a [message] nor an [errno] attribute. *)
Definition ValueError (msg : string) : pyexn :=
  mk_pyexn "ValueError" msg None None.

(** [TypeError(msg)] and [IndexError(msg)], raised by the interpreter. *)
Definition TypeError (msg : string) : pyexn :=
  mk_pyexn "TypeError" msg None None.
Definition IndexError (msg : string) : pyexn :=
  mk_pyexn "IndexError" msg None None.

(** [OSError(errno, strerror)], the shape of [FileNotFoundError] and of
    pyserial's [SerialException(errno, text)]; its text is
    [[Errno errno] strerror]. *)
Definition OSError (errno : Z) (strerror : string) : pyexn :=
  mk_pyexn "OSError" ("[Errno " ++ str_of_int errno ++ "] " ++ strerror)
           None (Some (Some errno)).

(** [SerialException(text)], as pyserial raises it for a failed read or
    write: a subclass of [OSError] built from a text alone, so that the
    attribute [errno] is there and holds [None]. *)
Definition SerialException (text : string) : pyexn :=
  mk_pyexn "SerialException" text None (Some None).

(** [hasattr(err, "errno")] *)
Definition has_errno (err : pyexn) : bool :=
  match exn_errno err with Some _ => true | None => false end.

(** [print(msg, file=sys.stderr)] appends a line feed to [msg]. *)
Definition print_line (msg : string) : string := msg ++ chr LF.

(** The exit status of the process for [sys.exit(code)] with an integer:
    the low byte of [code] when it fits a C [long], and 255 otherwise, the
    interpreter turning the failed conversion into -1 (CPython 3.11 on a
    64-bit platform). *)
Definition exit_status (code : Z) : Z :=
  if ((- 2 ^ 63 <=? code) && (code <? 2 ^ 63))%Z then (code mod 256)%Z
  else 255%Z.

(** [sys.exit(arg)] after [printed] went out: the exit status is that of
    [arg] when it is an integer, and 0 when it is [None]. *)
Definition sys_exit {A : Type} (arg : option Z) (printed : string) : outcome A :=
  Exit (match arg with Some code => exit_status code | None => 0%Z end) printed.

(** [err.errno], read once [hasattr] has said that it is there. *)
Definition errno_of (err : pyexn) : option Z :=
  match exn_errno err with
  | Some value => value
  | None => None
  end.

Definition error {A : Type} (err : pyexn) : outcome A :=
  let msg :=
    (match exn_message err with Some m => m | None => exn_str err end)
    ++ chr LF in
  let printed := print_line msg in
  if has_errno err then sys_exit (errno_of err) printed
  else sys_exit (Some EXIT_FAILURE) printed.

(** The exit status of a process that ends in [o]. *)
Definition exit_code {A : Type} (o : outcome A) : option Z :=
  match o with
  | Exit code _ => Some code
  | _ => None
  end.

(** ** The class [upy_serial_cli] (upy_serial_cli.py, 71-980) *)

Module upy_serial_cli.

Definition DEFAULT_BAUDRATE : Z := 9600.
Definition DEFAULT_WAIT : Q := (1 # 10)%Q.
Definition DEFAULT_TIMEOUT : Z := 1.
Definition DEFAULT_SER_WRBUF_SIZE : nat := 256.
Definition DEFAULT_SER_RDBUF_SIZE : nat := 1000.
Definition CLI_MOD : string := "cli_module.py".

(** Lines 135-141.  A [dict] is iterated in insertion order, so the table
    is the list of its items as they are written. *)
Definition SUBSTITUTES : list (string * string) :=
  [ (chr BACKSLASH, chr BACKSLASH ++ chr BACKSLASH);
    (chr LF, chr BACKSLASH ++ "n");
    (chr CR, chr BACKSLASH ++ "r");
    (chr TAB, "    ");
    (chr SQUOTE, chr BACKSLASH ++ chr SQUOTE) ].

Definition BEG_RES : string := "##### BEGIN RESULTS #####".
Definition END_RES : string := "##### END RESULTS #####".

(** *** Result extraction (lines 546-567) *)

(** Lines 554-555: ["\n".join(res_str.split("\r\n"))]. *)
Definition normalize (res_str : string) : string :=
  join (chr LF) (split CRLF res_str).

Definition extract_results (res_str : string) : outcome string :=
  let results := split CRLF res_str in
  let results := join (chr LF) results in
  let results := split BEG_RES results in
  if (List.length results =? 1)%nat then
    error (ValueError "No results found")
  else
    let results := join "" (tl results) in
    let results := split END_RES results in
    if (List.length results =? 1)%nat then
      error (ValueError "Result incomplete")
    else
      Return (join "" (removelast results)).

(** *** Remote statements (lines 223-236 and the [serial_write] call sites) *)

Definition quoted (s : string) : string := chr DQUOTE ++ s ++ chr DQUOTE.

(** Lines 223-236: ["a1", "a2", ..., "an"]. *)
Fixpoint argv_to_str (argv : list string) : string :=
  match argv with
  | [] => ""
  | a :: rest =>
      quoted a ++ (match rest with [] => "" | _ :: _ => ", " end)
      ++ argv_to_str rest
  end.

(** Line 261. *)
Definition cat_stmt (argv : list string) : string :=
  "cat(" ++ argv_to_str argv ++ ")" ++ CRLF.

(** Lines 512-520; [args] are the operands left by [getopt], [max_depth]
    and [human_readable] the values of the options [-d] and [-f]. *)
Definition du_stmt (args : list string) (max_depth : Z) (human_readable : bool)
  : string :=
  let args := match args with [] => ["."] | _ :: _ => args end in
  "du(" ++ argv_to_str args ++ ", max_depth=" ++ str_of_int max_depth
  ++ ", human_readable=" ++ str_of_bool human_readable ++ ")" ++ CRLF.

(** Lines 702-710. *)
Definition ls_stmt (args : list string) (human_readable list_format rec : bool)
  : string :=
  let args := match args with [] => ["."] | _ :: _ => args end in
  "ls(" ++ argv_to_str args ++ ", human_readable=" ++ str_of_bool human_readable
  ++ ", list_format=" ++ str_of_bool list_format
  ++ ", rec=" ++ str_of_bool rec ++ ")" ++ CRLF.

(** Line 977. *)
Definition sysinfo_stmt (query : string) : string :=
  "sysinfo(query=" ++ quoted query ++ ")" ++ CRLF.

(** Line 795. *)
Definition restore_stmt : string := "restore()" ++ CRLF.

(** Line 385. *)
Definition is_dir_stmt (dest : string) : string :=
  "is_dir(" ++ quoted dest ++ ")" ++ CRLF.

(** Lines 845-846. *)
Definition fopen_stmt (dest : string) : string :=
  "fd = open(" ++ quoted dest ++ ", " ++ quoted "w" ++ ")" ++ CRLF.

(** Lines 849-853: every entry of the table is applied to the line, in the
    order of the table. *)
Definition escape_line (line : string) : string :=
  fold_left (fun line kv => replace (fst kv) (snd kv) line) SUBSTITUTES line.

(** Lines 855-856, [line] already escaped. *)
Definition fwrite_stmt (line : string) : string :=
  "fd.write(" ++ chr SQUOTE ++ line ++ chr SQUOTE ++ ".encode("
  ++ quoted "utf-8" ++ "))" ++ CRLF.

(** Line 858. *)
Definition fclose_stmt : string := "fd.close()" ++ CRLF.

(** Lines 181-184, the probe of the constructor: the only statement of the
    file that is followed by a blank line. *)
Definition stat_probe_stmt : string :=
  "try: sb = uos.stat(" ++ quoted CLI_MOD ++ ")" ++ CRLF
  ++ "except Exception as err: print(" ++ quoted "### {} ###"
  ++ ".format(err))" ++ CRLF ++ CRLF.

(** *** Chunked write (lines 879-900) *)

(** [s.encode("utf-8")]: one byte below U+0080, two bytes from there to
    U+00FF. *)
Definition utf8_char (c : ascii) : list byte :=
  let n := N_of_ascii c in
  if (n <? 128)%N then [byte_of_ascii c]
  else [ byte_of_ascii (ascii_of_N (192 + n / 64));
         byte_of_ascii (ascii_of_N (128 + n mod 64)) ].

Fixpoint encode_utf8 (s : string) : list byte :=
  match s with
  | EmptyString => []
  | String c t => utf8_char c ++ encode_utf8 t
  end.

(** [buf[offset:end:]]: the characters from index [offset] up to, not
    including, index [end]; empty when the range is. *)
Definition slice (buf : string) (offset end_ : nat) : string :=
  substring offset (end_ - offset) buf.

(** What [serial_write] does on the transport. *)
Inductive tx : Type :=
| Tx (chunk : list byte)   (* [ser_conn.write(chunk)] *)
| Sleep (t : Q).           (* [time.sleep(t)] *)

(** The [while] loop of lines 890-900.  [wr] is the number that
    [ser_conn.write] returns for a chunk.  The loop has no bound of its own:
    [None] is a run that is still looping when [fuel] rounds are over. *)
Fixpoint serial_write_loop (wr : list byte -> nat) (buf : string) (t_wait : Q)
    (fuel : nat) (offset end_ : nat) : option (list tx) :=
  match fuel with
  | O => None
  | S fuel' =>
      let chunk := encode_utf8 (slice buf offset end_) in
      let written_bytes := wr chunk in
      let pace := if negb (Qle_bool t_wait 0) then [Sleep t_wait] else [] in
      let offset := offset + written_bytes in
      let end_ := offset + DEFAULT_SER_WRBUF_SIZE in
      if (written_bytes =? DEFAULT_SER_WRBUF_SIZE)%nat then
        option_map (fun rest => (Tx chunk :: pace ++ rest)%list)
                   (serial_write_loop wr buf t_wait fuel' offset end_)
      else Some (Tx chunk :: pace)
  end.

Definition serial_write (wr : list byte -> nat) (buf : string)
    (t_wait : option Q) (fuel : nat) : option (list tx) :=
  let t_wait := match t_wait with None => DEFAULT_WAIT | Some t => t end in
  serial_write_loop wr buf t_wait fuel 0 DEFAULT_SER_WRBUF_SIZE.

(** pyserial without a write timeout, which is how line 172 opens the port:
    [write] blocks until the whole chunk is out and returns its length. *)
Definition blocking_write (chunk : list byte) : nat := List.length chunk.

(** The bytes that reached the transport. *)
Fixpoint transmitted (log : list tx) : list byte :=
  match log with
  | [] => []
  | Tx chunk :: rest => chunk ++ transmitted rest
  | Sleep _ :: rest => transmitted rest
  end.

(** *** Sessions: what a command does on the serial connection *)

Inductive event : Type :=
| EvOpen                  (* [self.ser_conn.open()] *)
| EvStmt (stmt : string)  (* [self.serial_write(stmt)] *)
| EvRead                  (* [self.serial_read()] *)
| EvClose.                (* [self.ser_conn.close()] *)

(** The body shared by [cat], [du], [ls] and [sysinfo] once the statement is
    built (lines 259-265, 516-524, 707-714, 976-980): one exchange, then
    [print(self.extract_results(results))].  [reply] is what [serial_read]
    returns; the value is what goes to standard output. *)
Definition exchange (stmt reply : string) : list event * outcome string :=
  ([EvOpen; EvStmt stmt; EvRead; EvClose],
   match extract_results reply with
   | Return payload => Return (print_line payload)
   | Exit code msg => Exit code msg
   | Raised e => Raised e
   end).

(** Lines 238-265; [None] is the branch that prints the help text and sends
    nothing. *)
Definition cat (argv : list string) (reply : string)
  : option (list event * outcome string) :=
  if (List.length argv =? 0)%nat || mem "-h" argv then None
  else Some (exchange (cat_stmt argv) reply).

(** Lines 970-980, [query] being the value left by the option loop. *)
Definition sysinfo_query (query reply : string) : list event * outcome string :=
  exchange (sysinfo_stmt query) reply.

(** Lines 542-544: the command [exit] without [-h]. *)
Definition exit : outcome unit := sys_exit (Some EXIT_SUCCESS) "".

(** Lines 794-796. *)
Definition restore : list event := [EvOpen; EvStmt restore_stmt; EvClose].

(** *** File transfer (lines 837-858) and [cp] from local to serial
    (lines 357-435) *)

(** [c.isspace()] on U+0000..U+00FF, the characters [str.strip] removes. *)
Definition is_space (c : ascii) : bool :=
  let n := nat_of_ascii c in
  ((9 <=? n) && (n <=? 13) || (28 <=? n) && (n <=? 32)
   || (n =? 133) || (n =? 160))%nat.

Fixpoint lstrip (s : string) : string :=
  match s with
  | EmptyString => EmptyString
  | String c t => if is_space c then lstrip t else s
  end.

Fixpoint rstrip (s : string) : string :=
  match s with
  | EmptyString => EmptyString
  | String c t =>
      let t' := rstrip t in
      if is_space c && String.eqb t' "" then EmptyString else String c t'
  end.

(** [s.strip()] *)
Definition strip (s : string) : string := lstrip (rstrip s).

(** [os.path.basename(p)]: what follows the last slash. *)
Definition basename (p : string) : string := last (split "/" p) "".

(** *** Reading the reply (lines 860-877) *)

(** The loop of lines 867-876.  [pending] holds what the successive calls
    [ser_conn.read(1000)] return, in order; once it is used up a read times
    out and returns [b""].  The value is the list of the buffers read: the
    loop goes on as long as a buffer holds 1000 bytes. *)
Fixpoint serial_read_loop (pending : list (list byte)) : list (list byte) :=
  match pending with
  | [] => [[]]
  | buf :: rest =>
      if (List.length buf =? DEFAULT_SER_RDBUF_SIZE)%nat then
        buf :: serial_read_loop rest
      else [buf]
  end.

(** Line 875: [result], the buffers read added up. *)
Definition serial_read_bytes (pending : list (list byte)) : list byte :=
  concat (serial_read_loop pending).

(** Line 877, [decode] being [bytes.decode("utf-8")]. *)
Definition serial_read (decode : list byte -> string + pyexn)
    (pending : list (list byte)) : outcome string :=
  match decode (serial_read_bytes pending) with
  | inl text => Return text
  | inr e => Raised e
  end.

(** *** The probe of the constructor (lines 186-195) *)

(** Lines 189-195: whether the module is transferred, [output] being the
    reply to the probe.  A reply that is not empty is split into its
    lines first. *)
Definition cli_module_missing (output : string) : bool :=
  if (0 <? String.length output)%nat then
    let output := split CRLF output in
    (List.length output =? 0)%nat || mem "### [Errno 2] ENOENT ###" output
  else true.

(** *** Option loops, on the pairs that [getopt] found *)

(** Lines 970-973. *)
Definition sysinfo_options (opts : list (string * string)) : string :=
  fold_left
    (fun query opt => if String.eqb (fst opt) "-q" then snd opt else query)
    opts "all".

(** Lines 970-980. *)
Definition sysinfo_parsed (opts : list (string * string)) (reply : string)
  : list event * outcome string :=
  sysinfo_query (sysinfo_options opts) reply.

(** Line 586: [free] is [sysinfo("-q", "free")], which [getopt] reads as
    the one pair [("-q", "free")]. *)
Definition free (reply : string) : list event * outcome string :=
  sysinfo_parsed [("-q", "free")] reply.

(** Lines 690-699. *)
Definition ls_options (opts : list (string * string)) : bool * bool * bool :=
  fold_left
    (fun flags opt =>
       let '(human_readable, list_format, rec) := flags in
       (if String.eqb (fst opt) "-f" then true else human_readable,
        if String.eqb (fst opt) "-l" then true else list_format,
        if String.eqb (fst opt) "-r" then true else rec))
    opts (false, false, false).


(** *** The entry point (lines 40-68 and 983-1013) and the dispatch of
    commands (lines 603-650, 820-835, 902-920) *)

Definition COMMANDS : list string :=
  ["cat"; "cp"; "du"; "exit"; "free"; "help"; "ls"; "mkdir"; "mv"; "restore";
   "rm"; "sysinfo"].

(** Lines 46-63, [argv0] being [sys.argv[0]]. *)
Definition usage_text (argv0 : string) : string :=
  "Usage: " ++ argv0 ++ " [OPTIONS] [COMMAND]" ++ chr LF ++ chr LF
  ++ "OPTIONS:" ++ chr LF ++ chr LF
  ++ "-b <baudrate>: Baudrate for serial-connection, requires option "
  ++ quoted "-p" ++ " (Default: 9600)" ++ chr LF ++ chr LF
  ++ "-i: Interactive mode, requires option " ++ quoted "-p"
  ++ ", on default, non-interactive mode is used and a COMMAND is expected"
  ++ chr LF ++ chr LF
  ++ "-h: Show help" ++ chr LF ++ chr LF
  ++ "-p <serial_port>: Serial port / device required to setup"
  ++ "serial-connection" ++ chr LF ++ chr LF
  ++ "COMMAND:" ++ chr LF ++ chr LF
  ++ "Run command help to see commands.".

(** Lines 40-68. *)
Definition usage {A : Type} (argv0 : string) (is_err : bool) : outcome A :=
  sys_exit (Some (if is_err then EXIT_FAILURE else EXIT_SUCCESS))
           (print_line (usage_text argv0)).

(** [(name, value) in opts] *)
Definition mem_pair (opt : string * string) (opts : list (string * string))
  : bool :=
  existsb (fun o => String.eqb (fst o) (fst opt) && String.eqb (snd o) (snd opt))
          opts.

(** Lines 996-1005: the port, the baud rate and the mode that the options
    leave. *)
Definition main_options (opts : list (string * string))
  : option string * option string * bool :=
  fold_left
    (fun state opt =>
       let '(port, baudrate, interactive) := state in
       (if String.eqb (fst opt) "-p" then Some (snd opt) else port,
        if String.eqb (fst opt) "-b" then Some (snd opt) else baudrate,
        if String.eqb (fst opt) "-i" then true else interactive))
    opts (None, None, false).

(** What the script goes on with once the command line is accepted: the
    object is built for [port] and [baudrate], then [start] or [run] is
    called with the operands. *)
Record launch : Type := mk_launch {
  launch_port : string;
  launch_baudrate : option string;
  launch_interactive : bool;
  launch_args : list string
}.

(** Lines 983-1010.  [parsed] is what [getopt] gave for the option string
    [b:hp:i]: the pairs and the operands, or [None] for a [GetoptError]. *)
Definition main_parsed (argv0 : string)
    (parsed : option (list (string * string) * list string)) : outcome launch :=
  match parsed with
  | None => usage argv0 true
  | Some (opts, args) =>
      if (List.length opts =? 0)%nat then usage argv0 true
      else if mem_pair ("-h", "") opts then usage argv0 false
      else
        let '(port, baudrate, interactive) := main_options opts in
        match port with
        | None => usage argv0 true
        | Some port => Return (mk_launch port baudrate interactive args)
        end
  end.

(** What a line of the shell comes to. *)
Inductive action : Type :=
| ShowCommands                                 (* the list of all commands *)
| ShowHelp                                     (* the help text of [help] *)
| Invoke (command : string) (args : list string).  (* [getattr(self, command)(args)] *)

(** Lines 603-650. *)
Definition help (argv : list string) : action :=
  if (List.length argv =? 0)%nat
     || (negb (mem "-h" argv) && negb (mem (hd "" argv) COMMANDS))
  then ShowCommands
  else if mem "-h" argv || String.eqb (hd "" argv) "help" then ShowHelp
  else Invoke (hd "" argv) ["-h"].

(** Lines 820-835. *)
Definition run (argv0 : string) (argv : list string) : outcome action :=
  if (List.length argv =? 0)%nat then usage argv0 true
  else
    let command := hd "" argv in
    let args := tl argv in
    if mem command COMMANDS then Return (Invoke command args)
    else Return (help []).

(** Lines 910-919: one round of the loop of [start], [command] being the
    words of the line read. *)
Definition start_round (command : list string) : action :=
  if (0 <? List.length command)%nat && mem (hd "" command) COMMANDS then
    Invoke (hd "" command) (tl command)
  else help [].

(** *** The options of [du] (lines 497-524) *)

Section Du.

(** [int(text)]: the integer that the text spells, or the [ValueError] that
    [int] raises. *)
Variable int_of_str : string -> Z + pyexn.

(** Lines 501-509.  The comparison of line 506 builds a [ValueError] that is
    not raised, so it leaves no trace here. *)
Fixpoint du_options (opts : list (string * string)) (max_depth : Z)
    (human_readable : bool) : Z * bool + pyexn :=
  match opts with
  | [] => inl (max_depth, human_readable)
  | opt :: rest =>
      let depth :=
        if String.eqb (fst opt) "-d" then int_of_str (snd opt)
        else inl max_depth in
      match depth with
      | inr e => inr e
      | inl max_depth =>
          du_options rest max_depth
            (if String.eqb (fst opt) "-f" then true else human_readable)
      end
  end.

(** Lines 497-524, [opts] and [args] being what [getopt] gave. *)
Definition du_parsed (opts : list (string * string)) (args : list string)
    (reply : string) : list event * outcome string :=
  match du_options opts (-1) false with
  | inr e => ([], Raised e)
  | inl (max_depth, human_readable) =>
      exchange (du_stmt args max_depth human_readable) reply
  end.

End Du.

Section LocalHost.

(** The local file system as [serial_fwrite] sees it: the lines that
    iterating over [open(src, "r")] yields, or the exception that [open]
    raises. *)
Variable fs : string -> list string + pyexn.

(** [os.path.realpath] *)
Variable realpath : string -> string.

(** [os.getcwd()] when the class is created (line 124). *)
Variable DEFAULT_PATH : string.

Definition serial_fwrite (src dest : string) : list event * outcome unit :=
  match fs src with
  | inr e => ([], Raised e)
  | inl lines =>
      ((EvStmt (fopen_stmt dest)
          :: map (fun line => EvStmt (fwrite_stmt (escape_line line))) lines
          ++ [EvStmt fclose_stmt])%list,
       Return tt)
  end.

(** Lines 451-466. *)
Definition dedup (pathes : list string) : list string :=
  fold_left
    (fun result p =>
       let p := realpath p in
       if mem p result then result else (result ++ [p])%list)
    pathes [].

(** Lines 397-402: the loop over the sources, left at the first
    exception. *)
Fixpoint fwrite_into (dest : string) (srcs : list string)
  : list event * outcome unit :=
  match srcs with
  | [] => ([], Return tt)
  | src :: rest =>
      let '(ev, r) := serial_fwrite src (dest ++ "/" ++ basename src) in
      match r with
      | Return _ =>
          let '(ev', r') := fwrite_into dest rest in ((ev ++ ev')%list, r')
      | _ => (ev, r)
      end
  end.

(** Lines 375-435 around a body: [except Exception as err: error(err)],
    which [SystemExit] passes untouched, then [finally] the close. *)
Definition guarded (body : list event * outcome unit)
  : list event * outcome unit :=
  let '(ev, r) := body in
  ((ev ++ [EvClose])%list,
   match r with
   | Raised e => error e
   | _ => r
   end).

(** Lines 376-430, the body of the [try]. *)
Definition cp_checked (srcs : list string) (dest reply : string)
  : list event * outcome unit :=
  if String.eqb (strip dest) "" then
    ([], Raised (ValueError "Destination path cannot be empty"))
  else
    let ev0 := [EvOpen; EvStmt (is_dir_stmt dest); EvRead] in
    match extract_results reply with
    | Exit code msg => (ev0, Exit code msg)
    | Raised e => (ev0, Raised e)
    | Return results =>
        let results := strip results in
        let srcs := dedup srcs in
        let '(ev, r) :=
          if String.eqb results "TRUE" then fwrite_into dest srcs
          else if String.eqb results "FALSE" then
            match srcs with
            | [src] => serial_fwrite src dest
            | _ => ([], Raised (ValueError
                     (dest ++ " is not a directory: Cannot copy files")))
            end
          else
            match srcs with
            | [src] => serial_fwrite src dest
            | _ => ([], Raised (ValueError
                     ("Directory " ++ dest
                      ++ " does not exist: Cannot copy files")))
            end
        in ((ev0 ++ ev)%list, r)
    end.

(** Lines 357-435: [cp] with local sources and a destination on the
    device, [srcs] and [dest] being what the option loop left. *)
Definition cp_local_to_serial (srcs : list string) (dest reply : string)
  : list event * outcome unit :=
  let direct :=
    match srcs with
    | [src] => String.eqb src (DEFAULT_PATH ++ "/" ++ CLI_MOD)
               && String.eqb dest CLI_MOD
    | _ => false
    end in
  if direct then
    let '(ev, r) := serial_fwrite (hd "" srcs) dest in
    match r with
    | Return _ => ((EvOpen :: ev ++ [EvClose])%list, Return tt)
    | _ => (EvOpen :: ev, r)
    end
  else guarded (cp_checked srcs dest reply).

(** Lines 321-345: the loop over the options of [cp]; [None] is the help
    text followed by [return -1]. *)
Fixpoint cp_options (opts : list (string * string)) (s d : string) (rec : bool)
  : option (string * string * bool) :=
  match opts with
  | [] => Some (s, d, rec)
  | opt :: rest =>
      let valid := String.eqb (snd opt) "serial" || String.eqb (snd opt) "local" in
      if String.eqb (fst opt) "-s" && negb valid then None
      else
        let s := if String.eqb (fst opt) "-s" then snd opt else s in
        if String.eqb (fst opt) "-d" && negb valid then None
        else
          let d := if String.eqb (fst opt) "-d" then snd opt else d in
          let rec := if String.eqb (fst opt) "-r" then true else rec in
          cp_options rest s d rec
  end.

(** What a call of [cp] without [-h] comes to. *)
Inductive cp_run : Type :=
| CpHelp                                        (* the help text, [return -1] *)
| CpRan (session : list event * outcome unit).  (* the body of lines 357-449 *)

(** Lines 307-449, [opts] and [args] being what [getopt] gave. *)
Definition cp_parsed (opts : list (string * string)) (args : list string)
    (reply : string) : cp_run :=
  if (List.length args <? 2)%nat then CpHelp
  else
    let srcs := removelast args in
    let dest := last args "" in
    match cp_options opts "local" "serial" false with
    | None => CpHelp
    | Some (s, d, rec) =>
        if String.eqb s "local" && String.eqb d "local" then CpHelp
        else if String.eqb s "local" && String.eqb d "serial" then
          CpRan (cp_local_to_serial srcs dest reply)
        else CpRan ([], Return tt)
    end.

End LocalHost.

End upy_serial_cli.

(** ** The decorators of boot.py (lines 15-45) *)

Module boot.

Section Decorators.

(** The arguments of a call, the instances of the decorated class and the
    values that calling an instance gives. *)
Variables Args Inst Res : Type.

(** A class as the decorators use it: calling the class with the
    arguments builds an instance or raises; calling an instance with the
    arguments runs [__call__]. *)
Record pyclass : Type := mk_pyclass {
  construct : Args -> Inst + pyexn;
  dunder_call : Inst -> Args -> Res
}.

(** Which method of the class an invocation of the wrapped name ran. *)
Inductive ran : Type :=
| RanInit (args : Args)
| RanCall (self : Inst) (args : Args).

(** What an invocation of the wrapped name gives back. *)
Inductive given : Type :=
| GaveInstance (self : Inst)
| GaveResult (r : Res)
| GaveRaise (e : pyexn).

(** Lines 31-45.  The cell [instance] of the closure is the state that
    [get_instance] reads and writes. *)
Definition functor (cls : pyclass) (instance : option Inst) (args : Args)
  : option Inst * ran * given :=
  match instance with
  | None =>
      match construct cls args with
      | inl self => (Some self, RanInit args, GaveInstance self)
      | inr e => (None, RanInit args, GaveRaise e)
      end
  | Some self =>
      (Some self, RanCall self args, GaveResult (dunder_call cls self args))
  end.

(** Lines 15-28: the constructor runs on the first call only; later calls
    run nothing and give the stored instance. *)
Definition singleton (cls : pyclass) (instance : option Inst) (args : Args)
  : option Inst * option ran * given :=
  match instance with
  | None =>
      match construct cls args with
      | inl self => (Some self, Some (RanInit args), GaveInstance self)
      | inr e => (None, Some (RanInit args), GaveRaise e)
      end
  | Some self => (Some self, None, GaveInstance self)
  end.

(** Successive invocations of the functor-wrapped name, from the state
    [instance]: what each one ran and gave. *)
Fixpoint invocations (cls : pyclass) (instance : option Inst)
    (calls : list Args) : list (ran * given) :=
  match calls with
  | [] => []
  | args :: rest =>
      let '(instance', r, g) := functor cls instance args in
      (r, g) :: invocations cls instance' rest
  end.

(** Successive invocations of the singleton-wrapped name, from the state
    [instance]. *)
Fixpoint singleton_invocations (cls : pyclass) (instance : option Inst)
    (calls : list Args) : list (option ran * given) :=
  match calls with
  | [] => []
  | args :: rest =>
      let '(instance', r, g) := singleton cls instance args in
      (r, g) :: singleton_invocations cls instance' rest
  end.

End Decorators.

Arguments mk_pyclass {Args Inst Res}.
Arguments construct {Args Inst Res}.
Arguments dunder_call {Args Inst Res}.
Arguments RanInit {Args Inst}.
Arguments RanCall {Args Inst}.
Arguments GaveInstance {Inst Res}.
Arguments GaveResult {Inst Res}.
Arguments GaveRaise {Inst Res}.
Arguments functor {Args Inst Res}.
Arguments singleton {Args Inst Res}.
Arguments invocations {Args Inst Res}.
Arguments singleton_invocations {Args Inst Res}.

End boot.

(** ** The device module cli_module.py *)

Module cli_module.

Definition BEG_RES : string := "##### BEGIN RESULTS #####" ++ chr LF.
Definition END_RES : string := "##### END RESULTS #####" ++ chr LF.

(** Lines 359-365: what [serial_print(msg)] writes on the console. *)
Definition serial_print (msg : string) : string :=
  print_line (BEG_RES ++ msg ++ END_RES).

(** Lines 241-248. *)
Definition err_msg (err : pyexn) : string :=
  (match exn_message err with Some m => m | None => exn_str err end)
  ++ chr LF.

(** Lines 378-388, with [is_err] left at its default as every call does. *)
Definition usage {A : Type} (err : pyexn) : outcome A :=
  Exit EXIT_FAILURE (serial_print ("Usage: " ++ exn_str err ++ chr LF)).

(** *** [human_readable] (lines 264-295) *)

(** The loop turns the [int] it starts from into a [float] as soon as a
    division is not exact.  A [float] is an IEEE double, as CPython has it:
    53 binary digits, values below [2 ^ 1024].  It is embedded as the
    rational it stands for.  Dividing an [int] by 1024 gives the double
    nearest to the quotient, ties going to the even one, and raises
    [OverflowError] when that double would be [2 ^ 1024] or more.  Dividing
    a double that is 1024 or more by 1024 only moves its exponent, and so
    does the floor division of a multiple of 1024: both are exact.
    Interpreters built with single-precision floats are not covered. *)
Inductive pynum : Type :=
| PInt (z : Z)
| PFloat (q : Q).

Definition value (n : pynum) : Q :=
  match n with
  | PInt z => inject_Z z
  | PFloat q => q
  end.

(** [n >= 1024] *)
Definition ge_1024 (n : pynum) : bool := Qle_bool (inject_Z 1024) (value n).

(** [n % 1024 == 0] *)
Definition multiple_of_1024 (n : pynum) : bool :=
  match n with
  | PInt z => (z mod 1024 =? 0)%Z
  | PFloat q =>
      Qeq_bool (q / inject_Z 1024) (inject_Z (Qfloor (q / inject_Z 1024)))
  end.

(** [n //= 1024] *)
Definition floordiv_1024 (n : pynum) : pynum :=
  match n with
  | PInt z => PInt (z / 1024)
  | PFloat q => PFloat (inject_Z (Qfloor (q / inject_Z 1024)))
  end.

(** The integer nearest to [z > 0] among those with at most 53 significant
    binary digits, ties going to the one whose last digit is even: [z] is
    [m * 2 ^ s + r] with [m] of 53 digits, and [m] goes up by one when [r]
    is more than half of [2 ^ s], or half of it with [m] odd. *)
Definition nearest_double (z : Z) : Z :=
  let b := Z.log2 z in
  if (b <? 53)%Z then z
  else
    let s := (b - 52)%Z in
    let m := (z / 2 ^ s)%Z in
    let r := (z mod 2 ^ s)%Z in
    let half := (2 ^ (s - 1))%Z in
    let m' :=
      if (r <? half)%Z then m
      else if (half <? r)%Z then (m + 1)%Z
      else if Z.even m then m else (m + 1)%Z in
    (m' * 2 ^ s)%Z.

(** What [int / int] raises when the quotient is too large for a double. *)
Definition OverflowError : pyexn :=
  mk_pyexn "OverflowError" "integer division result too large for a float"
           None None.

(** [n /= 1024].  For an [int] the quotient is rounded to the nearest
    double, which is [nearest_double z] over 1024, and the division raises
    when that is [2 ^ 1024] or more. *)
Definition truediv_1024 (n : pynum) : pynum + pyexn :=
  match n with
  | PInt z =>
      let v := nearest_double z in
      if (2 ^ 1034 <=? v)%Z then inr OverflowError
      else inl (PFloat (inject_Z v / inject_Z 1024))
  | PFloat q => inl (PFloat (q / inject_Z 1024))
  end.

(** Lines 281-286.  [None] is a run still in the loop after [fuel]
    rounds; an exception of the division leaves the loop. *)
Fixpoint scale (fuel : nat) (n : pynum) (i : nat)
  : option (pynum * nat + pyexn) :=
  if ge_1024 n then
    match fuel with
    | O => None
    | S fuel' =>
        if multiple_of_1024 n then scale fuel' (floordiv_1024 n) (S i)
        else
          match truediv_1024 n with
          | inl n' => scale fuel' n' (S i)
          | inr e => Some (inr e)
          end
    end
  else Some (inl (n, i)).

(** Rounding to the nearest integer, ties to the even one. *)
Definition round_half_even (q : Q) : Z :=
  let f := Qfloor q in
  match Qcompare (q - inject_Z f) (1 # 2) with
  | Lt => f
  | Gt => (f + 1)%Z
  | Eq => if Z.even f then f else (f + 1)%Z
  end.

(** ["{:.1f}".format(q)] for [q >= 0]. *)
Definition format_1f (q : Q) : string :=
  let t := round_half_even (q * inject_Z 10) in
  str_of_int (t / 10) ++ "." ++ str_of_int (t mod 10).

(** [n == int(n)] *)
Definition is_integral (n : pynum) : bool :=
  match n with
  | PInt _ => true
  | PFloat q => Qeq_bool q (inject_Z (Qfloor q))
  end.

(** ["{}".format(n)] when [n == int(n)]: an [int] prints its digits, a
    [float] prints them followed by [.0]. *)
Definition format_plain (n : pynum) : string :=
  match n with
  | PInt z => str_of_int z
  | PFloat q => str_of_int (Qfloor q) ++ ".0"
  end.

Definition units : list string := ["K"; "M"; "G"; "T"].

(** Lines 278-295, after the loop has given [n] and [i]. *)
Definition render (n : pynum) (i : nat) : outcome string :=
  let unit :=
    if (0 <? i)%nat then
      match nth_error units (i - 1) with
      | Some u => inl u
      | None => inr (IndexError "list index out of range")
      end
    else inl "" in
  match unit with
  | inr e => Raised e
  | inl unit =>
      let result := format_1f (value n) ++ unit in
      Return (if is_integral n then format_plain n ++ unit else result)
  end.

Definition human_readable_fuel (fuel : nat) (n : Z) : option (outcome string) :=
  if (n <? 0)%Z then
    Some (usage (ValueError "Number of bytes must be non-negative integer"))
  else
    match scale fuel (PInt n) 0 with
    | None => None
    | Some (inr e) => Some (Raised e)
    | Some (inl (n', i)) => Some (render n' i)
    end.

(** Every round divides by 1024, so the loop is over after at most as many
    rounds as [n] has binary digits. *)
Definition human_readable (n : Z) : option (outcome string) :=
  human_readable_fuel (S (Z.to_nat (Z.log2 n))) n.

(** *** The class [sysinfo] (lines 45-210) *)

Inductive pyval : Type :=
| PNone
| PStr (s : string).

(** The arguments of a call: the positional ones and the keyword ones. *)
Record call_args : Type := mk_args {
  positional : list pyval;
  keywords : list (string * pyval)
}.

Record sysinfo_obj : Type := mk_sysinfo { queries : list string }.

Definition UN_SYSNAME : nat := 0.
Definition UN_NODENAME : nat := 1.
Definition UN_RELEASE : nat := 2.
Definition UN_VERSION : nat := 3.
Definition UN_MACHINE : nat := 4.

Definition F_BSIZE : nat := 0.
Definition F_FRSIZE : nat := 1.
Definition F_BLOCKS : nat := 2.
Definition F_BFREE : nat := 3.
Definition F_BAVAIL : nat := 4.

Definition QUERIES_MEM : list string :=
  ["avail"; "bsize"; "free"; "frsize"; "size"].
Definition QUERIES_SYS : list string :=
  ["fwver"; "hostname"; "hwrelease"; "machine"; "sysname"].

(** Lines 93-105: [__init__(self)] takes no argument besides [self]. *)
Definition sysinfo_init (args : call_args) : sysinfo_obj + pyexn :=
  match positional args, keywords args with
  | [], [] =>
      inl (mk_sysinfo (["all"; "all_mem"; "all_sys"]
                         ++ QUERIES_MEM ++ QUERIES_SYS)%list)
  | _, _ => inr (TypeError "unexpected argument for __init__")
  end.

Section Device.

(** [uos.uname()] and [uos.statvfs("/")] *)
Variable un : list string.
Variable stvfs : list Z.

Definition un_at (i : nat) : string := nth i un "".
Definition stvfs_at (i : nat) : Z := nth i stvfs 0%Z.

Definition line (label : string) (val : string) : string :=
  label ++ ": " ++ val ++ chr LF.

(** Lines 129-143, for a query that is not [None]. *)
Definition meminfo_of (q : string) : string :=
  (if String.eqb q "avail" then
     line "available userspace"
          (str_of_int (stvfs_at F_BAVAIL * stvfs_at F_BSIZE))
   else "")
  ++ (if String.eqb q "bsize" then
        line "blocksize" (str_of_int (stvfs_at F_BSIZE))
      else "")
  ++ (if String.eqb q "free" then
        line "free space" (str_of_int (stvfs_at F_BFREE * stvfs_at F_BSIZE))
      else "")
  ++ (if String.eqb q "frsize" then
        line "fragment size" (str_of_int (stvfs_at F_FRSIZE))
      else "")
  ++ (if String.eqb q "size" then
        line "total memory space"
             (str_of_int (stvfs_at F_BLOCKS * stvfs_at F_FRSIZE))
      else "").

(** Lines 114-145. *)
Definition meminfo (q : option string) : string :=
  match q with
  | None => meminfo_of "avail" ++ meminfo_of "bsize" ++ meminfo_of "free"
            ++ meminfo_of "frsize" ++ meminfo_of "size"
  | Some q => meminfo_of q
  end.

(** Lines 194-208, for a query that is not [None]. *)
Definition sysinfo_of (q : string) : string :=
  (if String.eqb q "fwver" then line "firmware version" (un_at UN_VERSION)
   else "")
  ++ (if String.eqb q "hostname" then line "hostname" (un_at UN_NODENAME)
      else "")
  ++ (if String.eqb q "hwrelease" then
        line "hardware release" (un_at UN_RELEASE)
      else "")
  ++ (if String.eqb q "machine" then line "machine" (un_at UN_MACHINE)
      else "")
  ++ (if String.eqb q "sysname" then line "system name" (un_at UN_SYSNAME)
      else "").

(** Lines 179-210. *)
Definition sysinfo_part (q : option string) : string :=
  match q with
  | None => sysinfo_of "fwver" ++ sysinfo_of "hostname"
            ++ sysinfo_of "hwrelease" ++ sysinfo_of "machine"
            ++ sysinfo_of "sysname"
  | Some q => sysinfo_of q
  end.

(** Lines 147-177. *)
Definition query (self : sysinfo_obj) (q : option string) : outcome string :=
  let q := match q with None => "all" | Some q => q end in
  if negb (mem q (queries self)) then usage (ValueError "Unknown query")
  else
    Return
      (if String.eqb q "all" then sysinfo_part None ++ meminfo None
       else if String.eqb q "all_mem" then meminfo None
       else if String.eqb q "all_sys" then sysinfo_part None
       else (if mem q QUERIES_MEM then meminfo (Some q) else "")
            ++ (if mem q QUERIES_SYS then sysinfo_part (Some q) else "")).

(** Lines 107-112: [__call__(self, query=None)]; the value is what the
    call writes on the console. *)
Definition sysinfo_call (self : sysinfo_obj) (args : call_args)
  : outcome string :=
  let bound :=
    match positional args, keywords args with
    | [], [] => inl PNone
    | [v], [] => inl v
    | [], [(k, v)] =>
        if String.eqb k "query" then inl v
        else inr (TypeError "unexpected keyword argument")
    | _, _ => inr (TypeError "unexpected arguments for __call__")
    end in
  match bound with
  | inr e => Raised e
  | inl v =>
      match query self (match v with PNone => None | PStr s => Some s end) with
      | Return text => Return (serial_print text)
      | Exit code printed => Exit code printed
      | Raised e => Raised e
      end
  end.

(** Lines 45-46: the class handed to the decorator. *)
Definition sysinfo_class : boot.pyclass call_args sysinfo_obj (outcome string) :=
  boot.mk_pyclass sysinfo_init sysinfo_call.

(** The name [sysinfo] of the module: the wrapped class. *)
Definition sysinfo (instance : option sysinfo_obj) (args : call_args) :=
  boot.functor sysinfo_class instance args.

End Device.

(** *** Files of the device (lines 19-26, 213-225, 298-312, 338-356) *)

Definition S_IFDIR : Z := 16384.  (* 0o40000 *)
Definition S_IFREG : Z := 32768.  (* 0o100000 *)
Definition S_IFMT : Z := 61440.   (* 0o170000 *)

(** [err_msg(text)] for a [str], which has no attribute [message]: this is
    how [is_dir], [ls] and [serial_fprint] call it. *)
Definition err_msg_of_str (text : string) : string := text ++ chr LF.

Section DeviceFiles.

(** [uos.stat(path)[0]], or the exception that [uos.stat] raises. *)
Variable stat_mode : string -> Z + pyexn.

(** The lines that iterating over [open(file, "r")] yields, or the
    exception that [open] raises. *)
Variable file_lines : string -> list string + pyexn.

(** [path.strip() == ""] as the interpreter of the device decides it. *)
Variable blank : string -> bool.

(** Lines 298-312; the value is what the call writes on the console. *)
Definition is_dir (path : string) : string :=
  if blank path then
    serial_print (err_msg_of_str (path ++ ": " ++ "No path given"))
  else
    match stat_mode path with
    | inr err => serial_print (err_msg_of_str (path ++ ": " ++ exn_str err))
    | inl mode =>
        if (Z.land mode S_IFMT =? S_IFDIR)%Z then
          serial_print ("TRUE" ++ chr LF)
        else serial_print ("FALSE" ++ chr LF)
    end.

(** Lines 345-354: what [serial_fprint] writes between the two markers. *)
Definition file_text (file : string) : string :=
  match stat_mode file with
  | inr err => err_msg_of_str (file ++ ": " ++ exn_str err)
  | inl mode =>
      if (Z.land mode S_IFMT =? S_IFREG)%Z then
        match file_lines file with
        | inr err => err_msg_of_str (file ++ ": " ++ exn_str err)
        | inl lines => String.concat "" lines
        end
      else
        err_msg_of_str (file ++ ": " ++ file ++ " is not a regular file")
  end.

(** Lines 338-356: every [print] has [end=""]. *)
Definition serial_fprint (file : string) : string :=
  BEG_RES ++ file_text file ++ END_RES.

(** Lines 213-225. *)
Definition cat (argv : list string) : outcome string :=
  if (List.length argv =? 0)%nat then usage (ValueError "No file too display")
  else Return (String.concat "" (map serial_fprint argv)).

End DeviceFiles.

(** *** [ls] (lines 315-335) *)

Section DeviceDirs.

(** [uos.stat(path)[0]], or the exception that [uos.stat] raises. *)
Variable stat_mode : string -> Z + pyexn.

(** ["{}".format(uos.listdir(path))]: the list of the names as Python
    writes it, or the exception that [uos.listdir] raises. *)
Variable listdir_text : string -> string + pyexn.




End DeviceDirs.

End cli_module.

(** ** Definitions used to state and prove the facts *)

Module Aux.
  Import upy_serial_cli.

(** Line-terminator normalisation read character by character: every
    carriage return that is followed by a line feed is dropped. *)
Fixpoint norm (s : string) : string :=
  match s with
  | EmptyString => EmptyString
  | String c t =>
      match t with
      | EmptyString => String c EmptyString
      | String d t' =>
          if Ascii.eqb c CR && Ascii.eqb d LF then String LF (norm t')
          else String c (norm t)
      end
  end.

(** Whether a carriage-return/line-feed pair starts at [String c t]. *)
Definition at_crlf (c : ascii) (t : string) : bool :=
  Ascii.eqb c CR && startswith (chr LF) t.

(** [lacks c s]: the character [c] does not occur in [s]. *)
Fixpoint lacks (c : ascii) (s : string) : bool :=
  match s with
  | EmptyString => true
  | String x t => negb (Ascii.eqb x c) && lacks c t
  end.

(** A marker: a non-empty text without carriage return and line feed. *)
Definition marker (m : string) : Prop :=
  m <> "" /\ lacks CR m = true /\ lacks LF m = true.

(** [n] copies of the character [c]. *)
Fixpoint repeat_char (n : nat) (c : ascii) : string :=
  match n with
  | O => EmptyString
  | S n' => String c (repeat_char n' c)
  end.

(** Every character is below U+0080. *)
Fixpoint is_ascii (s : string) : bool :=
  match s with
  | EmptyString => true
  | String c t => (N_of_ascii c <? 128)%N && is_ascii t
  end.

(** The last separator that the left-to-right scan of [split] uses: the
    text before it and the text after it; [None] when the scan finds no
    separator. *)
Definition last_cut (sep s : string) : option (string * string) :=
  match split sep s with
  | [] | [_] => None
  | parts => Some (join sep (removelast parts), last parts "")
  end.

(** Replies of the device used as examples: the reply of the device to
    the query [hostname]; a reply in which deleting the second [BEGIN]
    glues an [END] together; a reply with two markers of each kind. *)
Definition ex_hostname : string :=
  BEG_RES ++ CRLF ++ "hostname: esp-01" ++ CRLF ++ END_RES ++ CRLF.

Definition ex_glued : string :=
  BEG_RES ++ "##### END RES" ++ BEG_RES ++ "ULTS #####".

Definition ex_nested : string :=
  "x" ++ BEG_RES ++ "a" ++ BEG_RES ++ "b" ++ END_RES ++ "c" ++ END_RES ++ "d".

(** Character-wise substitution: every [k] becomes [new]. *)
Fixpoint subst (k : ascii) (new s : string) : string :=
  match s with
  | EmptyString => EmptyString
  | String c t => (if Ascii.eqb c k then new else chr c) ++ subst k new t
  end.

(** The escaping of one character by the table of [SUBSTITUTES]. *)
Definition escape_char (c : ascii) : string :=
  if Ascii.eqb c BACKSLASH then chr BACKSLASH ++ chr BACKSLASH
  else if Ascii.eqb c LF then chr BACKSLASH ++ "n"
  else if Ascii.eqb c CR then chr BACKSLASH ++ "r"
  else if Ascii.eqb c TAB then "    "
  else if Ascii.eqb c SQUOTE then chr BACKSLASH ++ chr SQUOTE
  else chr c.

Fixpoint escape_chars (s : string) : string :=
  match s with
  | EmptyString => EmptyString
  | String c t => escape_char c ++ escape_chars t
  end.

(** [clean s]: neither carriage return nor line feed occurs in [s]. *)
Definition clean (s : string) : bool := lacks CR s && lacks LF s.

(** A single line: a text without carriage return and line feed, closed by
    a parenthesis and followed by one CRLF. *)
Definition one_line (stmt : string) : Prop :=
  exists body, stmt = body ++ ")" ++ CRLF /\ clean body = true.

(** The statements that the host hands to [serial_write], each with the
    texts of the user that it holds unescaped. *)
Inductive produced : list string -> string -> Prop :=
| by_cat argv : produced argv (cat_stmt argv)
| by_du args max_depth human_readable :
    produced args (du_stmt args max_depth human_readable)
| by_ls args human_readable list_format rec :
    produced args (ls_stmt args human_readable list_format rec)
| by_sysinfo query : produced [query] (sysinfo_stmt query)
| by_restore : produced [] restore_stmt
| by_is_dir dest : produced [dest] (is_dir_stmt dest)
| by_fopen dest : produced [dest] (fopen_stmt dest)
| by_fwrite line : produced [] (fwrite_stmt (escape_line line))
| by_fclose : produced [] fclose_stmt.

(** The statements of one file transfer, in the order they are sent. *)
Definition transfer (dest : string) (lines : list string) : list string :=
  (fopen_stmt dest :: map (fun line => fwrite_stmt (escape_line line)) lines
   ++ [fclose_stmt])%list.

Definition is_stmt (e : event) : bool :=
  match e with EvStmt _ => true | _ => false end.

(** One bracket: the connection is opened first, closed last, and neither
    opened nor closed in between. *)
Definition one_bracket (events : list event) : Prop :=
  exists middle,
    events = (EvOpen :: middle ++ [EvClose])%list
    /\ ~ In EvOpen middle /\ ~ In EvClose middle.

(** A local host with one three-line file, and the reply of the device to
    the probe of a destination that is not a directory. *)
Definition ex_fs (path : string) : list string + pyexn :=
  if String.eqb path "/home/user/main.py" then
    inl ["import a" ++ chr LF; chr TAB ++ "x = 'y'" ++ chr LF; "z"]
  else inr (OSError 2 "No such file or directory").
Definition ex_probe_reply : string :=
  cli_module.BEG_RES ++ "FALSE" ++ chr LF ++ cli_module.END_RES.

(** The chunks handed to the transport, in order. *)
Fixpoint chunks (log : list tx) : list (list byte) :=
  match log with
  | [] => []
  | Tx chunk :: rest => chunk :: chunks rest
  | Sleep _ :: rest => chunks rest
  end.

(** Every chunk is followed by one pause of [t]. *)
Definition paced (t : Q) (log : list tx) : Prop :=
  log = flat_map (fun chunk => [Tx chunk; Sleep t]) (chunks log).

(** A line of 241 times U+00E9, and the statement that writes it. *)
Definition ex_accents : string := repeat_char 241 "233"%char.
Definition ex_accents_stmt : string := fwrite_stmt (escape_line ex_accents).

(** [1024 ^ k] as a rational. *)
Definition kibi (k : nat) : Q := inject_Z (1024 ^ Z.of_nat k).






(** The text without its last character. *)
Definition chop (s : string) : string :=
  substring 0 (String.length s - 1) s.

(** The arguments read back from a text of the form ["a1", "a2", ..., "an"]:
    what lies between the first and the last character, cut at every
    quote-comma-blank-quote. *)
Definition listed (s : string) : list string :=
  match s with
  | EmptyString => []
  | String _ t => split (chr DQUOTE ++ ", " ++ chr DQUOTE) (chop t)
  end.

(** A text that the device may print between its markers and the host reads
    back whole: it is empty or ends with a line feed, and holds neither
    marker. *)
Definition printable (msg : string) : Prop :=
  (msg = "" \/ endswith (chr LF) msg = true)
  /\ contains BEG_RES msg = false
  /\ contains END_RES msg = false.

(** The suffix that [human_readable] gives to a number divided [k] times. *)
Definition unit_of (k : nat) : string :=
  match k with
  | O => ""
  | S j => nth j cli_module.units ""
  end.

(** [sealed s]: [s] ends with a line feed and holds no marker before
    it. *)
Definition sealed (s : string) : Prop :=
  exists a, s = a ++ chr LF
            /\ contains BEG_RES a = false /\ contains END_RES a = false.

(** The text as a console transmits it that sends every line feed as a
    carriage return followed by a line feed. *)
Definition cooked (s : string) : string := subst LF CRLF s.


(** The sides that the option loop of [cp] leaves, without the flag of the
    recursion. *)
Definition route (r : option (string * string * bool))
  : option (string * string) :=
  option_map (fun x => (fst (fst x), snd (fst x))) r.

Definition not_r (opt : string * string) : bool :=
  negb (String.eqb (fst opt) "-r").

(** Whether the option [flag] is among the pairs. *)
Definition has_flag (flag : string) (opts : list (string * string)) : bool :=
  existsb (fun opt => String.eqb (fst opt) flag) opts.

(** A device with the directory [lib] and the two-line file [boot.py]. *)
Definition ex_stat (path : string) : Z + pyexn :=
  if String.eqb path "lib" then inl 16877%Z
  else if String.eqb path "boot.py" then inl 33188%Z
  else inr (OSError 2 "ENOENT").
Definition ex_lines (file : string) : list string + pyexn :=
  if String.eqb file "boot.py" then
    inl ["import esp" ++ chr LF; "esp.osdebug(None)" ++ chr LF]
  else inr (OSError 2 "ENOENT").

(** The value of the Python literal ["body"] (double quotes, no prefix),
    which is how the statements of the host hold their arguments: [None]
    when [body] breaks the literal (a bare double quote, a line break, a
    backslash at the end) or holds an escape sequence other than those for
    the backslash, the quotes, the line feed and the carriage return. *)
Fixpoint quoted_value (body : string) : option string :=
  match body with
  | EmptyString => Some EmptyString
  | String c t =>
      if Ascii.eqb c BACKSLASH then
        match t with
        | EmptyString => None
        | String d t' =>
            let esc :=
              if Ascii.eqb d BACKSLASH then Some BACKSLASH
              else if Ascii.eqb d "n" then Some LF
              else if Ascii.eqb d "r" then Some CR
              else if Ascii.eqb d DQUOTE then Some DQUOTE
              else if Ascii.eqb d SQUOTE then Some SQUOTE
              else None in
            match esc, quoted_value t' with
            | Some x, Some v => Some (String x v)
            | _, _ => None
            end
        end
      else if Ascii.eqb c DQUOTE || Ascii.eqb c LF || Ascii.eqb c CR then None
      else option_map (String c) (quoted_value t)
  end.

(** [plain s]: every character of [s] is a printable ASCII character
    (codes 32 to 126) other than the double quote and the backslash.  The
    host writes its arguments between double quotes into a statement,
    unescaped, and the console of the device takes control characters as
    keys; a plain argument is typed as it is and is the value of its
    literal. *)
Fixpoint plain (s : string) : bool :=
  match s with
  | EmptyString => true
  | String c t =>
      (32 <=? N_of_ascii c)%N && (N_of_ascii c <? 127)%N
      && negb (Ascii.eqb c DQUOTE) && negb (Ascii.eqb c BACKSLASH)
      && plain t
  end.


End Aux.
Import Aux.

(** * Facts *)

(** ** Strings *)

Module PyStrFacts.

Lemma append_nil_r (s : string) : s ++ "" = s.
Proof. induction s as [|c s IH]; simpl; [reflexivity | now rewrite IH]. Qed.

Lemma append_assoc (a b c : string) : (a ++ b) ++ c = a ++ (b ++ c).
Proof. induction a as [|x a IH]; simpl; [reflexivity | now rewrite IH]. Qed.

Lemma length_append (a b : string) :
  String.length (a ++ b) = String.length a + String.length b.
Proof. induction a as [|x a IH]; simpl; [reflexivity | now rewrite IH]. Qed.

Lemma append_inv_head (a b c : string) : a ++ b = a ++ c -> b = c.
Proof.
  induction a as [|x a IH]; simpl; intros H; [exact H|].
  injection H as H. now apply IH.
Qed.

Lemma startswith_nil (s : string) : startswith "" s = true.
Proof. now destruct s. Qed.

Lemma startswith_cons (a b : ascii) (p s : string) :
  startswith (String a p) (String b s) = Ascii.eqb a b && startswith p s.
Proof. reflexivity. Qed.

Lemma startswith_append (p s : string) : startswith p (p ++ s) = true.
Proof.
  induction p as [|a p IH]; [apply startswith_nil|].
  simpl. now rewrite Ascii.eqb_refl, IH.
Qed.

Lemma startswith_spec (p s : string) :
  startswith p s = true <-> exists t, s = p ++ t.
Proof.
  split.
  - revert s. induction p as [|a p IH]; intros s H.
    + now exists s.
    + destruct s as [|b s]; [discriminate|].
      rewrite startswith_cons in H. apply andb_true_iff in H as [Hab Hps].
      apply Ascii.eqb_eq in Hab. subst b.
      destruct (IH _ Hps) as [t ->]. now exists t.
  - intros [t ->]. apply startswith_append.
Qed.

Lemma drop_append (p s : string) : drop (String.length p) (p ++ s) = s.
Proof. induction p as [|a p IH]; simpl; [now destruct s | exact IH]. Qed.

(** A prefix test only looks at as many characters as the prefix has. *)
Lemma startswith_append_long (p a b : string) :
  String.length p <= String.length a ->
  startswith p (a ++ b) = startswith p a.
Proof.
  revert a. induction p as [|x p IH]; intros a Hlen.
  - now rewrite !startswith_nil.
  - destruct a as [|y a]; simpl in Hlen; [lia|].
    simpl. rewrite IH by lia. reflexivity.
Qed.

Lemma contains_startswith (sub s : string) :
  startswith sub s = true -> contains sub s = true.
Proof. intros H. destruct s; simpl; now rewrite H. Qed.

Lemma contains_spec (sub s : string) :
  contains sub s = true <-> exists a b, s = a ++ sub ++ b.
Proof.
  split.
  - induction s as [|c s IH]; simpl; intros H.
    + rewrite orb_false_r in H. apply startswith_spec in H as [t Ht].
      now exists "", t.
    + apply orb_true_iff in H as [H|H].
      * apply startswith_spec in H as [t Ht]. now exists "", t.
      * destruct (IH H) as (a & b & ->). now exists (String c a), b.
  - intros (a & b & ->). induction a as [|c a IH]; simpl.
    + apply contains_startswith, startswith_append.
    + rewrite IH. apply orb_true_r.
Qed.

Lemma contains_append_r (sub a b : string) :
  contains sub b = true -> contains sub (a ++ b) = true.
Proof.
  intros H. apply contains_spec in H as (x & y & ->).
  apply contains_spec. exists (a ++ x), y. now rewrite append_assoc.
Qed.

Lemma contains_append_l (sub a b : string) :
  contains sub a = true -> contains sub (a ++ b) = true.
Proof.
  intros H. apply contains_spec in H as (x & y & ->).
  apply contains_spec. exists x, (y ++ b). now rewrite !append_assoc.
Qed.

Lemma occurrences_zero (sub s : string) :
  occurrences sub s = 0 <-> contains sub s = false.
Proof.
  induction s as [|c s IH]; simpl.
  - destruct (startswith sub ""); simpl; split; intros; congruence || lia.
  - destruct (startswith sub (String c s)); simpl.
    + split; intros; congruence || lia.
    + exact IH.
Qed.

Lemma occurrences_pos (sub s : string) :
  contains sub s = true -> 1 <= occurrences sub s.
Proof.
  intros H. destruct (occurrences sub s) eqn:E; [|lia].
  apply occurrences_zero in E. congruence.
Qed.

(** ** The first occurrence *)

Lemma startswith_drop (p s : string) :
  startswith p s = true -> s = p ++ drop (String.length p) s.
Proof.
  intros H. apply startswith_spec in H as [t ->]. now rewrite drop_append.
Qed.

Lemma cut_eq (sep s a b : string) :
  cut sep s = Some (a, b) -> s = a ++ sep ++ b.
Proof.
  revert a. induction s as [|c s IH]; intros a; simpl.
  - destruct (startswith sep "") eqn:E; [|discriminate].
    intros [= <- <-]. now apply startswith_drop.
  - destruct (startswith sep (String c s)) eqn:E.
    + intros [= <- <-]. now apply startswith_drop.
    + destruct (cut sep s) as [[a' b']|]; [|discriminate].
      intros [= <- <-]. simpl. f_equal. now apply IH.
Qed.

Lemma cut_none (sep s : string) :
  cut sep s = None <-> contains sep s = false.
Proof.
  induction s as [|c s IH]; simpl.
  - destruct (startswith sep ""); simpl; split; congruence.
  - destruct (startswith sep (String c s)); simpl.
    + split; congruence.
    + destruct (cut sep s) as [[a b]|].
      * split; [discriminate|]. intros H. apply IH in H. discriminate.
      * split; [|reflexivity]. intros _. now apply IH.
Qed.

Lemma cut_some (sep s : string) :
  contains sep s = true -> exists a b, cut sep s = Some (a, b).
Proof.
  intros H. destruct (cut sep s) as [[a b]|] eqn:E; [now exists a, b|].
  apply cut_none in E. congruence.
Qed.

Lemma cut_shorter (sep s a b : string) :
  sep <> "" -> cut sep s = Some (a, b) -> String.length b < String.length s.
Proof.
  intros Hne H. apply cut_eq in H. subst s.
  rewrite !length_append. destruct sep; [congruence | simpl; lia].
Qed.

(** Where the separator stands after a text that does not hold the start
    of an earlier occurrence, the cut is there. *)
Lemma cut_startswith (sep s : string) :
  startswith sep s = true ->
  cut sep s = Some ("", drop (String.length sep) s).
Proof. intros H. destruct s; simpl; now rewrite H. Qed.

Lemma cut_here (sep b : string) : cut sep (sep ++ b) = Some ("", b).
Proof.
  rewrite cut_startswith by apply startswith_append.
  now rewrite drop_append.
Qed.

Lemma cut_cons (sep s a b : string) (c : ascii) :
  startswith sep (String c s) = false ->
  cut sep s = Some (a, b) ->
  cut sep (String c s) = Some (String c a, b).
Proof. intros H1 H2. simpl in *. now rewrite H1, H2. Qed.

Lemma cut_append_inv (sep a x y z : string) :
  cut sep (a ++ x) = Some (a ++ y, z) -> cut sep x = Some (y, z).
Proof.
  induction a as [|c a IH]; simpl; [trivial|].
  destruct (startswith sep (String c (a ++ x))); [discriminate|].
  destruct (cut sep (a ++ x)) as [[a' b']|]; [|discriminate].
  intros [= -> ->]. now apply IH.
Qed.

(** ** [split] *)

(** Induction on the length of the string [s]: [IH] speaks of every string
    that is shorter than the one at hand. *)
Ltac induction_on_length s n IH Hn :=
  remember (String.length s) as n eqn:Hn;
  revert s Hn; induction n as [n IH] using lt_wf_ind.

Lemma split_fuel_enough (sep : string) (n : nat) :
  sep <> "" ->
  forall s, String.length s <= n -> split_fuel n sep s = split sep s.
Proof.
  intros Hne. unfold split.
  induction n as [n IH] using lt_wf_ind. intros s Hlen.
  destruct n as [|n].
  - destruct s; simpl in Hlen; [reflexivity | lia].
  - destruct (String.length s) as [|m] eqn:Em; simpl.
    + destruct s; [|discriminate]. simpl.
      destruct (startswith sep "") eqn:E; [|reflexivity].
      destruct sep; [congruence | discriminate].
    + destruct (cut sep s) as [[a b]|] eqn:Ec; [|reflexivity].
      f_equal. pose proof (cut_shorter _ _ _ _ Hne Ec) as Hb.
      rewrite (IH n) by lia. rewrite (IH m) by lia. reflexivity.
Qed.

Lemma split_cut_some (sep s a b : string) :
  sep <> "" -> cut sep s = Some (a, b) -> split sep s = a :: split sep b.
Proof.
  intros Hne Hc. pose proof (cut_shorter _ _ _ _ Hne Hc) as Hb.
  unfold split at 1. destruct (String.length s) as [|n] eqn:En; [lia|].
  simpl. rewrite Hc. f_equal. apply split_fuel_enough; [assumption | lia].
Qed.

Lemma split_cut_none (sep s : string) :
  cut sep s = None -> split sep s = [s].
Proof.
  intros Hc. unfold split. destruct (String.length s); simpl;
    [reflexivity | now rewrite Hc].
Qed.

Lemma split_length_one (sep s : string) :
  sep <> "" ->
  (List.length (split sep s) =? 1)%nat = negb (contains sep s).
Proof.
  intros Hne. destruct (cut sep s) as [[a b]|] eqn:Ec.
  - rewrite (split_cut_some _ _ _ _ Hne Ec).
    assert (Hc : contains sep s = true).
    { destruct (contains sep s) eqn:E; [reflexivity|].
      apply cut_none in E. congruence. }
    rewrite Hc. simpl.
    unfold split. destruct (String.length b); simpl; [reflexivity|].
    destruct (cut sep b) as [[? ?]|]; reflexivity.
  - rewrite (split_cut_none _ _ Ec). apply cut_none in Ec. now rewrite Ec.
Qed.

End PyStrFacts.

(** ** Normalising the line terminators *)

Module NormFacts.
  Import PyStrFacts upy_serial_cli.
  Local Arguments Ascii.eqb : simpl never.

Lemma string_ind2 (P : string -> Prop) :
  P "" ->
  (forall c, P (String c "")) ->
  (forall c d t, P t -> P (String d t) -> P (String c (String d t))) ->
  forall s, P s.
Proof.
  intros H0 H1 H2 s.
  enough (H : P s /\ forall c, P (String c s)) by apply H.
  induction s as [|d t [IHt IHc]]; split; auto.
Qed.

Lemma split_not_nil (sep s : string) : split sep s <> [].
Proof.
  unfold split. destruct (String.length s); simpl; [discriminate|].
  destruct (cut sep s) as [[? ?]|]; discriminate.
Qed.

Lemma join_cons (sep a : string) (rest : list string) :
  rest <> [] -> join sep (a :: rest) = a ++ sep ++ join sep rest.
Proof. destruct rest; [congruence | reflexivity]. Qed.

Lemma CRLF_not_nil : CRLF <> "".
Proof. discriminate. Qed.

Lemma at_crlf_true (c : ascii) (t : string) :
  at_crlf c t = true -> exists t', c = CR /\ t = String LF t'.
Proof.
  unfold at_crlf. intros H. apply andb_true_iff in H as [Hc Ht].
  apply Ascii.eqb_eq in Hc. apply startswith_spec in Ht as [t' ->].
  now exists t'.
Qed.

Lemma startswith_CRLF (c : ascii) (t : string) :
  startswith CRLF (String c t) = at_crlf c t.
Proof.
  unfold at_crlf, CRLF. rewrite startswith_cons, Ascii.eqb_sym.
  destruct t; reflexivity.
Qed.

Lemma norm_crlf (t : string) :
  norm (String CR (String LF t)) = String LF (norm t).
Proof. reflexivity. Qed.

Lemma norm_other (c : ascii) (t : string) :
  at_crlf c t = false -> norm (String c t) = String c (norm t).
Proof.
  unfold at_crlf. destruct t as [|d t]; [reflexivity|].
  unfold chr. rewrite startswith_cons, startswith_nil, andb_true_r.
  rewrite (Ascii.eqb_sym LF d). intros H.
  change (norm (String c (String d t))) with
    (if Ascii.eqb c CR && Ascii.eqb d LF then String LF (norm t)
     else String c (norm (String d t))).
  now rewrite H.
Qed.

Lemma cut_CRLF_other (c : ascii) (t : string) :
  at_crlf c t = false ->
  cut CRLF (String c t) =
    match cut CRLF t with
    | Some (a, b) => Some (String c a, b)
    | None => None
    end.
Proof.
  intros H. rewrite <- startswith_CRLF in H.
  change (cut CRLF (String c t)) with
    (if startswith CRLF (String c t) then Some ("", drop (String.length CRLF) (String c t))
     else match cut CRLF t with
          | Some (a, b) => Some (String c a, b)
          | None => None
          end).
  now rewrite H.
Qed.

Lemma norm_cut_none (s : string) : cut CRLF s = None -> norm s = s.
Proof.
  induction s as [|c t IH]; [reflexivity|].
  destruct (at_crlf c t) eqn:E.
  - apply at_crlf_true in E as (t' & -> & ->). discriminate.
  - rewrite cut_CRLF_other, norm_other by assumption.
    destruct (cut CRLF t) as [[? ?]|]; [discriminate|].
    intros _. now rewrite IH.
Qed.

Lemma norm_cut_some (s a b : string) :
  cut CRLF s = Some (a, b) -> norm s = a ++ chr LF ++ norm b.
Proof.
  revert a. induction s as [|c t IH]; intros a; [discriminate|].
  destruct (at_crlf c t) eqn:E.
  - apply at_crlf_true in E as (t' & -> & ->). intros [= <- <-]. reflexivity.
  - rewrite cut_CRLF_other, norm_other by assumption.
    destruct (cut CRLF t) as [[a' b']|]; [|discriminate].
    intros [= <- <-]. simpl. f_equal. now apply IH.
Qed.

(** The two-step reading of lines 554-555 is the character-wise one. *)
Lemma normalize_norm (s : string) : normalize s = norm s.
Proof.
  unfold normalize.
  induction_on_length s n IH Hn; intros s Hn.
  destruct (cut CRLF s) as [[a b]|] eqn:Ec.
  - rewrite (split_cut_some _ _ _ _ CRLF_not_nil Ec).
    rewrite join_cons by apply split_not_nil.
    rewrite (IH (String.length b)); [| | reflexivity].
    + symmetry. now apply norm_cut_some.
    + subst n. now apply (cut_shorter CRLF s a b CRLF_not_nil).
  - rewrite (split_cut_none _ _ Ec). simpl. symmetry. now apply norm_cut_none.
Qed.

Lemma at_crlf_not_CR (c : ascii) (t : string) :
  Ascii.eqb c CR = false -> at_crlf c t = false.
Proof. unfold at_crlf. now intros ->. Qed.

Lemma at_crlf_append (c : ascii) (a x : string) :
  a <> "" -> at_crlf c (a ++ x) = at_crlf c a.
Proof.
  intros Ha. unfold at_crlf, chr. destruct a as [|d a]; [congruence|].
  simpl append. now rewrite !startswith_cons, !startswith_nil.
Qed.

Lemma startswith_norm (m s : string) :
  lacks CR m = true -> startswith m s = true ->
  startswith m (norm s) = true /\
  drop (String.length m) (norm s) = norm (drop (String.length m) s).
Proof.
  revert s. induction m as [|a m IH]; intros s Hm Hs.
  - now rewrite startswith_nil.
  - destruct s as [|b t]; [discriminate|].
    rewrite startswith_cons in Hs. apply andb_true_iff in Hs as [Hab Ht].
    apply Ascii.eqb_eq in Hab. subst b.
    simpl in Hm. apply andb_true_iff in Hm as [Ha Hm].
    apply negb_true_iff in Ha.
    rewrite (norm_other a t) by now apply at_crlf_not_CR.
    destruct (IH t Hm Ht) as [H1 H2]. split.
    + now rewrite startswith_cons, Ascii.eqb_refl, H1.
    + simpl. exact H2.
Qed.

Lemma startswith_norm_inv (m s : string) :
  lacks LF m = true -> startswith m (norm s) = true -> startswith m s = true.
Proof.
  revert s. induction m as [|a m IH]; intros s Hm Hs.
  - apply startswith_nil.
  - simpl in Hm. apply andb_true_iff in Hm as [Ha Hm].
    apply negb_true_iff in Ha.
    destruct s as [|c t]; [discriminate|].
    destruct (at_crlf c t) eqn:E.
    + apply at_crlf_true in E as (t' & -> & ->). rewrite norm_crlf in Hs.
      rewrite startswith_cons, Ha in Hs. discriminate.
    + rewrite norm_other in Hs by assumption.
      rewrite startswith_cons in *. apply andb_true_iff in Hs as [Hac Hs].
      rewrite Hac. simpl. now apply IH.
Qed.

Lemma marker_not_LF (m t : string) :
  marker m -> startswith m (String LF t) = false.
Proof.
  intros (Hne & _ & Hlf). destruct m as [|a m]; [congruence|].
  simpl in Hlf. apply andb_true_iff in Hlf as [Ha _].
  apply negb_true_iff in Ha. now rewrite startswith_cons, Ha.
Qed.

Lemma marker_not_CR (m t : string) :
  marker m -> startswith m (String CR t) = false.
Proof.
  intros (Hne & Hcr & _). destruct m as [|a m]; [congruence|].
  simpl in Hcr. apply andb_true_iff in Hcr as [Ha _].
  apply negb_true_iff in Ha. now rewrite startswith_cons, Ha.
Qed.

Lemma cut_step (sep : string) (c : ascii) (t : string) :
  startswith sep (String c t) = false ->
  cut sep (String c t) =
    match cut sep t with
    | Some (a, b) => Some (String c a, b)
    | None => None
    end.
Proof. intros H. simpl. now rewrite H. Qed.

(** The first occurrence of a marker is where it was before normalising. *)
Lemma cut_norm (m : string) :
  marker m ->
  forall s a b,
    cut m s = Some (a, b) -> cut m (norm s) = Some (norm a, norm b).
Proof.
  intros Hm s.
  induction_on_length s n IH Hn; intros s Hn a b Hc.
  destruct (startswith m s) eqn:Es.
  - rewrite cut_startswith in Hc by assumption. injection Hc as <- <-.
    destruct Hm as (_ & Hcr & _).
    destruct (startswith_norm m s Hcr Es) as [H1 H2].
    rewrite cut_startswith by assumption. now rewrite H2.
  - destruct s as [|c t].
    { simpl in Hc. rewrite Es in Hc. discriminate. }
    rewrite cut_step in Hc by assumption.
    destruct (cut m t) as [[a' b']|] eqn:Et; [|discriminate].
    injection Hc as <- <-.
    destruct (at_crlf c t) eqn:E.
    + apply at_crlf_true in E as (t' & -> & ->).
      rewrite cut_step in Et by now apply marker_not_LF.
      destruct (cut m t') as [[a'' b'']|] eqn:Et'; [|discriminate].
      injection Et as <- <-.
      rewrite !norm_crlf.
      rewrite cut_step by now apply marker_not_LF.
      rewrite (IH (String.length t') ltac:(subst n; simpl; lia) t' eq_refl a'' b'' Et').
      reflexivity.
    + rewrite norm_other by assumption.
      assert (En : startswith m (String c (norm t)) = false).
      { destruct (startswith m (String c (norm t))) eqn:En; [|reflexivity].
        rewrite <- (norm_other c t E) in En.
        destruct Hm as (_ & _ & Hlf).
        apply startswith_norm_inv in En; [congruence | assumption]. }
      rewrite cut_step by assumption.
      rewrite (IH (String.length t) ltac:(subst n; simpl; lia) t eq_refl a' b' Et).
      f_equal. f_equal. symmetry. apply norm_other.
      destruct (at_crlf c a') eqn:Ea; [|reflexivity].
      apply at_crlf_true in Ea as (a'' & -> & ->).
      apply cut_eq in Et. subst t. discriminate.
Qed.

Lemma contains_norm_inv (m : string) :
  marker m ->
  forall s, contains m (norm s) = true -> contains m s = true.
Proof.
  intros Hm s.
  induction_on_length s n IH Hn; intros s Hn H.
  destruct s as [|c t].
  { exact H. }
  destruct (at_crlf c t) eqn:E.
  - apply at_crlf_true in E as (t' & -> & ->). rewrite norm_crlf in H.
    simpl in H. rewrite (marker_not_LF m (norm t') Hm) in H. simpl in H.
    apply (contains_append_r m CRLF t').
    apply (IH (String.length t')); [subst n; simpl; lia | reflexivity | exact H].
  - rewrite norm_other in H by assumption.
    assert (H' : startswith m (String c (norm t)) = true
                 \/ contains m (norm t) = true).
    { simpl in H. apply orb_true_iff in H. exact H. }
    destruct H' as [H'|H'].
    + rewrite <- (norm_other c t E) in H'. destruct Hm as (_ & _ & Hlf).
      apply contains_startswith. now apply startswith_norm_inv.
    + apply (contains_append_r m (chr c) t).
      apply (IH (String.length t)); [subst n; simpl; lia | reflexivity | exact H'].
Qed.

Lemma contains_norm (m s : string) :
  marker m -> contains m (norm s) = contains m s.
Proof.
  intros Hm. destruct (contains m s) eqn:E.
  - destruct (cut_some _ _ E) as (a & b & Hc).
    apply (cut_norm m Hm) in Hc.
    destruct (contains m (norm s)) eqn:En; [reflexivity|].
    apply cut_none in En. congruence.
  - destruct (contains m (norm s)) eqn:En; [|reflexivity].
    apply (contains_norm_inv m Hm) in En. congruence.
Qed.

Lemma norm_append (a x : string) :
  startswith (chr LF) x = false -> norm (a ++ x) = norm a ++ norm x.
Proof.
  intros Hx.
  induction a as [|c|c d t IHt IHdt] using string_ind2.
  - reflexivity.
  - simpl append. rewrite norm_other; [reflexivity|].
    unfold at_crlf. rewrite Hx. apply andb_false_r.
  - destruct (at_crlf c (String d t)) eqn:E.
    + apply at_crlf_true in E as (t' & -> & [= -> ->]).
      simpl append. rewrite !norm_crlf, IHt. reflexivity.
    + change (String c (String d t) ++ x) with (String c (String d t ++ x)).
      rewrite norm_other.
      * rewrite IHdt. now rewrite (norm_other c (String d t)).
      * rewrite at_crlf_append by discriminate. exact E.
Qed.

Lemma norm_marker_append (m b : string) :
  lacks CR m = true -> norm (m ++ b) = m ++ norm b.
Proof.
  induction m as [|a m IH]; intros Hm; [reflexivity|].
  simpl in Hm. apply andb_true_iff in Hm as [Ha Hm].
  apply negb_true_iff in Ha.
  simpl append. rewrite norm_other by now apply at_crlf_not_CR.
  now rewrite IH.
Qed.

Lemma norm_around_marker (m a b : string) :
  marker m -> norm (a ++ m ++ b) = norm a ++ m ++ norm b.
Proof.
  intros Hm. rewrite norm_append.
  - destruct Hm as (_ & Hcr & _). now rewrite norm_marker_append.
  - destruct Hm as (Hne & _ & Hlf). destruct m as [|x m]; [congruence|].
    simpl in Hlf. apply andb_true_iff in Hlf as [Hx _].
    apply negb_true_iff in Hx. simpl append. unfold chr.
    now rewrite startswith_cons, Ascii.eqb_sym, Hx.
Qed.

(** A text in which the separator starts at one position only is cut
    there, and what follows holds no further occurrence. *)
Lemma occurrences_cons (sub : string) (c : ascii) (t : string) :
  occurrences sub (String c t) =
  (if startswith sub (String c t) then 1 else 0) + occurrences sub t.
Proof. reflexivity. Qed.

Lemma occurrences_one_cut (m pre rest : string) :
  m <> "" ->
  occurrences m (pre ++ m ++ rest) = 1 ->
  cut m (pre ++ m ++ rest) = Some (pre, rest) /\ contains m rest = false.
Proof.
  intros Hne. induction pre as [|c pre IH]; intros H.
  - simpl append in *. split; [apply cut_here|].
    destruct m as [|x m]; [congruence|].
    assert (Hs : startswith (String x m) (String x m ++ rest) = true)
      by apply startswith_append.
    simpl append in *. rewrite occurrences_cons, Hs in H.
    assert (H0 : occurrences (String x m) (m ++ rest) = 0) by lia.
    apply occurrences_zero in H0.
    destruct (contains (String x m) rest) eqn:E; [|reflexivity].
    apply (contains_append_r _ m) in E. congruence.
  - simpl append in *.
    assert (Hc : contains m (pre ++ m ++ rest) = true).
    { apply contains_spec. now exists pre, rest. }
    apply occurrences_pos in Hc. rewrite occurrences_cons in H.
    destruct (startswith m (String c (pre ++ m ++ rest))) eqn:Es; [lia|].
    simpl in H. destruct (IH H) as [H1 H2]. split; [|exact H2].
    now apply cut_cons.
Qed.

End NormFacts.

(** ** More on [cut] and [split] *)

Module SplitFacts.
  Import PyStrFacts NormFacts.
  Local Arguments Ascii.eqb : simpl never.

Lemma cut_before_free (sep : string) :
  sep <> "" ->
  forall s a b, cut sep s = Some (a, b) -> contains sep a = false.
Proof.
  intros Hne s. induction s as [|c t IH]; intros a b H.
  - simpl in H. destruct (startswith sep "") eqn:E; [|discriminate].
    destruct sep; [congruence | discriminate].
  - destruct (startswith sep (String c t)) eqn:E.
    + rewrite cut_startswith in H by assumption. injection H as <- <-.
      destruct sep; [congruence | reflexivity].
    + rewrite cut_step in H by assumption.
      destruct (cut sep t) as [[a' b']|] eqn:Et; [|discriminate].
      injection H as <- <-.
      cbn [contains]. rewrite (IH a' b' eq_refl), orb_false_r.
      destruct (startswith sep (String c a')) eqn:Ea; [|reflexivity].
      apply cut_eq in Et. subst t.
      apply startswith_spec in Ea as [u Hu].
      assert (Hs : startswith sep (String c (a' ++ sep ++ b')) = true).
      { apply startswith_spec. exists (u ++ sep ++ b').
        change (String c (a' ++ sep ++ b')) with (String c a' ++ sep ++ b').
        rewrite Hu. now rewrite append_assoc. }
      congruence.
Qed.

Lemma cut_prefix_indep (sep a b y : string) :
  cut sep (a ++ sep ++ b) = Some (a, b) ->
  cut sep (a ++ sep ++ y) = Some (a, y).
Proof.
  induction a as [|c a IH]; intros H.
  - exact (cut_here sep y).
  - cbn [append] in *.
    destruct (startswith sep (String c (a ++ sep ++ b))) eqn:E.
    + rewrite cut_startswith in H by assumption. discriminate.
    + rewrite cut_step in H by assumption.
      destruct (cut sep (a ++ sep ++ b)) as [[a' b']|] eqn:Et; [|discriminate].
      injection H as -> ->.
      assert (E' : startswith sep (String c (a ++ sep ++ y)) = false).
      { rewrite <- E.
        change (String c (a ++ sep ++ y)) with (String c a ++ sep ++ y).
        change (String c (a ++ sep ++ b)) with (String c a ++ sep ++ b).
        rewrite <- !append_assoc.
        rewrite !(startswith_append_long sep (String c a ++ sep))
          by (rewrite length_append; lia).
        reflexivity. }
      rewrite cut_step by assumption. now rewrite (IH eq_refl).
Qed.

Lemma join_split (sep : string) :
  sep <> "" -> forall s, join sep (split sep s) = s.
Proof.
  intros Hne s. induction_on_length s n IH Hn; intros s Hn.
  destruct (cut sep s) as [[a b]|] eqn:Ec.
  - rewrite (split_cut_some _ _ _ _ Hne Ec).
    rewrite join_cons by apply split_not_nil.
    rewrite (IH (String.length b)); [| | reflexivity].
    + symmetry. now apply cut_eq.
    + subst n. now apply (cut_shorter sep s a b).
  - now rewrite (split_cut_none _ _ Ec).
Qed.

Lemma removelast_cons2 {A : Type} (x y : A) (l : list A) :
  removelast (x :: y :: l) = x :: removelast (y :: l).
Proof. reflexivity. Qed.

(** The pieces before the last one, joined again and split again, are the
    same pieces. *)
Lemma split_join_removelast (sep : string) :
  sep <> "" ->
  forall s, split sep (join sep (removelast (split sep s)))
            = match removelast (split sep s) with
              | [] => [""]
              | parts => parts
              end.
Proof.
  intros Hne s. induction_on_length s n IH Hn; intros s Hn.
  destruct (cut sep s) as [[a b]|] eqn:Ec.
  - rewrite (split_cut_some _ _ _ _ Hne Ec).
    pose proof (cut_shorter _ _ _ _ Hne Ec) as Hlt.
    specialize (IH (String.length b) ltac:(lia) b eq_refl).
    destruct (split sep b) as [|p [|q l]] eqn:Eb.
    + now apply split_not_nil in Eb.
    + cbn [removelast]. cbn [join String.concat].
      apply split_cut_none, cut_none. now apply (cut_before_free sep Hne s a b).
    + rewrite removelast_cons2.
      rewrite join_cons by discriminate.
      assert (Hc : cut sep (a ++ sep ++ join sep (removelast (p :: q :: l)))
                   = Some (a, join sep (removelast (p :: q :: l)))).
      { apply (cut_prefix_indep sep a b). apply cut_eq in Ec as Es.
        now rewrite <- Es. }
      rewrite (split_cut_some _ _ _ _ Hne Hc). rewrite IH.
      rewrite removelast_cons2. reflexivity.
  - rewrite (split_cut_none _ _ Ec). cbn [removelast join String.concat].
    apply split_cut_none. cbn [cut]. destruct sep; [congruence | reflexivity].
Qed.

Lemma join_removelast_last (sep : string) (parts : list string) :
  2 <= List.length parts ->
  join sep parts = join sep (removelast parts) ++ sep ++ last parts "".
Proof.
  induction parts as [|p [|q l] IH]; cbn [List.length]; intros Hlen; try lia.
  destruct l as [|r l].
  - reflexivity.
  - rewrite removelast_cons2.
    rewrite (join_cons sep p (q :: r :: l)) by discriminate.
    rewrite IH by (cbn [List.length]; lia).
    rewrite (join_cons sep p (removelast (q :: r :: l))) by discriminate.
    change (last (p :: q :: r :: l) "") with (last (q :: r :: l) "").
    now rewrite !append_assoc.
Qed.

Lemma split_last_free (sep : string) :
  sep <> "" -> forall s, contains sep (last (split sep s) "") = false.
Proof.
  intros Hne s. induction_on_length s n IH Hn; intros s Hn.
  destruct (cut sep s) as [[a b]|] eqn:Ec.
  - rewrite (split_cut_some _ _ _ _ Hne Ec).
    pose proof (cut_shorter _ _ _ _ Hne Ec) as Hlt.
    specialize (IH (String.length b) ltac:(lia) b eq_refl).
    destruct (split sep b) as [|p l] eqn:Eb; [now apply split_not_nil in Eb|].
    exact IH.
  - rewrite (split_cut_none _ _ Ec). now apply cut_none.
Qed.

(** [last_cut] does cut at a separator, and no separator follows it. *)
Lemma last_cut_spec (sep s body tail : string) :
  sep <> "" ->
  last_cut sep s = Some (body, tail) ->
  s = body ++ sep ++ tail /\ contains sep tail = false.
Proof.
  intros Hne H. unfold last_cut in H.
  pose proof (join_split sep Hne s) as Hj.
  pose proof (split_last_free sep Hne s) as Hl.
  destruct (split sep s) as [|p [|q l]] eqn:Es; try discriminate.
  pose proof (f_equal (fun o => match o with
                                | Some (b, _) => b
                                | None => ""
                                end) H) as Hbody.
  pose proof (f_equal (fun o => match o with
                                | Some (_, t) => t
                                | None => ""
                                end) H) as Htail.
  cbv beta iota in Hbody, Htail. subst body tail. split; [|exact Hl].
  rewrite <- Hj. apply join_removelast_last. cbn [List.length]. lia.
Qed.

End SplitFacts.

(** ** Result extraction *)

Module ExtractFacts.
  Import PyStrFacts NormFacts SplitFacts upy_serial_cli.
  Local Arguments Ascii.eqb : simpl never.

Lemma BEG_RES_marker : marker BEG_RES.
Proof. split; [discriminate | split; reflexivity]. Qed.

Lemma END_RES_marker : marker END_RES.
Proof. split; [discriminate | split; reflexivity]. Qed.

Lemma BEG_RES_not_nil : BEG_RES <> "".
Proof. discriminate. Qed.

Lemma END_RES_not_nil : END_RES <> "".
Proof. discriminate. Qed.

(** The function read on the normalised text, with the length tests turned
    into membership tests. *)
Lemma extract_results_unfold (res_str : string) :
  extract_results res_str =
  if negb (contains BEG_RES (norm res_str)) then
    error (ValueError "No results found")
  else
    let inner := join "" (tl (split BEG_RES (norm res_str))) in
    if negb (contains END_RES inner) then
      error (ValueError "Result incomplete")
    else Return (join "" (removelast (split END_RES inner))).
Proof.
  unfold extract_results. fold (normalize res_str). rewrite normalize_norm.
  rewrite (split_length_one BEG_RES _ BEG_RES_not_nil).
  destruct (negb (contains BEG_RES (norm res_str))); [reflexivity|].
  cbv zeta. rewrite (split_length_one END_RES _ END_RES_not_nil).
  reflexivity.
Qed.

Lemma join_nil_singleton (s : string) : join "" [s] = s.
Proof. reflexivity. Qed.

(** What the extraction gives when the first [BEGIN] is followed by a text
    without further [BEGIN], in which the first [END] is the only one. *)
Lemma extract_results_envelope (res_str pre mid post : string) :
  cut BEG_RES (norm res_str) = Some (pre, mid ++ END_RES ++ post) ->
  contains BEG_RES (mid ++ END_RES ++ post) = false ->
  cut END_RES (mid ++ END_RES ++ post) = Some (mid, post) ->
  contains END_RES post = false ->
  extract_results res_str = Return mid.
Proof.
  intros Hb Hb' He He'. rewrite extract_results_unfold.
  assert (Hc : contains BEG_RES (norm res_str) = true).
  { destruct (contains BEG_RES (norm res_str)) eqn:E; [reflexivity|].
    apply cut_none in E. congruence. }
  rewrite Hc. cbv zeta. cbn [negb].
  rewrite (split_cut_some _ _ _ _ BEG_RES_not_nil Hb).
  apply cut_none in Hb'. rewrite (split_cut_none _ _ Hb').
  cbn [tl]. rewrite join_nil_singleton.
  assert (Hc' : contains END_RES (mid ++ END_RES ++ post) = true).
  { apply contains_spec. now exists mid, post. }
  rewrite Hc'. cbn [negb].
  rewrite (split_cut_some _ _ _ _ END_RES_not_nil He).
  apply cut_none in He'. rewrite (split_cut_none _ _ He').
  reflexivity.
Qed.

(** Claim C1, as amended.  A reply in which [BEGIN] starts at one position
    only and [END] starts at one position only, the [BEGIN] first: whatever
    stands before the [BEGIN] and after the [END], [extract_results] returns
    the text strictly between the two markers with every CRLF of it turned
    into LF (lines 554-555 normalise the whole reply before it is split). *)
Theorem extract_results_single_envelope (pre mid post : string) :
  occurrences BEG_RES (pre ++ BEG_RES ++ mid ++ END_RES ++ post) = 1 ->
  occurrences END_RES (pre ++ BEG_RES ++ mid ++ END_RES ++ post) = 1 ->
  extract_results (pre ++ BEG_RES ++ mid ++ END_RES ++ post)
  = Return (normalize mid).
Proof.
  intros Hb He.
  destruct (occurrences_one_cut _ _ _ BEG_RES_not_nil Hb) as [Hb1 Hb2].
  assert (He0 : occurrences END_RES ((pre ++ BEG_RES ++ mid) ++ END_RES ++ post) = 1).
  { now rewrite !append_assoc. }
  destruct (occurrences_one_cut _ _ _ END_RES_not_nil He0) as [He1 He2].
  assert (He3 : cut END_RES ((pre ++ BEG_RES) ++ mid ++ END_RES ++ post)
                = Some ((pre ++ BEG_RES) ++ mid, post)).
  { rewrite !append_assoc. rewrite !append_assoc in He1. exact He1. }
  apply cut_append_inv in He3.
  rewrite normalize_norm.
  apply (extract_results_envelope _ (norm pre) (norm mid) (norm post)).
  - rewrite <- (norm_around_marker END_RES mid post END_RES_marker).
    now apply (cut_norm BEG_RES BEG_RES_marker).
  - rewrite <- (norm_around_marker END_RES mid post END_RES_marker).
    now rewrite (contains_norm BEG_RES _ BEG_RES_marker).
  - rewrite <- (norm_around_marker END_RES mid post END_RES_marker).
    now apply (cut_norm END_RES END_RES_marker).
  - now rewrite (contains_norm END_RES _ END_RES_marker).
Qed.

Lemma error_no_results_neq_incomplete :
  @error string (ValueError "No results found")
  <> error (ValueError "Result incomplete").
Proof. discriminate. Qed.

(** Claim C2, as amended.  For every reply: the extraction ends the process
    with the message [No results found] (exit code 255) exactly when the
    reply holds no [BEGIN]; it ends it with [Result incomplete] exactly when
    the reply holds a [BEGIN] and the text after the first one, normalised
    and with the further [BEGIN] markers deleted, holds no [END]; a reply
    without [BEGIN] never gives a payload. *)
Theorem extract_results_errors (res_str : string) :
  (extract_results res_str = error (ValueError "No results found")
   <-> contains BEG_RES res_str = false)
  /\ (extract_results res_str = error (ValueError "Result incomplete")
      <-> exists pre rest,
            cut BEG_RES res_str = Some (pre, rest)
            /\ contains END_RES (replace BEG_RES "" (normalize rest)) = false)
  /\ (contains BEG_RES res_str = false ->
      forall payload, extract_results res_str <> Return payload).
Proof.
  rewrite extract_results_unfold.
  rewrite (contains_norm BEG_RES res_str BEG_RES_marker).
  destruct (contains BEG_RES res_str) eqn:Eb; cbn [negb].
  - destruct (cut_some _ _ Eb) as (pre & rest & Hc).
    pose proof (cut_norm BEG_RES BEG_RES_marker _ _ _ Hc) as Hn.
    rewrite (split_cut_some _ _ _ _ BEG_RES_not_nil Hn). cbn [tl]. cbv zeta.
    fold (replace BEG_RES "" (norm rest)).
    destruct (contains END_RES (replace BEG_RES "" (norm rest))) eqn:Ee;
      cbn [negb].
    + split; [|split].
      * split; discriminate.
      * split; [discriminate|].
        intros (p & r & H1 & H2). rewrite Hc in H1. injection H1 as <- <-.
        rewrite normalize_norm in H2. congruence.
      * discriminate.
    + split; [|split].
      * split; discriminate.
      * split; [|intros _; reflexivity].
        intros _. exists pre, rest. split; [exact Hc|].
        now rewrite normalize_norm.
      * discriminate.
  - split; [|split].
    + split; reflexivity.
    + split; [discriminate|].
      intros (p & r & H1 & _). apply cut_none in Eb. congruence.
    + intros _ payload. discriminate.
Qed.

(** Claim C7, as amended.  [rest] is all the text after the first [BEGIN] of
    the normalised reply.  The [END] split is applied to [rest] with its
    further [BEGIN] markers deleted, not to [rest] itself; and of the text
    [body] that stands before the last [END] that this split uses, what is
    returned is [body] with its own [END] markers deleted. *)
Theorem extract_results_segments (res_str pre rest body tail : string) :
  cut BEG_RES (normalize res_str) = Some (pre, rest) ->
  last_cut END_RES (replace BEG_RES "" rest) = Some (body, tail) ->
  extract_results res_str = Return (replace END_RES "" body).
Proof.
  intros Hb He. rewrite normalize_norm in Hb.
  rewrite extract_results_unfold.
  assert (Hc : contains BEG_RES (norm res_str) = true).
  { destruct (contains BEG_RES (norm res_str)) eqn:E; [reflexivity|].
    apply cut_none in E. congruence. }
  rewrite Hc. cbn [negb]. cbv zeta.
  rewrite (split_cut_some _ _ _ _ BEG_RES_not_nil Hb). cbn [tl].
  fold (replace BEG_RES "" rest).
  destruct (last_cut_spec _ _ _ _ END_RES_not_nil He) as [Hs _].
  assert (Hc' : contains END_RES (replace BEG_RES "" rest) = true).
  { apply contains_spec. now exists body, tail. }
  rewrite Hc'. cbn [negb]. f_equal.
  unfold last_cut in He. unfold replace at 2.
  pose proof (split_join_removelast END_RES END_RES_not_nil
                (replace BEG_RES "" rest)) as Hr.
  destruct (split END_RES (replace BEG_RES "" rest)) as [|p [|q l]] eqn:Es;
    try discriminate.
  pose proof (f_equal (fun o => match o with
                                | Some (b, _) => b
                                | None => ""
                                end) He) as Hbody.
  cbv beta iota in Hbody. rewrite <- Hbody, Hr, removelast_cons2.
  reflexivity.
Qed.

(** Claim C1 as stated fails on its own example.  The reply holds one
    [BEGIN] and one [END]; what comes back is neither the text between the
    markers as the device sent it (the CRLFs have become LFs) nor the bare
    line [hostname: esp-01]: the line breaks that follow [BEGIN] and precede
    [END] belong to the payload, and [print] adds one more. *)
Lemma extract_results_hostname_reply :
  occurrences BEG_RES ex_hostname = 1
  /\ occurrences END_RES ex_hostname = 1
  /\ extract_results ex_hostname = Return (chr LF ++ "hostname: esp-01" ++ chr LF)
  /\ extract_results ex_hostname <> Return (CRLF ++ "hostname: esp-01" ++ CRLF)
  /\ extract_results ex_hostname <> Return "hostname: esp-01"
  /\ snd (sysinfo_query "hostname" ex_hostname)
     = Return (chr LF ++ "hostname: esp-01" ++ chr LF ++ chr LF).
Proof.
  repeat split; try reflexivity; vm_compute; discriminate.
Qed.

(** The amended claim C1 at the reply to the query [hostname]. *)
Lemma extract_results_single_envelope_witness :
  extract_results ex_hostname
  = Return (normalize (CRLF ++ "hostname: esp-01" ++ CRLF)).
Proof.
  apply (extract_results_single_envelope "" (CRLF ++ "hostname: esp-01" ++ CRLF) CRLF);
    reflexivity.
Defined.

(** Claim C2 as stated fails: this reply holds a [BEGIN] and no [END] at all,
    and the extraction succeeds with the empty payload, because deleting the
    second [BEGIN] (line 559) puts the two halves of an [END] side by side. *)
Lemma extract_results_glued_end :
  contains BEG_RES ex_glued = true
  /\ contains END_RES ex_glued = false
  /\ extract_results ex_glued = Return "".
Proof. repeat split; reflexivity. Qed.

(** Claim C7 as stated fails: with two [BEGIN] and two [END] the text after
    the first [BEGIN] still holds the second one, but the payload is [abc],
    in which no marker text is left. *)
Lemma extract_results_drops_markers :
  extract_results ex_nested = Return "abc"
  /\ cut BEG_RES (normalize ex_nested)
     = Some ("x", "a" ++ BEG_RES ++ "b" ++ END_RES ++ "c" ++ END_RES ++ "d")
  /\ contains BEG_RES "abc" = false.
Proof. repeat split; reflexivity. Qed.

(** The amended claim C7 at the reply with two markers of each kind. *)
Lemma extract_results_segments_witness :
  extract_results ex_nested = Return (replace END_RES "" ("ab" ++ END_RES ++ "c")).
Proof.
  apply (extract_results_segments ex_nested "x"
           ("a" ++ BEG_RES ++ "b" ++ END_RES ++ "c" ++ END_RES ++ "d")
           ("ab" ++ END_RES ++ "c") "d"); reflexivity.
Defined.

End ExtractFacts.

(** ** Escaping and the shape of the remote statements *)

Module EscapeFacts.
  Import PyStrFacts NormFacts SplitFacts upy_serial_cli.
  Local Arguments Ascii.eqb : simpl never.

Lemma startswith_chr (k c : ascii) (t : string) :
  startswith (chr k) (String c t) = Ascii.eqb k c.
Proof. unfold chr. now rewrite startswith_cons, startswith_nil, andb_true_r. Qed.

Lemma cut_chr_none (k : ascii) (s : string) (new : string) :
  cut (chr k) s = None -> subst k new s = s.
Proof.
  induction s as [|c t IH]; [reflexivity|].
  destruct (Ascii.eqb k c) eqn:E.
  - rewrite cut_startswith by now rewrite startswith_chr. discriminate.
  - rewrite cut_step by now rewrite startswith_chr.
    destruct (cut (chr k) t) as [[? ?]|]; [discriminate|]. intros _.
    cbn [subst]. rewrite Ascii.eqb_sym, E, IH by reflexivity. reflexivity.
Qed.

Lemma cut_chr_some (k : ascii) (new s a b : string) :
  cut (chr k) s = Some (a, b) -> subst k new s = a ++ new ++ subst k new b.
Proof.
  revert a. induction s as [|c t IH]; intros a; [discriminate|].
  destruct (Ascii.eqb k c) eqn:E.
  - rewrite cut_startswith by now rewrite startswith_chr.
    intros [= <- <-]. cbn [subst]. now rewrite Ascii.eqb_sym, E.
  - rewrite cut_step by now rewrite startswith_chr.
    destruct (cut (chr k) t) as [[a' b']|] eqn:Et; [|discriminate].
    intros [= <- <-]. cbn [subst]. rewrite Ascii.eqb_sym, E.
    now rewrite (IH a' eq_refl).
Qed.

Lemma chr_not_nil (k : ascii) : chr k <> "".
Proof. discriminate. Qed.

(** Replacing a one-character key is the character-wise substitution. *)
Lemma replace_chr (k : ascii) (new s : string) :
  replace (chr k) new s = subst k new s.
Proof.
  unfold replace. induction_on_length s n IH Hn; intros s Hn.
  destruct (cut (chr k) s) as [[a b]|] eqn:Ec.
  - rewrite (split_cut_some _ _ _ _ (chr_not_nil k) Ec).
    rewrite join_cons by apply split_not_nil.
    rewrite (IH (String.length b)); [| | reflexivity].
    + symmetry. now apply cut_chr_some.
    + subst n. now apply (cut_shorter (chr k) s a b (chr_not_nil k)).
  - rewrite (split_cut_none _ _ Ec). symmetry. now apply cut_chr_none.
Qed.

Lemma subst_append (k : ascii) (new a b : string) :
  subst k new (a ++ b) = subst k new a ++ subst k new b.
Proof.
  induction a as [|c a IH]; [reflexivity|].
  cbn [append subst]. now rewrite IH, append_assoc.
Qed.

Lemma subst_lacks (k : ascii) (new s : string) :
  lacks k s = true -> subst k new s = s.
Proof.
  induction s as [|c t IH]; [reflexivity|].
  cbn [lacks subst]. intros H. apply andb_true_iff in H as [Hc Ht].
  apply negb_true_iff in Hc. now rewrite Hc, IH.
Qed.

Lemma escape_line_unfold (line : string) :
  escape_line line =
  subst SQUOTE (chr BACKSLASH ++ chr SQUOTE)
    (subst TAB "    "
       (subst CR (chr BACKSLASH ++ "r")
          (subst LF (chr BACKSLASH ++ "n")
             (subst BACKSLASH (chr BACKSLASH ++ chr BACKSLASH) line)))).
Proof.
  unfold escape_line, SUBSTITUTES. cbn [fold_left fst snd].
  now rewrite !replace_chr.
Qed.

(** Applying the table entry after entry escapes every character once. *)
Lemma escape_line_chars (line : string) : escape_line line = escape_chars line.
Proof.
  rewrite escape_line_unfold.
  induction line as [|c t IH]; [reflexivity|].
  cbn [subst escape_chars]. rewrite !subst_append, IH. f_equal.
  destruct c as [[] [] [] [] [] [] [] []]; reflexivity.
Qed.

Lemma lacks_append (c : ascii) (a b : string) :
  lacks c (a ++ b) = lacks c a && lacks c b.
Proof.
  induction a as [|x a IH]; [reflexivity|].
  cbn [append lacks]. now rewrite IH, andb_assoc.
Qed.

Lemma clean_append (a b : string) : clean (a ++ b) = clean a && clean b.
Proof.
  unfold clean. rewrite !lacks_append.
  destruct (lacks CR a), (lacks CR b), (lacks LF a), (lacks LF b); reflexivity.
Qed.

Lemma clean_str_of_bool (b : bool) : clean (str_of_bool b) = true.
Proof. now destruct b. Qed.

Lemma clean_string_of_uint (d : Decimal.uint) :
  clean (NilEmpty.string_of_uint d) = true.
Proof.
  induction d; cbn [NilEmpty.string_of_uint]; try reflexivity;
    change (String ?c ?s) with (chr c ++ s); rewrite clean_append, IHd;
    reflexivity.
Qed.

Lemma clean_str_of_int (n : Z) : clean (str_of_int n) = true.
Proof.
  unfold str_of_int. destruct (Z.to_int n) as [d|d]; cbn [NilEmpty.string_of_int].
  - apply clean_string_of_uint.
  - change (String ?c ?s) with (chr c ++ s). rewrite clean_append.
    now rewrite clean_string_of_uint.
Qed.

Lemma clean_quoted (a : string) : clean a = true -> clean (quoted a) = true.
Proof. intros H. unfold quoted. now rewrite !clean_append, H. Qed.

Lemma clean_argv_to_str (argv : list string) :
  Forall (fun a => clean a = true) argv -> clean (argv_to_str argv) = true.
Proof.
  induction 1 as [|a rest Ha Hrest IH]; [reflexivity|].
  cbn [argv_to_str]. rewrite !clean_append, (clean_quoted a Ha), IH.
  now destruct rest.
Qed.

Lemma clean_escape_line (line : string) : clean (escape_line line) = true.
Proof.
  rewrite escape_line_chars.
  induction line as [|c t IH]; [reflexivity|].
  cbn [escape_chars]. rewrite clean_append, IH, andb_true_r.
  destruct c as [[] [] [] [] [] [] [] []]; reflexivity.
Qed.

Lemma append_chr_inj (a b : string) (c d : ascii) :
  a ++ chr c = b ++ chr d -> a = b /\ c = d.
Proof.
  revert b. induction a as [|x a IH]; intros [|y b] H; cbn [append chr] in H.
  - now injection H.
  - injection H as _ H. destruct b; discriminate.
  - injection H as _ H. destruct a; discriminate.
  - injection H as -> H. destruct (IH b H) as [-> ->]. now split.
Qed.

Lemma endswith_spec (p s : string) :
  endswith p s = true <-> exists x, s = x ++ p.
Proof.
  split.
  - induction s as [|c t IH]; cbn [endswith]; intros H.
    + rewrite orb_false_r in H. apply String.eqb_eq in H. now exists "".
    + apply orb_true_iff in H as [H|H].
      * apply String.eqb_eq in H. now exists "".
      * destruct (IH H) as [x ->]. now exists (String c x).
  - intros [x ->]. induction x as [|c x IH].
    + destruct p; cbn [append endswith]; now rewrite String.eqb_refl.
    + cbn [append endswith]. rewrite IH. apply orb_true_r.
Qed.

(** A statement closed by a parenthesis and one CRLF is not followed by a
    blank line. *)
Lemma no_blank_line (body : string) :
  endswith (CRLF ++ CRLF) (body ++ ")" ++ CRLF) = false.
Proof.
  destruct (endswith (CRLF ++ CRLF) (body ++ ")" ++ CRLF)) eqn:E; [|reflexivity].
  apply endswith_spec in E as [x Hx].
  change (body ++ ")" ++ CRLF)
    with (body ++ chr ")" ++ chr CR ++ chr LF) in Hx.
  change (x ++ CRLF ++ CRLF)
    with (x ++ chr CR ++ chr LF ++ chr CR ++ chr LF) in Hx.
  rewrite <- !append_assoc in Hx.
  apply append_chr_inj in Hx as [Hx _].
  apply append_chr_inj in Hx as [Hx _].
  apply append_chr_inj in Hx as [_ Hx]. discriminate.
Qed.

Lemma one_line_intro (body : string) :
  clean body = true -> one_line (body ++ ")" ++ CRLF).
Proof. intros H. now exists body. Qed.

Lemma shape_intro (texts : list string) (stmt body : string) :
  stmt = body ++ ")" ++ CRLF ->
  (Forall (fun a => clean a = true) texts -> clean body = true) ->
  (exists body, stmt = body ++ ")" ++ CRLF)
  /\ endswith (CRLF ++ CRLF) stmt = false
  /\ (Forall (fun a => clean a = true) texts -> one_line stmt).
Proof.
  intros -> Hc. split; [now exists body|]. split; [apply no_blank_line|].
  intros H. apply one_line_intro. now apply Hc.
Qed.

Lemma clean_default_args (args : list string) :
  Forall (fun a => clean a = true) args ->
  Forall (fun a => clean a = true)
         (match args with [] => ["."] | _ :: _ => args end).
Proof. intros H. destruct args; [repeat constructor | exact H]. Qed.

(** Claim C4, as amended.  Every statement that [cat], [du], [ls],
    [sysinfo], [restore], the [is_dir] probe and the file transfer (open,
    write, close) hand to [serial_write] ends with a closing parenthesis and
    one CRLF; none of them ends with CRLF CRLF, so no blank line follows.
    The texts of the user go in unescaped: when they hold neither CR nor LF
    (always so for the write statements, whose line is escaped), the
    statement holds no CR and no LF before its final CRLF. *)
Theorem remote_statement_shape (texts : list string) (stmt : string) :
  produced texts stmt ->
  (exists body, stmt = body ++ ")" ++ CRLF)
  /\ endswith (CRLF ++ CRLF) stmt = false
  /\ (Forall (fun a => clean a = true) texts -> one_line stmt).
Proof.
  intros [argv|args d h|args h l r|query| |dest|dest|line| ].
  - apply (shape_intro _ _ ("cat(" ++ argv_to_str argv)).
    + unfold cat_stmt. now rewrite !append_assoc.
    + intros H. now rewrite clean_append, (clean_argv_to_str _ H).
  - apply (shape_intro _ _ ("du(" ++ argv_to_str (match args with [] => ["."] | _ :: _ => args end)
                    ++ ", max_depth=" ++ str_of_int d
                    ++ ", human_readable=" ++ str_of_bool h)).
    + unfold du_stmt. cbv zeta. now rewrite !append_assoc.
    + intros H. rewrite !clean_append, (clean_argv_to_str _ (clean_default_args _ H)).
      now rewrite clean_str_of_int, clean_str_of_bool.
  - apply (shape_intro _ _ ("ls(" ++ argv_to_str (match args with [] => ["."] | _ :: _ => args end)
                    ++ ", human_readable=" ++ str_of_bool h
                    ++ ", list_format=" ++ str_of_bool l
                    ++ ", rec=" ++ str_of_bool r)).
    + unfold ls_stmt. cbv zeta. now rewrite !append_assoc.
    + intros H. rewrite !clean_append, (clean_argv_to_str _ (clean_default_args _ H)).
      now rewrite !clean_str_of_bool.
  - apply (shape_intro _ _ ("sysinfo(query=" ++ quoted query)).
    + unfold sysinfo_stmt. now rewrite !append_assoc.
    + intros H. inversion H; subst. now rewrite clean_append, clean_quoted.
  - apply (shape_intro _ _ "restore("); [reflexivity | reflexivity].
  - apply (shape_intro _ _ ("is_dir(" ++ quoted dest)).
    + unfold is_dir_stmt. now rewrite !append_assoc.
    + intros H. inversion H; subst. now rewrite clean_append, clean_quoted.
  - apply (shape_intro _ _ ("fd = open(" ++ quoted dest ++ ", " ++ quoted "w")).
    + unfold fopen_stmt. now rewrite !append_assoc.
    + intros H. inversion H; subst. now rewrite !clean_append, clean_quoted.
  - apply (shape_intro _ _ ("fd.write(" ++ chr SQUOTE ++ escape_line line ++ chr SQUOTE
                    ++ ".encode(" ++ quoted "utf-8" ++ ")")).
    + unfold fwrite_stmt. now rewrite !append_assoc.
    + intros _. now rewrite !clean_append, clean_escape_line.
  - apply (shape_intro _ _ "fd.close("); [reflexivity | reflexivity].
Qed.

(** The amended claim C4 at [cat boot.py main.py]. *)
Lemma remote_statement_shape_witness :
  (exists body, cat_stmt ["boot.py"; "main.py"] = body ++ ")" ++ CRLF)
  /\ endswith (CRLF ++ CRLF) (cat_stmt ["boot.py"; "main.py"]) = false
  /\ (Forall (fun a => clean a = true) ["boot.py"; "main.py"] ->
      one_line (cat_stmt ["boot.py"; "main.py"])).
Proof.
  apply (remote_statement_shape ["boot.py"; "main.py"]). apply by_cat.
Defined.

(** Claim C4 as stated fails: the statement of [cat boot.py] ends with one
    CRLF, not with CRLF CRLF; an argument that holds a CRLF puts a
    terminator in the middle of the statement; only the probe of the
    constructor (lines 181-184) is followed by a blank line. *)
Lemma cat_stmt_no_blank_line :
  cat_stmt ["boot.py"] = "cat(" ++ quoted "boot.py" ++ ")" ++ CRLF
  /\ endswith (CRLF ++ CRLF) (cat_stmt ["boot.py"]) = false
  /\ endswith CRLF (cat_stmt ["boot.py"]) = true
  /\ contains CRLF (cat_stmt ["a" ++ CRLF ++ "b"; "c"]) = true
  /\ cut CRLF (cat_stmt ["a" ++ CRLF ++ "b"; "c"])
     = Some ("cat(" ++ chr DQUOTE ++ "a",
             "b" ++ chr DQUOTE ++ ", " ++ quoted "c" ++ ")" ++ CRLF)
  /\ endswith (CRLF ++ CRLF) stat_probe_stmt = true.
Proof. repeat split; reflexivity. Qed.

(** Claim C5, as amended.  A backslash followed by a line feed escapes to
    four characters: backslash backslash (the escaped backslash), then
    backslash [n] (the escaped line feed); that is each character escaped
    once.  Applying the table in the opposite order, the line feed first,
    would escape the backslash of [\n] again and give four backslashes
    before the [n]. *)
Theorem escape_line_backslash_newline :
  escape_line (String BACKSLASH (String LF ""))
  = String BACKSLASH (String BACKSLASH (String BACKSLASH (String "n" "")))
  /\ escape_line (String BACKSLASH (String LF ""))
     = escape_char BACKSLASH ++ escape_char LF
  /\ fold_left (fun line kv => replace (fst kv) (snd kv) line)
               (rev SUBSTITUTES) (String BACKSLASH (String LF ""))
     = String BACKSLASH (String BACKSLASH (String BACKSLASH
         (String BACKSLASH (String "n" "")))).
Proof. repeat split; reflexivity. Qed.

(** Claim C5 as stated fails: the result has four characters, it is not the
    three-character text backslash backslash [n]. *)
Lemma escape_line_three_backslashes :
  String.length (escape_line (String BACKSLASH (String LF ""))) = 4
  /\ escape_line (String BACKSLASH (String LF ""))
     <> String BACKSLASH (String BACKSLASH (String "n" "")).
Proof. split; [reflexivity | discriminate]. Qed.

End EscapeFacts.

(** ** File transfer *)

Module CopyFacts.
  Import PyStrFacts upy_serial_cli.
  Local Arguments Ascii.eqb : simpl never.

Section TransferFacts.
Variable fs : string -> list string + pyexn.
Variable realpath : string -> string.
Variable DEFAULT_PATH : string.

Lemma serial_fwrite_ok (src dest : string) (lines : list string) :
  fs src = inl lines ->
  serial_fwrite fs src dest = (map EvStmt (transfer dest lines), Return tt).
Proof.
  intros H. unfold serial_fwrite, transfer. rewrite H. f_equal.
  cbn [map]. f_equal. now rewrite map_app, map_map.
Qed.

Lemma error_not_return {A : Type} (e : pyexn) (v : A) : error e <> Return v.
Proof. unfold error. destruct (has_errno e); discriminate. Qed.

Lemma stmts_are_stmts (stmts : list string) :
  forallb is_stmt (map EvStmt stmts) = true.
Proof. induction stmts as [|s l IH]; [reflexivity | exact IH]. Qed.

Lemma serial_fwrite_events (src dest : string) :
  forallb is_stmt (fst (serial_fwrite fs src dest)) = true.
Proof.
  unfold serial_fwrite. destruct (fs src) as [lines|e]; [|reflexivity].
  cbn [fst forallb is_stmt andb]. rewrite forallb_app.
  rewrite <- (map_map (fun line => fwrite_stmt (escape_line line)) EvStmt).
  now rewrite stmts_are_stmts.
Qed.

Lemma fwrite_into_events (dest : string) (srcs : list string) :
  forallb is_stmt (fst (fwrite_into fs dest srcs)) = true.
Proof.
  induction srcs as [|src rest IH]; [reflexivity|].
  cbn [fwrite_into].
  pose proof (serial_fwrite_events src (dest ++ "/" ++ basename src)) as H.
  destruct (serial_fwrite fs src (dest ++ "/" ++ basename src)) as [ev r].
  destruct r; try exact H.
  destruct (fwrite_into fs dest rest) as [ev' r'].
  cbn [fst] in *. now rewrite forallb_app, H, IH.
Qed.

Lemma stmts_not_bracket (events : list event) :
  forallb is_stmt events = true ->
  ~ In EvOpen events /\ ~ In EvClose events.
Proof.
  intros H. rewrite forallb_forall in H.
  split; intros Hin; apply H in Hin; discriminate.
Qed.

Lemma cp_checked_events (srcs : list string) (dest reply : string) :
  forall events r,
    cp_checked fs realpath srcs dest reply = (events, r) ->
    (exists e, r = Raised e)
    \/ exists stmts,
         events = ([EvOpen; EvStmt (is_dir_stmt dest); EvRead] ++ stmts)%list
         /\ forallb is_stmt stmts = true.
Proof.
  intros events r. unfold cp_checked.
  destruct (String.eqb (strip dest) "");
    [intros [= _ <-]; left; eexists; reflexivity|].
  destruct (extract_results reply) as [payload|code msg|e].
  - set (srcs' := dedup realpath srcs).
    assert (H : forall body : list event * outcome unit,
               forallb is_stmt (fst body) = true ->
               (let '(ev, r0) := body in
                (([EvOpen; EvStmt (is_dir_stmt dest); EvRead] ++ ev)%list, r0))
               = (events, r) ->
               (exists e, r = Raised e)
               \/ exists stmts,
                    events = ([EvOpen; EvStmt (is_dir_stmt dest); EvRead] ++ stmts)%list
                    /\ forallb is_stmt stmts = true).
    { intros [ev r0] Hev [= <- _]. right. now exists ev. }
    cbv zeta. apply H.
    destruct (String.eqb (strip payload) "TRUE"); [apply fwrite_into_events|].
    destruct (String.eqb (strip payload) "FALSE");
      destruct srcs' as [|src [|src2 rest]]; try reflexivity;
      apply serial_fwrite_events.
  - intros [= <- _]. right. now exists [].
  - intros [= <- _]. right. now exists [].
Qed.

(** Whenever [cp] comes back, the connection was opened once and closed
    once, around everything that was sent. *)
Lemma cp_one_bracket (srcs : list string) (dest reply : string) :
  forall events,
    cp_local_to_serial fs realpath DEFAULT_PATH srcs dest reply
    = (events, Return tt) ->
    one_bracket events.
Proof.
  intros events. unfold cp_local_to_serial.
  destruct (match srcs with
            | [src] => String.eqb src (DEFAULT_PATH ++ "/" ++ CLI_MOD)
                       && String.eqb dest CLI_MOD
            | _ => false
            end).
  - pose proof (serial_fwrite_events (hd "" srcs) dest) as Hev.
    destruct (serial_fwrite fs (hd "" srcs) dest) as [ev r].
    destruct r; intros H; try discriminate. injection H as <-.
    exists ev. split; [reflexivity|].
    now apply stmts_not_bracket.
  - unfold guarded.
    destruct (cp_checked fs realpath srcs dest reply) as [ev r] eqn:E.
    intros H. injection H as <- Hr.
    destruct (cp_checked_events _ _ _ _ _ E) as [[e ->]|(stmts & -> & Hs)].
    + now apply error_not_return in Hr.
    + exists ([EvStmt (is_dir_stmt dest); EvRead] ++ stmts)%list.
      split; [reflexivity|].
      apply stmts_not_bracket in Hs as [H1 H2].
      split; intros Hin; cbn [app In] in Hin;
        destruct Hin as [Hin|[Hin|Hin]]; try discriminate; tauto.
Qed.

(** Claim C6.  For a source of [n] lines [serial_fwrite] hands [n + 2]
    statements to [serial_write]: first the one that opens [dest] for
    writing, then for the [i]-th line the one that writes its escaped text
    encoded as bytes, last the one that closes the handle.  Whenever [cp]
    returns, the connection was opened once, before everything, and closed
    once, after everything; for one source and a destination that the probe
    does not report as a directory the trace is: open, probe, read, the
    [n + 2] statements, close. *)
Theorem serial_fwrite_statements (src dest : string) (lines : list string) :
  fs src = inl lines ->
  serial_fwrite fs src dest = (map EvStmt (transfer dest lines), Return tt)
  /\ hd_error (transfer dest lines) = Some (fopen_stmt dest)
  /\ (forall i line,
        nth_error lines i = Some line ->
        nth_error (transfer dest lines) (S i)
        = Some (fwrite_stmt (escape_line line)))
  /\ nth_error (transfer dest lines) (S (List.length lines))
     = Some fclose_stmt
  /\ List.length (transfer dest lines) = List.length lines + 2
  /\ (forall srcs dest' reply events,
        cp_local_to_serial fs realpath DEFAULT_PATH srcs dest' reply
        = (events, Return tt) ->
        one_bracket events)
  /\ (forall reply payload,
        strip dest <> "" ->
        dest <> CLI_MOD ->
        realpath src = src ->
        extract_results reply = Return payload ->
        strip payload <> "TRUE" ->
        cp_local_to_serial fs realpath DEFAULT_PATH [src] dest reply
        = ([EvOpen; EvStmt (is_dir_stmt dest); EvRead]
             ++ map EvStmt (transfer dest lines) ++ [EvClose],
           Return tt)%list).
Proof.
  intros Hfs. split; [now apply serial_fwrite_ok|].
  split; [reflexivity|].
  split.
  { intros i line Hi. unfold transfer. cbn [nth_error].
    rewrite nth_error_app1 by (rewrite length_map; apply nth_error_Some; congruence).
    now rewrite nth_error_map, Hi. }
  split.
  { unfold transfer. cbn [nth_error].
    rewrite nth_error_app2 by (rewrite length_map; lia).
    rewrite length_map, Nat.sub_diag. reflexivity. }
  split.
  { unfold transfer. cbn [List.length]. rewrite length_app, length_map.
    cbn [List.length]. lia. }
  split; [intros; eapply cp_one_bracket; eassumption|].
  intros reply payload Hd Hcli Hreal Hex Hnot.
  unfold cp_local_to_serial.
  assert (Hdir : String.eqb src (DEFAULT_PATH ++ "/" ++ CLI_MOD)
                 && String.eqb dest CLI_MOD = false).
  { apply String.eqb_neq in Hcli. rewrite Hcli. apply andb_false_r. }
  rewrite Hdir. unfold guarded, cp_checked.
  apply String.eqb_neq in Hd. rewrite Hd, Hex.
  apply String.eqb_neq in Hnot. rewrite Hnot.
  unfold dedup. cbn [fold_left mem existsb]. rewrite Hreal. cbn [app].
  rewrite (serial_fwrite_ok src dest lines Hfs).
  destruct (String.eqb (strip payload) "FALSE"); reflexivity.
Qed.

End TransferFacts.

(** Claim C6 at a file of three lines copied to a new destination. *)
Lemma serial_fwrite_statements_witness :
  List.length (transfer "main.py" ["import a" ++ chr LF; chr TAB ++ "x = 'y'" ++ chr LF; "z"]) = 5
  /\ cp_local_to_serial ex_fs (fun p => p) "/home/user"
       ["/home/user/main.py"] "main.py" ex_probe_reply
     = ([EvOpen; EvStmt (is_dir_stmt "main.py"); EvRead;
         EvStmt (fopen_stmt "main.py");
         EvStmt (fwrite_stmt "import a\n");
         EvStmt (fwrite_stmt "    x = \'y\'\n");
         EvStmt (fwrite_stmt "z");
         EvStmt fclose_stmt;
         EvClose], Return tt).
Proof.
  destruct (serial_fwrite_statements ex_fs (fun p => p) "/home/user"
              "/home/user/main.py" "main.py"
              ["import a" ++ chr LF; chr TAB ++ "x = 'y'" ++ chr LF; "z"]
              eq_refl)
    as (_ & _ & _ & _ & Hlen & _ & Hcp).
  split; [exact Hlen|].
  rewrite (Hcp ex_probe_reply (chr LF ++ "FALSE" ++ chr LF));
    [reflexivity | discriminate | discriminate | reflexivity | reflexivity
     | discriminate].
Defined.

End CopyFacts.

(** ** Chunked write *)

Module WriteFacts.
  Import PyStrFacts upy_serial_cli.
  Local Arguments Ascii.eqb : simpl never.

Lemma drop_nil (n : nat) : drop n "" = "".
Proof. now destruct n. Qed.

Lemma substring_drop (off n : nat) (s : string) :
  substring off n s = substring 0 n (drop off s).
Proof.
  revert s. induction off as [|off IH]; intros s; [reflexivity|].
  destruct s as [|c t]; [now destruct n|]. cbn [substring drop]. apply IH.
Qed.

Lemma take_drop (n : nat) (s : string) : substring 0 n s ++ drop n s = s.
Proof.
  revert s. induction n as [|n IH]; intros s.
  - now destruct s.
  - destruct s as [|c t]; [reflexivity|]. cbn [substring drop append].
    now rewrite IH.
Qed.

Lemma drop_drop (m n : nat) (s : string) : drop n (drop m s) = drop (m + n) s.
Proof.
  revert s. induction m as [|m IH]; intros s; [reflexivity|].
  destruct s as [|c t]; [now rewrite !drop_nil|]. apply IH.
Qed.

Lemma length_drop (n : nat) (s : string) :
  String.length (drop n s) = String.length s - n.
Proof.
  revert s. induction n as [|n IH]; intros s; [cbn; lia|].
  destruct s as [|c t]; [reflexivity|]. cbn [drop String.length]. now rewrite IH.
Qed.

Lemma length_take (n : nat) (s : string) :
  String.length (substring 0 n s) = Nat.min n (String.length s).
Proof.
  revert s. induction n as [|n IH]; intros s; [now destruct s|].
  destruct s as [|c t]; [reflexivity|]. cbn [substring String.length].
  now rewrite IH.
Qed.

Lemma take_all (n : nat) (s : string) :
  String.length s <= n -> substring 0 n s = s.
Proof.
  revert s. induction n as [|n IH]; intros s H.
  - destruct s; [reflexivity | cbn in H; lia].
  - destruct s as [|c t]; [reflexivity|]. cbn [substring].
    rewrite IH; [reflexivity | cbn in H; lia].
Qed.

Lemma is_ascii_append (a b : string) :
  is_ascii (a ++ b) = is_ascii a && is_ascii b.
Proof.
  induction a as [|c a IH]; [reflexivity|].
  cbn [append is_ascii]. now rewrite IH, andb_assoc.
Qed.

Lemma is_ascii_drop (n : nat) (s : string) :
  is_ascii s = true -> is_ascii (drop n s) = true.
Proof.
  intros H. rewrite <- (take_drop n s), is_ascii_append in H.
  now apply andb_true_iff in H.
Qed.

Lemma is_ascii_take (n : nat) (s : string) :
  is_ascii s = true -> is_ascii (substring 0 n s) = true.
Proof.
  intros H. rewrite <- (take_drop n s), is_ascii_append in H.
  now apply andb_true_iff in H.
Qed.

Lemma encode_utf8_append (a b : string) :
  encode_utf8 (a ++ b) = (encode_utf8 a ++ encode_utf8 b)%list.
Proof.
  induction a as [|c a IH]; [reflexivity|].
  cbn [append encode_utf8]. now rewrite IH, app_assoc.
Qed.

(** Below U+0080 a character is one byte. *)
Lemma length_encode_ascii (s : string) :
  is_ascii s = true -> List.length (encode_utf8 s) = String.length s.
Proof.
  induction s as [|c t IH]; [reflexivity|].
  cbn [is_ascii encode_utf8 String.length]. intros H.
  apply andb_true_iff in H as [Hc Ht]. unfold utf8_char. rewrite Hc.
  cbn [app List.length]. now rewrite IH.
Qed.

Section ChunkedWrite.
Variable buf : string.
Variable t_wait : Q.
Hypothesis buf_ascii : is_ascii buf = true.

Let pace : list tx :=
  if negb (Qle_bool t_wait 0) then [Sleep t_wait] else [].

Lemma transmitted_pace (log : list tx) :
  transmitted (pace ++ log) = transmitted log.
Proof. unfold pace. now destruct (negb (Qle_bool t_wait 0)). Qed.

Lemma chunks_pace (log : list tx) : chunks (pace ++ log) = chunks log.
Proof. unfold pace. now destruct (negb (Qle_bool t_wait 0)). Qed.

(** From any offset, with one round more than there are full chunks
    left, the loop ends, and what it sent is the rest of the buffer. *)
Lemma serial_write_loop_ascii (fuel : nat) :
  forall offset,
    (String.length buf - offset) / DEFAULT_SER_WRBUF_SIZE < fuel ->
    exists log,
      serial_write_loop blocking_write buf t_wait fuel offset
                        (offset + DEFAULT_SER_WRBUF_SIZE) = Some log
      /\ transmitted log = encode_utf8 (drop offset buf)
      /\ List.length (chunks log)
         = S ((String.length buf - offset) / DEFAULT_SER_WRBUF_SIZE)
      /\ List.length (last (chunks log) [])
         = (String.length buf - offset) mod DEFAULT_SER_WRBUF_SIZE
      /\ (negb (Qle_bool t_wait 0) = true -> paced t_wait log).
Proof.
  induction fuel as [|fuel IH]; intros offset Hfuel; [lia|].
  cbn [serial_write_loop]. fold pace.
  unfold slice. replace (offset + DEFAULT_SER_WRBUF_SIZE - offset)
    with DEFAULT_SER_WRBUF_SIZE by lia.
  rewrite substring_drop.
  set (rest := drop offset buf).
  set (chunk := substring 0 DEFAULT_SER_WRBUF_SIZE rest).
  assert (Hrest : String.length rest = String.length buf - offset)
    by apply length_drop.
  assert (Hlen : blocking_write (encode_utf8 chunk)
                 = Nat.min DEFAULT_SER_WRBUF_SIZE (String.length rest)).
  { unfold blocking_write, chunk.
    rewrite length_encode_ascii by now apply is_ascii_take, is_ascii_drop.
    apply length_take. }
  rewrite Hlen.
  destruct (Nat.leb DEFAULT_SER_WRBUF_SIZE (String.length rest)) eqn:Efull.
  - apply Nat.leb_le in Efull.
    rewrite Nat.min_l by assumption. rewrite Nat.eqb_refl.
    assert (Hdiv : (String.length buf - offset) / DEFAULT_SER_WRBUF_SIZE
                   = S ((String.length buf - (offset + DEFAULT_SER_WRBUF_SIZE))
                        / DEFAULT_SER_WRBUF_SIZE)).
    { replace (String.length buf - offset)
        with (1 * DEFAULT_SER_WRBUF_SIZE
              + (String.length buf - (offset + DEFAULT_SER_WRBUF_SIZE))) by lia.
      rewrite Nat.div_add_l by discriminate. reflexivity. }
    destruct (IH (offset + DEFAULT_SER_WRBUF_SIZE)) as (log & Hl & Ht & Hn & Hs & Hp);
      [lia|].
    rewrite Hl. cbn [option_map]. eexists. split; [reflexivity|].
    split; [|split; [|split]].
    + cbn [transmitted]. rewrite transmitted_pace, Ht.
      rewrite <- encode_utf8_append. f_equal. unfold chunk, rest.
      rewrite <- (drop_drop offset DEFAULT_SER_WRBUF_SIZE buf).
      apply take_drop.
    + cbn [chunks List.length]. rewrite chunks_pace, Hn. now rewrite Hdiv.
    + cbn [chunks]. rewrite chunks_pace.
      destruct (chunks log) as [|c l] eqn:Ec; [discriminate|].
      change (last (encode_utf8 chunk :: c :: l) []) with (last (c :: l) []).
      rewrite Hs.
      replace (String.length buf - offset)
        with ((String.length buf - (offset + DEFAULT_SER_WRBUF_SIZE))
              + 1 * DEFAULT_SER_WRBUF_SIZE) by lia.
      now rewrite Nat.Div0.mod_add.
    + intros Hpos. unfold paced. cbn [chunks]. rewrite chunks_pace.
      cbn [flat_map app]. rewrite <- (Hp Hpos). unfold pace. now rewrite Hpos.
  - apply Nat.leb_gt in Efull.
    rewrite Nat.min_r by lia.
    assert (Hne : (String.length rest =? DEFAULT_SER_WRBUF_SIZE)%nat = false)
      by (apply Nat.eqb_neq; lia).
    rewrite Hne. eexists. split; [reflexivity|].
    assert (Hall : chunk = rest) by (apply take_all; lia).
    split; [|split; [|split]].
    + cbn [transmitted]. rewrite <- (app_nil_r pace), transmitted_pace.
      cbn [transmitted]. now rewrite app_nil_r, Hall.
    + cbn [chunks]. rewrite <- (app_nil_r pace), chunks_pace.
      cbn [chunks List.length]. rewrite <- Hrest.
      now rewrite Nat.div_small by assumption.
    + cbn [chunks]. rewrite <- (app_nil_r pace), chunks_pace.
      cbn [chunks last]. rewrite Hall.
      rewrite length_encode_ascii by now apply is_ascii_drop.
      rewrite Hrest. symmetry. apply Nat.mod_small. lia.
    + intros Hpos. unfold paced, pace. now rewrite Hpos.
Qed.

End ChunkedWrite.

(** A buffer of characters below U+0080 whose length is a multiple of the
    chunk size goes out whole: [k] full chunks, then an empty one that ends
    the loop, each followed by the pause. *)
(** What holds of claim C3: the case of a buffer of one-byte characters. *)
Theorem serial_write_ascii_multiple (buf : string) (k : nat) :
  is_ascii buf = true ->
  String.length buf = k * DEFAULT_SER_WRBUF_SIZE ->
  exists log,
    serial_write blocking_write buf None (S k) = Some log
    /\ transmitted log = encode_utf8 buf
    /\ List.length (chunks log) = S k
    /\ last (chunks log) [] = []
    /\ paced DEFAULT_WAIT log.
Proof.
  intros Hascii Hlen. unfold serial_write.
  destruct (serial_write_loop_ascii buf DEFAULT_WAIT Hascii (S k) 0)
    as (log & Hl & Ht & Hn & Hs & Hp).
  { rewrite Nat.sub_0_r, Hlen, Nat.div_mul by discriminate. lia. }
  exists log. rewrite Nat.sub_0_r, Hlen, Nat.div_mul in Hn by discriminate.
  split; [exact Hl|]. split; [exact Ht|]. split; [exact Hn|].
  split; [|now apply Hp].
  rewrite Nat.sub_0_r, Hlen, Nat.Div0.mod_mul in Hs.
  now destruct (last (chunks log) []).
Qed.

Lemma serial_write_ascii_multiple_witness :
  exists log,
    serial_write blocking_write (repeat_char 512 "a"%char) None 3 = Some log
    /\ transmitted log = encode_utf8 (repeat_char 512 "a"%char)
    /\ List.length (chunks log) = 3
    /\ last (chunks log) [] = []
    /\ paced DEFAULT_WAIT log.
Proof.
  apply (serial_write_ascii_multiple (repeat_char 512 "a"%char) 2);
    vm_compute; reflexivity.
Defined.

(** The statement that writes a line of 241 two-byte characters is 512
    bytes long; the first 256 characters make 497 bytes, the loop takes
    that for a short write and stops, and the last 15 characters are never
    sent. *)
(** Claim C3 fails on the code.  [buf[offset:end]] counts characters, the
    value that [write] returns counts bytes. *)
Theorem serial_write_multibyte_stops :
  List.length (encode_utf8 ex_accents_stmt) = 2 * DEFAULT_SER_WRBUF_SIZE
  /\ (forall fuel,
        serial_write blocking_write ex_accents_stmt None (S fuel)
        = Some [Tx (encode_utf8 (slice ex_accents_stmt 0 256));
                Sleep DEFAULT_WAIT])
  /\ List.length (encode_utf8 (slice ex_accents_stmt 0 256)) = 497
  /\ slice ex_accents_stmt 256 271 = "ode(" ++ quoted "utf-8" ++ "))" ++ CRLF.
Proof.
  split; [vm_compute; reflexivity|].
  split; [intros fuel; vm_compute; reflexivity|].
  split; vm_compute; reflexivity.
Qed.

End WriteFacts.

(** ** [human_readable] *)

Module HumanReadableFacts.
  Import cli_module.




Lemma kibi_pos (k : nat) : (0 < kibi k)%Q.
Proof.
  unfold kibi. change 0%Q with (inject_Z 0). rewrite <- Zlt_Qlt.
  apply Z.pow_pos_nonneg; lia.
Qed.

(** *** The nearest double *)







(** *** One round of the loop *)









(** *** The loop *)







Example human_readable_examples :
  human_readable 1023 = Some (Return "1023")
  /\ human_readable 1536 = Some (Return "1.5K")
  /\ human_readable (3 * 1024 ^ 3) = Some (Return "3G")
  /\ human_readable (1024 ^ 5 - 1) = Some (Return "1024.0T")
  /\ human_readable (1024 ^ 5)
     = Some (Raised (IndexError "list index out of range")).
Proof. repeat split; vm_compute; reflexivity. Qed.

End HumanReadableFacts.

(** ** Exit codes *)

Module ExitFacts.

Lemma exit_status_range (code : Z) : (0 <= exit_status code < 256)%Z.
Proof.
  unfold exit_status.
  destruct ((- 2 ^ 63 <=? code) && (code <? 2 ^ 63))%Z; [|lia].
  apply Z.mod_pos_bound. lia.
Qed.

(** [error] always ends the process: it neither returns nor raises, and
    the exit status lies between 0 and 255.  The status is that of success,
    0, exactly when the attribute [errno] is there and holds [None] or an
    integer whose low byte is 0, such as 256; it is 255 without the
    attribute, and the integer itself when [errno] holds one from 0 to
    255.  What goes to standard error before is the message, or the text
    of the exception, followed by two line feeds. *)
Theorem error_exit_codes (err : pyexn) :
  exists code,
    @error unit err
    = Exit code
        (print_line
           ((match exn_message err with Some m => m | None => exn_str err end)
            ++ chr LF))
    /\ (0 <= code < 256)%Z
    /\ (code = 0%Z <->
        exn_errno err = Some None
        \/ exists n, exn_errno err = Some (Some n)
                     /\ (- 2 ^ 63 <= n < 2 ^ 63)%Z /\ (n mod 256 = 0)%Z)
    /\ (exn_errno err = None -> code = EXIT_FAILURE)
    /\ (forall n,
          exn_errno err = Some (Some n) -> (0 <= n < 256)%Z -> code = n).
Proof.
  unfold error, has_errno, errno_of, sys_exit.
  destruct (exn_errno err) as [[n|]|] eqn:E.
  - exists (exit_status n). split; [reflexivity|].
    split; [apply exit_status_range|]. split; [|split].
    + unfold exit_status.
      destruct ((- 2 ^ 63 <=? n) && (n <? 2 ^ 63))%Z eqn:R.
      * apply andb_true_iff in R. destruct R as [R1 R2].
        apply Z.leb_le in R1. apply Z.ltb_lt in R2. split.
        -- intros H. right. exists n. repeat split; try assumption; lia.
        -- intros [H|(k & H & _ & Hk)]; [discriminate|].
           injection H as <-. exact Hk.
      * split; [discriminate|].
        intros [H|(k & H & Hr & _)]; [discriminate|].
        injection H as <-. exfalso.
        apply andb_false_iff in R. destruct R as [R|R].
        -- apply Z.leb_gt in R. lia.
        -- apply Z.ltb_ge in R. lia.
    + discriminate.
    + intros k H Hk. injection H as <-. unfold exit_status.
      replace ((- 2 ^ 63 <=? n) && (n <? 2 ^ 63))%Z with true.
      * apply Z.mod_small. exact Hk.
      * symmetry. apply andb_true_iff. split; [apply Z.leb_le | apply Z.ltb_lt]; lia.
  - exists 0%Z. split; [reflexivity|]. split; [lia|]. split; [|split].
    + split; [intros _; left; reflexivity | reflexivity].
    + discriminate.
    + discriminate.
  - exists (exit_status EXIT_FAILURE). split; [reflexivity|].
    split; [vm_compute; split; [discriminate | reflexivity]|]. split; [|split].
    + split; [intros H; vm_compute in H; discriminate|].
      intros [H|(k & H & _)]; discriminate.
    + reflexivity.
    + discriminate.
Qed.

(** Claim C8 fails on the code.  An exception whose attribute [errno] is
    there but holds [None] (pyserial's [SerialException] built from a text,
    which line 208 catches for [error]) passes the [hasattr] test of line
    34, and [sys.exit(None)] ends the process with status 0, the code of
    success; errors without a number are meant to give 255 (lines 17-21),
    as [ValueError] does, and those with a number give the number. *)
Theorem error_exit_code_without_number :
  has_errno (SerialException "read failed: device disconnected") = true
  /\ exit_code (@error unit (SerialException "read failed: device disconnected"))
     = Some 0%Z
  /\ exit_code upy_serial_cli.exit = Some 0%Z
  /\ exit_code (@error unit (ValueError "No results found")) = Some 255%Z
  /\ exit_code (@error unit (OSError 2 "No such file or directory")) = Some 2%Z.
Proof. repeat split; reflexivity. Qed.

End ExitFacts.

(** ** The functor decorator *)

Module FunctorFacts.
  Import boot cli_module.

(** Claim C9.  The first invocation of a functor-wrapped name runs the
    constructor on the arguments of the call and gives the instance back (or
    the exception of the constructor, leaving the cell empty); [__call__]
    runs from the invocation after a successful construction on, on the
    stored instance, with the arguments of that invocation.  For [sysinfo]
    a first call with the keyword [query] raises [TypeError], since
    [__init__] takes no argument; no query runs, and since the cell stays
    empty the same holds for every later call of that shape. *)
Theorem functor_first_call_constructs :
  (forall (Args Inst Res : Type) (cls : pyclass Args Inst Res) (args : Args),
      match construct cls args with
      | inl self =>
          functor cls None args = (Some self, RanInit args, GaveInstance self)
      | inr e => functor cls None args = (None, RanInit args, GaveRaise e)
      end)
  /\ (forall (Args Inst Res : Type) (cls : pyclass Args Inst Res)
             (self : Inst) (args : Args),
         functor cls (Some self) args
         = (Some self, RanCall self args,
            GaveResult (dunder_call cls self args)))
  /\ (forall (Args Inst Res : Type) (cls : pyclass Args Inst Res)
             (self : Inst) (first : Args) (later : list Args),
         construct cls first = inl self ->
         invocations cls None (first :: later)
         = (RanInit first, GaveInstance self)
             :: map (fun args => (RanCall self args,
                                  GaveResult (dunder_call cls self args)))
                    later)
  /\ (forall (un : list string) (stvfs : list Z) (q : pyval),
         let args := mk_args [] [("query", q)] in
         sysinfo un stvfs None args
         = (None, RanInit args,
            GaveRaise (TypeError "unexpected argument for __init__"))
         /\ forall n,
              invocations (sysinfo_class un stvfs) None (repeat args n)
              = repeat (RanInit args,
                        GaveRaise (TypeError "unexpected argument for __init__"))
                       n).
Proof.
  split; [|split; [|split]].
  - intros Args Inst Res cls args. unfold functor.
    now destruct (construct cls args).
  - reflexivity.
  - intros Args Inst Res cls self first later H.
    cbn [invocations]. unfold functor at 1. rewrite H. f_equal.
    induction later as [|a l IH]; [reflexivity|].
    cbn [invocations map functor]. now rewrite IH.
  - intros un stvfs q args. split; [reflexivity|].
    induction n as [|n IH]; [reflexivity|].
    cbn [repeat invocations]. now rewrite <- IH.
Qed.

End FunctorFacts.

(** ** Reading the reply *)

Module ReadFacts.
  Import PyStrFacts NormFacts SplitFacts ExtractFacts EscapeFacts upy_serial_cli.

Lemma serial_read_loop_full (full rest : list (list byte)) :
  Forall (fun buf => List.length buf = DEFAULT_SER_RDBUF_SIZE) full ->
  serial_read_loop (full ++ rest) = (full ++ serial_read_loop rest)%list.
Proof.
  induction 1 as [|buf full Hbuf _ IH]; [reflexivity|].
  cbn [serial_read_loop app]. rewrite Hbuf, Nat.eqb_refl, IH. reflexivity.
Qed.

(** [serial_read] reads buffers of 1000 bytes until one comes back with
    another length.  When the device answers with full buffers followed by
    a shorter one, the result is the full buffers and the short one, in
    order, and nothing that arrives after the short one is read.  When
    every buffer is full, one more read is made: the one that times out
    with no byte. *)
Theorem serial_read_stops_at_short_read
    (full : list (list byte)) (short : list byte) (later : list (list byte)) :
  Forall (fun buf => List.length buf = DEFAULT_SER_RDBUF_SIZE) full ->
  List.length short <> DEFAULT_SER_RDBUF_SIZE ->
  serial_read_loop (full ++ short :: later) = (full ++ [short])%list
  /\ serial_read_bytes (full ++ short :: later) = (concat full ++ short)%list
  /\ serial_read_loop full = (full ++ [[]])%list
  /\ serial_read_bytes full = concat full.
Proof.
  intros Hfull Hshort.
  assert (H1 : serial_read_loop (full ++ short :: later) = (full ++ [short])%list).
  { rewrite serial_read_loop_full by assumption.
    cbn [serial_read_loop]. apply Nat.eqb_neq in Hshort. rewrite Hshort. reflexivity. }
  assert (H2 : serial_read_loop full = (full ++ [[]])%list).
  { rewrite <- (app_nil_r full) at 1. rewrite serial_read_loop_full by assumption.
    reflexivity. }
  unfold serial_read_bytes. rewrite H1, H2, !concat_app. cbn [concat].
  rewrite !app_nil_r. repeat split.
Qed.

Lemma serial_read_stops_at_short_read_witness :
  serial_read_loop ([repeat "a"%byte 1000] ++ [ "b"%byte ] :: [[ "c"%byte ]])
  = ([repeat "a"%byte 1000] ++ [[ "b"%byte ]])%list.
Proof.
  refine (proj1 (serial_read_stops_at_short_read [repeat "a"%byte 1000] ["b"%byte] [["c"%byte]] _ _)).
  - constructor; [vm_compute; reflexivity | constructor].
  - vm_compute. discriminate.
Defined.

End ReadFacts.

(** ** Deduplication of the sources *)

Module DedupFacts.
  Import PyStrFacts NormFacts SplitFacts ExtractFacts EscapeFacts upy_serial_cli.

Lemma mem_In (x : string) (l : list string) : mem x l = true <-> In x l.
Proof.
  unfold mem. rewrite existsb_exists. split.
  - intros [y [Hy Heq]]. apply String.eqb_eq in Heq. subst. assumption.
  - intros H. exists x. split; [assumption | apply String.eqb_refl].
Qed.

Section Dedup.
Variable realpath : string -> string.

Let step (result : list string) (p : string) : list string :=
  let p := realpath p in
  if mem p result then result else (result ++ [p])%list.

Lemma dedup_acc (l : list string) :
  forall acc,
    NoDup acc ->
    NoDup (fold_left step l acc)
    /\ (forall x, In x (fold_left step l acc) <-> In x acc \/ In x (map realpath l))
    /\ (NoDup (acc ++ map realpath l) -> fold_left step l acc = (acc ++ map realpath l)%list).
Proof.
  induction l as [|p l IH]; intros acc Hacc; cbn [fold_left map].
  - rewrite app_nil_r. repeat split; auto. intros [H|[]]; exact H.
  - assert (Hstep : NoDup (step acc p)
                    /\ (forall x, In x (step acc p) <-> In x acc \/ x = realpath p)).
    { unfold step. destruct (mem (realpath p) acc) eqn:Hm.
      - split; [assumption|]. intros x. split; [auto|].
        intros [H|H]; [assumption|]. subst. apply mem_In. assumption.
      - split.
        + apply NoDup_app; [assumption | repeat constructor; intros [] |].
          intros x Hx [Heq|[]]. subst.
          apply mem_In in Hx. rewrite Hx in Hm. discriminate.
        + intros x. rewrite in_app_iff. cbn. intuition. }
    destruct Hstep as [Hnd Hin].
    destruct (IH _ Hnd) as [IH1 [IH2 IH3]].
    split; [assumption|]. split.
    + intros x. rewrite IH2, Hin. cbn. intuition.
    + intros Hall.
      assert (Hm : mem (realpath p) acc = false).
      { destruct (mem (realpath p) acc) eqn:Hm; [|reflexivity].
        apply mem_In in Hm. apply NoDup_remove_2 in Hall.
        exfalso. apply Hall. apply in_or_app. left. assumption. }
      assert (Hs : step acc p = (acc ++ [realpath p])%list).
      { unfold step. rewrite Hm. reflexivity. }
      rewrite Hs in IH3 |- *. rewrite IH3; rewrite <- app_assoc; [reflexivity|exact Hall].
Qed.

(** [dedup] gives the real paths of its arguments, each once: no path is
    repeated, a path is in the result exactly when it is the real path of
    an argument, and arguments whose real paths are distinct come back
    unchanged in number and order. *)
Theorem dedup_distinct_realpaths (pathes : list string) :
  NoDup (dedup realpath pathes)
  /\ (forall p, In p (dedup realpath pathes) <-> In p (map realpath pathes))
  /\ (NoDup (map realpath pathes) -> dedup realpath pathes = map realpath pathes).
Proof.
  destruct (dedup_acc pathes [] (NoDup_nil _)) as [H1 [H2 H3]].
  split; [exact H1|]. split; [|exact H3].
  intros p. split; intros H.
  - destruct (proj1 (H2 p) H) as [[]|H']; exact H'.
  - apply (proj2 (H2 p)). right. exact H.
Qed.

End Dedup.

End DedupFacts.

(** ** Argument lists *)

Module JoinFacts.
  Import PyStrFacts NormFacts SplitFacts ExtractFacts EscapeFacts upy_serial_cli.

Local Arguments Ascii.eqb : simpl never.

(** A piece [p] is cut off whole when the separator cannot start inside
    it. *)
Lemma cut_lacks_head (c : ascii) (m p b : string) :
  lacks c p = true ->
  cut (String c m) (p ++ String c m ++ b) = Some (p, b).
Proof.
  induction p as [|x p IH]; intros Hp.
  - exact (cut_here (String c m) b).
  - cbn [lacks] in Hp. apply andb_true_iff in Hp. destruct Hp as [Hx Hp].
    change (cut (String c m) (String x (p ++ String c m ++ b))
            = Some (String x p, b)).
    rewrite cut_step.
    + rewrite (IH Hp). reflexivity.
    + rewrite startswith_cons. rewrite Ascii.eqb_sym.
      apply negb_true_iff in Hx. rewrite Hx. reflexivity.
Qed.

Lemma contains_lacks_head (c : ascii) (m s : string) :
  lacks c s = true -> contains (String c m) s = false.
Proof.
  induction s as [|x s IH]; intros Hs.
  - reflexivity.
  - cbn [lacks] in Hs. apply andb_true_iff in Hs. destruct Hs as [Hx Hs].
    cbn [contains]. rewrite startswith_cons, (IH Hs).
    rewrite Ascii.eqb_sym. apply negb_true_iff in Hx. rewrite Hx. reflexivity.
Qed.

(** Splitting what [join] built gives the pieces back when every piece but
    the last is cut off whole and the last holds no separator. *)
Lemma split_join_safe (m : string) :
  m <> "" ->
  forall ps,
    ps <> [] ->
    (forall p b, In p (removelast ps) -> cut m (p ++ m ++ b) = Some (p, b)) ->
    contains m (last ps "") = false ->
    split m (join m ps) = ps.
Proof.
  intros Hm. induction ps as [|p ps IH]; intros Hne Hsafe Hlast; [congruence|].
  destruct ps as [|q ps].
  - cbn [join String.concat]. apply split_cut_none. apply cut_none. exact Hlast.
  - rewrite join_cons by discriminate.
    rewrite (split_cut_some m _ p (join m (q :: ps)) Hm).
    + f_equal. apply IH.
      * discriminate.
      * intros p' b Hin. apply Hsafe. rewrite removelast_cons2. right. exact Hin.
      * exact Hlast.
    + apply Hsafe. rewrite removelast_cons2. left. reflexivity.
Qed.

(** A plain text written between double quotes is a literal of which it
    is the value. *)
Lemma plain_quoted_value (s : string) :
  plain s = true -> quoted_value s = Some s.
Proof.
  induction s as [|c s IH]; intros H; [reflexivity|].
  cbn [plain] in H.
  apply andb_true_iff in H. destruct H as [H Hs].
  apply andb_true_iff in H. destruct H as [H Hb].
  apply andb_true_iff in H. destruct H as [H Hq].
  apply andb_true_iff in H. destruct H as [Hlo _].
  apply negb_true_iff in Hb, Hq. apply N.leb_le in Hlo.
  assert (Hc : forall x, (N_of_ascii x < 32)%N -> Ascii.eqb c x = false).
  { intros x Hx. destruct (Ascii.eqb c x) eqn:E; [|reflexivity].
    apply Ascii.eqb_eq in E. subst x. lia. }
  cbn [quoted_value].
  rewrite Hb, Hq, (Hc LF), (Hc CR) by (vm_compute; reflexivity).
  cbn [orb]. rewrite (IH Hs). reflexivity.
Qed.

Lemma argv_to_str_join (argv : list string) :
  argv_to_str argv = join ", " (map quoted argv).
Proof.
  induction argv as [|a [|b rest] IH].
  - reflexivity.
  - cbn. rewrite !append_nil_r. reflexivity.
  - cbn [argv_to_str] in *. rewrite IH. cbn [map].
    rewrite (join_cons ", " (quoted a)) by discriminate. reflexivity.
Qed.

Lemma argv_to_str_quotes (a : string) (rest : list string) :
  argv_to_str (a :: rest)
  = chr DQUOTE ++ join (chr DQUOTE ++ ", " ++ chr DQUOTE) (a :: rest) ++ chr DQUOTE.
Proof.
  revert a. induction rest as [|b rest IH]; intros a.
  - cbn. rewrite !append_nil_r. reflexivity.
  - change (argv_to_str (a :: b :: rest))
      with (quoted a ++ ", " ++ argv_to_str (b :: rest)).
    rewrite IH. rewrite (join_cons _ a) by discriminate.
    unfold quoted. rewrite !append_assoc. reflexivity.
Qed.

Lemma chop_append_chr (s : string) (c : ascii) : chop (s ++ chr c) = s.
Proof.
  unfold chop. rewrite length_append. cbn [String.length chr].
  replace (String.length s + 1 - 1) with (String.length s) by lia.
  induction s as [|x s IH]; [reflexivity|].
  cbn [append String.length substring]. rewrite IH. reflexivity.
Qed.

Lemma listed_argv_to_str (argv : list string) :
  Forall (fun a => lacks DQUOTE a = true) argv ->
  listed (argv_to_str argv) = argv.
Proof.
  intros Hall. destruct argv as [|a rest]; [reflexivity|].
  rewrite argv_to_str_quotes.
  change (listed (chr DQUOTE ++ ?x)) with
    (split (chr DQUOTE ++ ", " ++ chr DQUOTE) (chop x)).
  rewrite chop_append_chr.
  apply split_join_safe.
  - discriminate.
  - discriminate.
  - intros p b Hin. apply cut_lacks_head.
    rewrite Forall_forall in Hall. apply Hall.
    revert Hin. generalize (a :: rest). clear.
    induction l as [|x [|y l] IH]; cbn [removelast]; intros Hin.
    + destruct Hin.
    + destruct Hin.
    + destruct Hin as [<-|Hin]; [left; reflexivity | right; apply IH; exact Hin].
  - apply contains_lacks_head.
    rewrite Forall_forall in Hall. apply Hall.
    generalize a. clear. induction rest as [|y l IH]; intros a.
    + left. reflexivity.
    + right. apply IH.
Qed.

(** [argv_to_str] writes the arguments between double quotes, separated
    by a comma and a blank.  When no argument holds a double quote, the
    arguments can be read back from the text, so that two argument lists
    with the same text are the same list. *)
Theorem argv_to_str_unambiguous (argv : list string) :
  Forall (fun a => lacks DQUOTE a = true) argv ->
  argv_to_str argv = join ", " (map quoted argv)
  /\ listed (argv_to_str argv) = argv
  /\ forall argv',
       Forall (fun a => lacks DQUOTE a = true) argv' ->
       argv_to_str argv' = argv_to_str argv -> argv' = argv.
Proof.
  intros Hall. split; [apply argv_to_str_join|].
  split; [apply listed_argv_to_str; exact Hall|].
  intros argv' Hall' Heq.
  rewrite <- (listed_argv_to_str argv' Hall'), Heq.
  apply listed_argv_to_str. exact Hall.
Qed.

Lemma argv_to_str_unambiguous_witness :
  listed (argv_to_str ["boot.py"; "main.py"]) = ["boot.py"; "main.py"].
Proof.
  refine (proj1 (proj2 (argv_to_str_unambiguous ["boot.py"; "main.py"] _))).
  repeat constructor.
Defined.

(** Arguments are inserted unescaped: with a double quote inside, two
    different argument lists give the same text. *)
Lemma argv_to_str_quote_collision :
  argv_to_str ["a" ++ chr DQUOTE ++ ", " ++ chr DQUOTE ++ "b"]
  = argv_to_str ["a"; "b"].
Proof. reflexivity. Qed.

End JoinFacts.

(** ** The decorator [singleton] *)

Module SingletonFacts.
  Import boot.

Section Singleton.
Variables Args Inst Res : Type.
Variable cls : pyclass Args Inst Res.

Lemma singleton_filled (self : Inst) (calls : list Args) :
  singleton_invocations cls (Some self) calls
  = map (fun _ => (None, GaveInstance self)) calls.
Proof.
  induction calls as [|a calls IH]; [reflexivity|].
  cbn [singleton_invocations singleton map]. rewrite IH. reflexivity.
Qed.

(** The name wrapped by [singleton] runs the constructor on the first
    call; when it succeeds, every later call gives that instance and runs
    nothing, whatever its arguments; when it raises, nothing is stored and
    the next call is a first call again. *)
Theorem singleton_constructs_once (args : Args) (calls : list Args) :
  singleton_invocations cls None (args :: calls)
  = match construct cls args with
    | inl self =>
        (Some (RanInit args), GaveInstance self)
          :: map (fun _ => (None, GaveInstance self)) calls
    | inr e =>
        (Some (RanInit args), GaveRaise e)
          :: singleton_invocations cls None calls
    end.
Proof.
  cbn [singleton_invocations singleton].
  destruct (construct cls args) as [self|e].
  - rewrite singleton_filled. reflexivity.
  - reflexivity.
Qed.

End Singleton.
End SingletonFacts.

(** ** The options and the guard of [cp] *)

Module CpFacts.
  Import PyStrFacts NormFacts SplitFacts ExtractFacts EscapeFacts upy_serial_cli.

Lemma cp_options_rec (opts : list (string * string)) :
  forall s d r1 r2,
    route (cp_options opts s d r1) = route (cp_options opts s d r2).
Proof.
  induction opts as [|opt opts IH]; intros s d r1 r2; [reflexivity|].
  cbn [cp_options].
  destruct (String.eqb (fst opt) "-s" && _); [reflexivity|].
  destruct (String.eqb (fst opt) "-d" && _); [reflexivity|].
  apply IH.
Qed.

Lemma cp_options_filter (opts : list (string * string)) :
  forall s d r,
    route (cp_options (filter not_r opts) s d r) = route (cp_options opts s d r).
Proof.
  induction opts as [|opt opts IH]; intros s d r; [reflexivity|].
  cbn [filter]. unfold not_r at 1.
  destruct (String.eqb (fst opt) "-r") eqn:Hr; cbn [negb].
  - apply String.eqb_eq in Hr. cbn [cp_options]. rewrite Hr.
    cbn [String.eqb Ascii.eqb Bool.eqb andb]. rewrite IH. apply cp_options_rec.
  - cbn [cp_options].
    destruct (String.eqb (fst opt) "-s" && _); [reflexivity|].
    destruct (String.eqb (fst opt) "-d" && _); [reflexivity|].
    rewrite Hr. apply IH.
Qed.

Lemma cp_options_app (opts : list (string * string)) (opt : string * string) :
  forall s d r,
    cp_options (opts ++ [opt]) s d r
    = match cp_options opts s d r with
      | None => None
      | Some (s', d', r') => cp_options [opt] s' d' r'
      end.
Proof.
  induction opts as [|o opts IH]; intros s d r; [reflexivity|].
  cbn [app cp_options].
  destruct (String.eqb (fst o) "-s" && _); [reflexivity|].
  destruct (String.eqb (fst o) "-d" && _); [reflexivity|].
  apply IH.
Qed.

Section Cp.
Variable fs : string -> list string + pyexn.
Variable realpath : string -> string.
Variable DEFAULT_PATH : string.

Lemma cp_parsed_where (opts : list (string * string)) (args : list string)
    (reply : string) :
  cp_parsed fs realpath DEFAULT_PATH opts args reply
  = if (List.length args <? 2)%nat then CpHelp
    else
      match route (cp_options opts "local" "serial" false) with
      | None => CpHelp
      | Some (s, d) =>
          if String.eqb s "local" && String.eqb d "local" then CpHelp
          else if String.eqb s "local" && String.eqb d "serial" then
            CpRan (cp_local_to_serial fs realpath DEFAULT_PATH
                     (removelast args) (last args "") reply)
          else CpRan ([], Return tt)
      end.
Proof.
  unfold cp_parsed, route.
  destruct (cp_options opts "local" "serial" false) as [[[s d] r]|]; reflexivity.
Qed.

(** The options of [cp].  The option [-r] has no effect: leaving it out
    changes nothing.  When the last option names the serial device as the
    source, the command sends nothing: it ends with the help text or
    without any action.  Local sources with a local destination always end
    with the help text. *)
Theorem cp_parsed_directions (opts : list (string * string))
    (args : list string) (reply : string) :
  cp_parsed fs realpath DEFAULT_PATH (filter not_r opts) args reply
  = cp_parsed fs realpath DEFAULT_PATH opts args reply
  /\ (cp_parsed fs realpath DEFAULT_PATH (opts ++ [("-s", "serial")]) args reply
      = CpHelp
      \/ cp_parsed fs realpath DEFAULT_PATH (opts ++ [("-s", "serial")]) args reply
         = CpRan ([], Return tt))
  /\ cp_parsed fs realpath DEFAULT_PATH
       (opts ++ [("-s", "local"); ("-d", "local")]) args reply
     = CpHelp.
Proof.
  split; [|split].
  - rewrite !cp_parsed_where.
    rewrite (cp_options_filter opts "local" "serial" false). reflexivity.
  - unfold cp_parsed. destruct (List.length args <? 2)%nat; [left; reflexivity|].
    rewrite cp_options_app.
    destruct (cp_options opts "local" "serial" false) as [[[s d] r]|];
      [|left; reflexivity].
    right. reflexivity.
  - unfold cp_parsed. destruct (List.length args <? 2)%nat; [reflexivity|].
    change (opts ++ [("-s", "local"); ("-d", "local")])%list
      with (opts ++ [("-s", "local")] ++ [("-d", "local")])%list.
    rewrite app_assoc, !cp_options_app.
    destruct (cp_options opts "local" "serial" false) as [[[s d] r]|];
      reflexivity.
Qed.

(** [cp] to the device, for a destination other than the module itself:
    whatever happens the last thing done is to close the connection, and no
    exception leaves the function; a blank destination ends the process
    with code 255 before the connection was opened.  The direct transfer of
    the module, as the constructor does it, has no such guard: when the
    local file cannot be opened the exception leaves [cp] with the
    connection open. *)
Theorem cp_closes_unless_direct (srcs : list string) (dest reply : string) :
  dest <> CLI_MOD ->
  (exists events,
     fst (cp_local_to_serial fs realpath DEFAULT_PATH srcs dest reply)
     = (events ++ [EvClose])%list)
  /\ (forall e,
        snd (cp_local_to_serial fs realpath DEFAULT_PATH srcs dest reply)
        <> Raised e)
  /\ (strip dest = "" ->
      cp_local_to_serial fs realpath DEFAULT_PATH srcs dest reply
      = ([EvClose],
         Exit EXIT_FAILURE
              ("Destination path cannot be empty" ++ chr LF ++ chr LF)))
  /\ (forall e,
        fs (DEFAULT_PATH ++ "/" ++ CLI_MOD) = inr e ->
        cp_local_to_serial fs realpath DEFAULT_PATH
          [DEFAULT_PATH ++ "/" ++ CLI_MOD] CLI_MOD reply
        = ([EvOpen], Raised e)).
Proof.
  intros Hd. apply String.eqb_neq in Hd.
  assert (Hg : cp_local_to_serial fs realpath DEFAULT_PATH srcs dest reply
               = guarded (cp_checked fs realpath srcs dest reply)).
  { unfold cp_local_to_serial. destruct srcs as [|src [|src' rest]]; try reflexivity.
    rewrite Hd, andb_false_r. reflexivity. }
  rewrite Hg. split; [|split; [|split]].
  - unfold guarded. destruct (cp_checked fs realpath srcs dest reply) as [ev r].
    exists ev. reflexivity.
  - intros e. unfold guarded.
    destruct (cp_checked fs realpath srcs dest reply) as [ev r].
    cbn [snd]. destruct r as [v|code msg|e']; try discriminate.
    unfold error, sys_exit. destruct (has_errno e'); discriminate.
  - intros Hs. unfold cp_checked. rewrite Hs. reflexivity.
  - intros e He. unfold cp_local_to_serial.
    rewrite !String.eqb_refl. cbn [andb hd]. unfold serial_fwrite. rewrite He.
    reflexivity.
Qed.

End Cp.

Lemma cp_closes_unless_direct_witness :
  cp_local_to_serial ex_fs (fun p => p) "/home/user" ["/home/user/main.py"] " " ""
  = ([EvClose],
     Exit EXIT_FAILURE ("Destination path cannot be empty" ++ chr LF ++ chr LF)).
Proof.
  refine (proj1 (proj2 (proj2 (cp_closes_unless_direct ex_fs (fun p => p)
            "/home/user" ["/home/user/main.py"] " " "" _))) _).
  - discriminate.
  - reflexivity.
Defined.

End CpFacts.

(** ** From the device back to the host *)

Module RoundTripFacts.
  Import PyStrFacts NormFacts SplitFacts ExtractFacts EscapeFacts upy_serial_cli.
  Import JoinFacts.

Local Arguments Ascii.eqb : simpl never.

Lemma lacks_head (c x : ascii) (m : string) :
  lacks c (String x m) = true -> Ascii.eqb x c = false.
Proof.
  cbn [lacks]. intros H. apply andb_true_iff in H. destruct H as [H _].
  apply negb_true_iff in H. exact H.
Qed.

Lemma lacks_tail (c x : ascii) (m : string) :
  lacks c (String x m) = true -> lacks c m = true.
Proof.
  cbn [lacks]. intros H. apply andb_true_iff in H. tauto.
Qed.

(** A text without the character [c] starts at a position of [u ++ c v]
    only if it starts there in [u]. *)
Lemma startswith_boundary (c : ascii) (m : string) :
  lacks c m = true ->
  forall u v, startswith m (u ++ String c v) = startswith m u.
Proof.
  induction m as [|y m IH]; intros Hm u v; [reflexivity|].
  destruct u as [|x u].
  - cbn [append]. rewrite startswith_cons, (lacks_head _ _ _ Hm). reflexivity.
  - cbn [append]. rewrite !startswith_cons, (IH (lacks_tail _ _ _ Hm)). reflexivity.
Qed.

Lemma contains_nil_false (m : string) : m <> "" -> contains m "" = false.
Proof. destruct m; [congruence | reflexivity]. Qed.

Lemma contains_boundary (c : ascii) (m : string) :
  m <> "" -> lacks c m = true ->
  forall a b, contains m (a ++ String c b) = contains m a || contains m b.
Proof.
  intros Hne Hm a b. induction a as [|x a IH].
  - assert (Hs : startswith m (String c b) = false).
    { rewrite (startswith_boundary c m Hm "" b : startswith m (String c b) = _).
      destruct m; [congruence | reflexivity]. }
    rewrite contains_nil_false by assumption.
    cbn [append contains orb]. rewrite Hs. reflexivity.
  - change (String x a ++ String c b) with (String x (a ++ String c b)).
    cbn [contains]. rewrite IH.
    change (String x (a ++ String c b)) with (String x a ++ String c b).
    rewrite (startswith_boundary c m Hm). rewrite orb_assoc. reflexivity.
Qed.

Lemma contains_cons_false (m : string) (x : ascii) (a : string) :
  contains m (String x a) = false ->
  startswith m (String x a) = false /\ contains m a = false.
Proof. cbn [contains]. intros H. apply orb_false_iff in H. exact H. Qed.

(** A piece that ends with a character the separator lacks, and holds no
    separator before it, is cut off whole. *)
Lemma cut_boundary (c : ascii) (m : string) :
  m <> "" -> lacks c m = true ->
  forall a b,
    contains m a = false ->
    cut m ((a ++ chr c) ++ m ++ b) = Some (a ++ chr c, b).
Proof.
  intros Hne Hm a b. induction a as [|x a IH]; intros Ha.
  - change (("" ++ chr c) ++ m ++ b) with (String c (m ++ b)).
    rewrite cut_step.
    + rewrite cut_here. reflexivity.
    + destruct m as [|y m]; [congruence|].
      change (String y m ++ b) with (String y (m ++ b)).
      rewrite startswith_cons, (lacks_head _ _ _ Hm). reflexivity.
  - apply contains_cons_false in Ha. destruct Ha as [Hs Ha].
    change ((String x a ++ chr c) ++ m ++ b)
      with (String x ((a ++ chr c) ++ m ++ b)).
    rewrite cut_step.
    + rewrite (IH Ha). reflexivity.
    + change (String x ((a ++ chr c) ++ m ++ b))
        with ((String x a ++ chr c) ++ m ++ b).
      rewrite append_assoc. change (chr c ++ m ++ b) with (String c (m ++ b)).
      rewrite (startswith_boundary c m Hm). exact Hs.
Qed.

Lemma norm_snoc_LF (x : string) : exists y, norm (x ++ chr LF) = y ++ chr LF.
Proof.
  induction x as [| c | c d t IHt IHdt] using string_ind2.
  - exists "". reflexivity.
  - cbn [append chr norm].
    destruct (Ascii.eqb c CR && Ascii.eqb LF LF).
    + exists "". reflexivity.
    + exists (chr c). reflexivity.
  - change (String c (String d t) ++ chr LF) with (String c (String d (t ++ chr LF))).
    destruct (Ascii.eqb c CR && Ascii.eqb d LF) eqn:E.
    + apply andb_true_iff in E. destruct E as [Ec Ed].
      apply Ascii.eqb_eq in Ec. apply Ascii.eqb_eq in Ed. subst c d.
      rewrite norm_crlf. destruct IHt as [y Hy]. rewrite Hy.
      exists (String LF y). reflexivity.
    + rewrite norm_other.
      * destruct IHdt as [y Hy].
        change (String d t ++ chr LF) with (String d (t ++ chr LF)) in Hy.
        rewrite Hy. exists (String c y). reflexivity.
      * unfold at_crlf. rewrite startswith_chr, (Ascii.eqb_sym LF d). exact E.
Qed.

Lemma contains_LF_cons (m a : string) :
  marker m -> contains m a = false -> contains m (String LF a) = false.
Proof.
  intros (Hne & _ & Hlf) Ha.
  rewrite (contains_boundary LF m Hne Hlf "" a : contains m (String LF a) = _).
  rewrite Ha, contains_nil_false by assumption. reflexivity.
Qed.

Lemma contains_append_false_l (m a b : string) :
  contains m (a ++ b) = false -> contains m a = false.
Proof.
  intros H. destruct (contains m a) eqn:E; [|reflexivity].
  rewrite (contains_append_l m a b E) in H. discriminate.
Qed.

Lemma sealed_LF : sealed (chr LF).
Proof. exists "". repeat split. Qed.

Lemma sealed_cons (s : string) : sealed s -> sealed (String LF s).
Proof.
  intros (a & -> & Hb & He). exists (String LF a).
  split; [reflexivity|].
  split; apply contains_LF_cons; auto using BEG_RES_marker, END_RES_marker.
Qed.

Lemma sealed_free (s : string) :
  sealed s -> contains BEG_RES s = false /\ contains END_RES s = false.
Proof.
  intros (a & -> & Hb & He).
  destruct BEG_RES_marker as (Hbn & _ & Hbl).
  destruct END_RES_marker as (Hen & _ & Hel).
  change (a ++ chr LF) with (a ++ String LF "").
  rewrite (contains_boundary LF BEG_RES Hbn Hbl), (contains_boundary LF END_RES Hen Hel).
  rewrite Hb, He. split; reflexivity.
Qed.

(** A printable text, normalised, is empty or sealed. *)
Lemma printable_norm (msg : string) :
  printable msg -> norm msg = "" \/ sealed (norm msg).
Proof.
  intros [Hend [Hb He]].
  rewrite <- (contains_norm _ _ BEG_RES_marker) in Hb.
  rewrite <- (contains_norm _ _ END_RES_marker) in He.
  destruct Hend as [->|Hend]; [left; reflexivity|].
  right. apply endswith_spec in Hend. destruct Hend as [x ->].
  destruct (norm_snoc_LF x) as [y Hy]. rewrite Hy in *.
  exists y. split; [reflexivity|].
  split; eapply contains_append_false_l; eassumption.
Qed.

Lemma printable_sealed (msg : string) :
  printable msg -> sealed (String LF (norm msg)).
Proof.
  intros H. destruct (printable_norm msg H) as [->|Hs].
  - exact sealed_LF.
  - apply sealed_cons. exact Hs.
Qed.

Lemma norm_LF (s : string) : norm (String LF s) = String LF (norm s).
Proof. apply norm_other. apply at_crlf_not_CR. reflexivity. Qed.

(** The extraction on a normalised reply: one sealed text between the two
    markers, the second followed by a line feed. *)
Lemma extract_results_sealed (res_str pre mid post : string) :
  norm res_str = pre ++ BEG_RES ++ mid ++ END_RES ++ String LF post ->
  pre = "" \/ (exists a, pre = a ++ chr LF /\ contains BEG_RES a = false) ->
  sealed mid ->
  contains BEG_RES post = false ->
  contains END_RES post = false ->
  extract_results res_str = Return mid.
Proof.
  intros Hn Hpre (a & -> & Hab & Hae) Hpb Hpe.
  destruct BEG_RES_marker as (Hbn & _ & Hbl).
  destruct END_RES_marker as (Hen & _ & Hel).
  apply (extract_results_envelope res_str pre (a ++ chr LF) (String LF post)).
  - rewrite Hn. destruct Hpre as [->|(p & -> & Hp)].
    + apply (cut_here BEG_RES).
    + apply cut_boundary; assumption.
  - rewrite append_assoc. change (chr LF ++ ?x) with (String LF x).
    rewrite (contains_boundary LF BEG_RES Hbn Hbl), Hab.
    rewrite (contains_boundary LF BEG_RES Hbn Hbl END_RES post), Hpb. reflexivity.
  - apply cut_boundary; assumption.
  - apply contains_LF_cons; [exact END_RES_marker | exact Hpe].
Qed.

Lemma noise_norm (pre : string) :
  pre = "" \/ endswith (chr LF) pre = true ->
  contains BEG_RES pre = false ->
  norm pre = "" \/ (exists a, norm pre = a ++ chr LF /\ contains BEG_RES a = false).
Proof.
  intros Hend Hb.
  rewrite <- (contains_norm _ _ BEG_RES_marker) in Hb.
  destruct Hend as [->|Hend]; [left; reflexivity|].
  right. apply endswith_spec in Hend. destruct Hend as [x ->].
  destruct (norm_snoc_LF x) as [y Hy]. rewrite Hy in *.
  exists y. split; [reflexivity|].
  eapply contains_append_false_l; eassumption.
Qed.

Lemma serial_print_norm (pre msg post : string) :
  norm (pre ++ cli_module.serial_print msg ++ post)
  = norm pre ++ BEG_RES ++ String LF (norm msg) ++ END_RES
    ++ String LF (String LF (norm post)).
Proof.
  unfold cli_module.serial_print, print_line, cli_module.BEG_RES, cli_module.END_RES.
  rewrite !append_assoc.
  rewrite (norm_around_marker BEG_RES pre _ BEG_RES_marker).
  change (norm (chr LF ++ msg ++ "##### END RESULTS #####" ++ chr LF ++ chr LF ++ post))
    with (norm (String LF (msg ++ END_RES ++ String LF (String LF post)))).
  rewrite norm_LF.
  rewrite (norm_around_marker END_RES msg _ END_RES_marker).
  rewrite !norm_LF. reflexivity.
Qed.

Lemma norm_cooked (s : string) : lacks CR s = true -> norm (cooked s) = s.
Proof.
  unfold cooked. induction s as [|c s IH]; intros Hs; [reflexivity|].
  pose proof (lacks_head _ _ _ Hs) as Hc. apply lacks_tail in Hs.
  cbn [subst]. destruct (Ascii.eqb c LF) eqn:E.
  - apply Ascii.eqb_eq in E. subst c.
    change (CRLF ++ ?x) with (String CR (String LF x)).
    rewrite norm_crlf, (IH Hs). reflexivity.
  - change (chr c ++ ?x) with (String c x).
    rewrite norm_other by (apply at_crlf_not_CR; exact Hc).
    rewrite (IH Hs). reflexivity.
Qed.

Lemma norm_lacks_CR (s : string) : lacks CR s = true -> norm s = s.
Proof.
  induction s as [|c s IH]; intros Hs; [reflexivity|].
  pose proof (lacks_head _ _ _ Hs) as Hc. apply lacks_tail in Hs.
  rewrite norm_other by (apply at_crlf_not_CR; exact Hc).
  rewrite (IH Hs). reflexivity.
Qed.

Lemma extract_results_norm (r r' : string) :
  norm r = norm r' -> extract_results r = extract_results r'.
Proof. intros H. rewrite !extract_results_unfold, H. reflexivity. Qed.

(** The reply around one [serial_print]: noise that ends with a line feed
    and holds no [BEGIN] marker, the block of a printable text, noise
    without markers. *)
Lemma serial_print_framed (pre msg post : string) :
  pre = "" \/ endswith (chr LF) pre = true ->
  contains BEG_RES pre = false ->
  printable msg ->
  contains BEG_RES post = false ->
  contains END_RES post = false ->
  extract_results (pre ++ cli_module.serial_print msg ++ post)
  = Return (chr LF ++ normalize msg).
Proof.
  intros Hend Hpre Hmsg Hpb Hpe.
  rewrite normalize_norm.
  apply (extract_results_sealed _ (norm pre) (String LF (norm msg))
                                (String LF (norm post))).
  - rewrite serial_print_norm. reflexivity.
  - apply noise_norm; assumption.
  - apply printable_sealed. exact Hmsg.
  - apply contains_LF_cons; [exact BEG_RES_marker|].
    rewrite (contains_norm _ _ BEG_RES_marker). exact Hpb.
  - apply contains_LF_cons; [exact END_RES_marker|].
    rewrite (contains_norm _ _ END_RES_marker). exact Hpe.
Qed.

(** What the device prints with [serial_print] is read back by
    [extract_results]: for a text that is empty or ends with a line feed and
    holds no marker, printed after noise that ends with a line feed and
    holds no [BEGIN] marker (the echo of the statement) and before noise
    without markers (the prompt), the host gets a line feed followed by the
    text, normalised.  The same holds when the console sends every line
    feed as CR LF, for texts without carriage return. *)
Theorem serial_print_read_back (pre msg post : string) :
  pre = "" \/ endswith (chr LF) pre = true ->
  contains BEG_RES pre = false ->
  printable msg ->
  contains BEG_RES post = false ->
  contains END_RES post = false ->
  extract_results (pre ++ cli_module.serial_print msg ++ post)
  = Return (chr LF ++ normalize msg)
  /\ (lacks CR (pre ++ cli_module.serial_print msg ++ post) = true ->
      extract_results (cooked (pre ++ cli_module.serial_print msg ++ post))
      = Return (chr LF ++ normalize msg)).
Proof.
  intros Hend Hpre Hmsg Hpb Hpe.
  pose proof (serial_print_framed pre msg post Hend Hpre Hmsg Hpb Hpe) as H.
  split; [exact H|].
  intros Hcr. rewrite <- H. apply extract_results_norm.
  rewrite norm_cooked, norm_lacks_CR by assumption. reflexivity.
Qed.

Lemma serial_print_read_back_witness :
  extract_results
    (("sysinfo(query=" ++ quoted "hostname" ++ ")" ++ chr LF)
       ++ cli_module.serial_print ("hostname: esp-01" ++ chr LF) ++ ">>> ")
  = Return (chr LF ++ normalize ("hostname: esp-01" ++ chr LF)).
Proof.
  refine (proj1 (serial_print_read_back
                   ("sysinfo(query=" ++ quoted "hostname" ++ ")" ++ chr LF)
                   ("hostname: esp-01" ++ chr LF) ">>> " _ _ _ _ _)).
  - right. vm_compute. reflexivity.
  - vm_compute. reflexivity.
  - split; [right; vm_compute; reflexivity|].
    split; vm_compute; reflexivity.
  - vm_compute. reflexivity.
  - vm_compute. reflexivity.
Defined.

End RoundTripFacts.

Module CatFacts.
  Import PyStrFacts NormFacts SplitFacts ExtractFacts EscapeFacts upy_serial_cli.
  Import JoinFacts RoundTripFacts.

Local Arguments Ascii.eqb : simpl never.






(** What follows the [BEGIN] marker in the block of the text [n]. *)









End CatFacts.

Module DeviceFacts.
  Import PyStrFacts NormFacts SplitFacts ExtractFacts EscapeFacts upy_serial_cli.
  Import JoinFacts RoundTripFacts CatFacts.

Local Arguments Ascii.eqb : simpl never.

Lemma serial_print_alone (msg : string) :
  printable msg ->
  extract_results (cli_module.serial_print msg) = Return (String LF (norm msg)).
Proof.
  intros Hmsg.
  pose proof (serial_print_framed "" msg "" (or_introl eq_refl) eq_refl Hmsg
                eq_refl eq_refl) as H.
  rewrite append_nil_r in H. cbn [append] in H. rewrite H, normalize_norm.
  reflexivity.
Qed.

Lemma lacks_norm (c : ascii) (s : string) :
  Ascii.eqb c CR = false -> lacks c (norm s) = lacks c s.
Proof.
  intros Hc. induction s as [| x | x d t IHt IHdt] using string_ind2.
  - reflexivity.
  - reflexivity.
  - destruct (Ascii.eqb x CR && Ascii.eqb d LF) eqn:E.
    + apply andb_true_iff in E. destruct E as [Ex Ed].
      apply Ascii.eqb_eq in Ex. apply Ascii.eqb_eq in Ed. subst x d.
      rewrite norm_crlf. cbn [lacks]. rewrite IHt.
      rewrite (Ascii.eqb_sym CR c), Hc. reflexivity.
    + rewrite norm_other.
      * cbn [lacks] in *. rewrite IHdt. reflexivity.
      * unfold at_crlf. rewrite startswith_chr, (Ascii.eqb_sym LF d). exact E.
Qed.

Lemma lacks_lstrip (c : ascii) (s : string) :
  is_space c = false -> lacks c (lstrip s) = lacks c s.
Proof.
  intros Hc. induction s as [|x s IH]; [reflexivity|].
  cbn [lstrip]. destruct (is_space x) eqn:Hx; [|reflexivity].
  rewrite IH. cbn [lacks].
  destruct (Ascii.eqb x c) eqn:E; [|reflexivity].
  apply Ascii.eqb_eq in E. subst x. congruence.
Qed.

Lemma lacks_rstrip (c : ascii) (s : string) :
  is_space c = false -> lacks c (rstrip s) = lacks c s.
Proof.
  intros Hc. induction s as [|x s IH]; [reflexivity|].
  cbn [rstrip].
  destruct (is_space x && String.eqb (rstrip s) "") eqn:E.
  - apply andb_true_iff in E. destruct E as [Hx Hs].
    apply String.eqb_eq in Hs. rewrite Hs in IH. cbn [lacks] in *.
    rewrite <- IH.
    destruct (Ascii.eqb x c) eqn:Exc; [|reflexivity].
    apply Ascii.eqb_eq in Exc. subst x. congruence.
  - cbn [lacks]. rewrite IH. reflexivity.
Qed.

Lemma lacks_strip (c : ascii) (s : string) :
  is_space c = false -> lacks c (strip s) = lacks c s.
Proof.
  intros Hc. unfold strip. rewrite lacks_lstrip, lacks_rstrip by assumption.
  reflexivity.
Qed.

Section DeviceFiles.
Variable stat_mode : string -> Z + pyexn.
Variable file_lines : string -> list string + pyexn.
Variable blank : string -> bool.

(** The answer of the device function [is_dir] as the host reads it.
    When [uos.stat] succeeds, the payload stripped is [TRUE] if the type
    bits of the mode are those of a directory and [FALSE] otherwise; when
    the path is blank or [uos.stat] raises, the payload is the error line,
    which strips to neither word. *)
Theorem is_dir_answer (path : string) :
  (forall mode,
     blank path = false -> stat_mode path = inl mode ->
     exists payload,
       extract_results (cli_module.is_dir stat_mode blank path) = Return payload
       /\ strip payload
          = if (Z.land mode cli_module.S_IFMT =? cli_module.S_IFDIR)%Z
            then "TRUE" else "FALSE")
  /\ (forall text,
        (blank path = true /\ text = "No path given"
         \/ blank path = false
            /\ exists err, stat_mode path = inr err /\ text = exn_str err) ->
        printable (path ++ ": " ++ text ++ chr LF) ->
        exists payload,
          extract_results (cli_module.is_dir stat_mode blank path) = Return payload
          /\ strip payload <> "TRUE" /\ strip payload <> "FALSE").
Proof.
  split.
  - intros mode Hb Hs. unfold cli_module.is_dir. rewrite Hb, Hs.
    destruct (Z.land mode cli_module.S_IFMT =? cli_module.S_IFDIR)%Z.
    + exists (String LF ("TRUE" ++ chr LF)). split; vm_compute; reflexivity.
    + exists (String LF ("FALSE" ++ chr LF)). split; vm_compute; reflexivity.
  - intros text Hcase Hp.
    assert (Hd : cli_module.is_dir stat_mode blank path
                 = cli_module.serial_print (path ++ ": " ++ text ++ chr LF)).
    { unfold cli_module.is_dir, cli_module.err_msg_of_str.
      destruct Hcase as [[Hb ->]|[Hb (err & Hs & ->)]]; rewrite Hb.
      - rewrite !append_assoc. reflexivity.
      - rewrite Hs, !append_assoc. reflexivity. }
    rewrite Hd, (serial_print_alone _ Hp).
    eexists. split; [reflexivity|].
    assert (Hl : lacks ":" (strip (String LF (norm (path ++ ": " ++ text ++ chr LF))))
                 = false).
    { rewrite lacks_strip by reflexivity. cbn [lacks].
      rewrite lacks_norm by reflexivity.
      rewrite lacks_append. cbn [append lacks].
      rewrite Ascii.eqb_refl. cbn [negb andb]. rewrite andb_false_r. reflexivity. }
    split; intros Heq; rewrite Heq in Hl; discriminate.
Qed.

End DeviceFiles.

Section Copy.
Variable fs : string -> list string + pyexn.
Variable realpath : string -> string.
Variable stat_mode : string -> Z + pyexn.
Variable blank : string -> bool.


End Copy.

Section Cat.
Variable stat_mode : string -> Z + pyexn.
Variable file_lines : string -> list string + pyexn.


End Cat.

Lemma lacks_string_of_uint (c : ascii) (d : Decimal.uint) :
  (N_of_ascii c <? 48)%N = true ->
  lacks c (NilEmpty.string_of_uint d) = true.
Proof.
  intros Hc.
  assert (H : forall x, (48 <=? N_of_ascii x)%N = true -> Ascii.eqb x c = false).
  { intros x Hx. destruct (Ascii.eqb x c) eqn:E; [|reflexivity].
    apply Ascii.eqb_eq in E. subst x. apply N.ltb_lt in Hc. apply N.leb_le in Hx. lia. }
  induction d; cbn [NilEmpty.string_of_uint lacks]; try reflexivity;
    rewrite IHd, H by reflexivity; reflexivity.
Qed.

Lemma lacks_str_of_int (c : ascii) (n : Z) :
  (N_of_ascii c <? 45)%N = true -> lacks c (str_of_int n) = true.
Proof.
  intros Hc.
  assert (Hc' : (N_of_ascii c <? 48)%N = true).
  { apply N.ltb_lt in Hc. apply N.ltb_lt. lia. }
  unfold str_of_int. destruct (Z.to_int n) as [d|d]; cbn [NilEmpty.string_of_int].
  - apply lacks_string_of_uint. exact Hc'.
  - cbn [lacks]. rewrite lacks_string_of_uint by exact Hc'.
    destruct (Ascii.eqb "-" c) eqn:E; [|reflexivity].
    apply Ascii.eqb_eq in E. subst c. discriminate.
Qed.

Section Memory.
Variable un : list string.
Variable stvfs : list Z.

Lemma printable_number_line (label : string) (n : Z) :
  lacks "#" label = true -> lacks CR label = true ->
  printable (cli_module.line label (str_of_int n))
  /\ norm (cli_module.line label (str_of_int n))
     = cli_module.line label (str_of_int n).
Proof.
  intros Hl Hcr.
  assert (Hh : lacks "#" (cli_module.line label (str_of_int n)) = true).
  { unfold cli_module.line. rewrite !lacks_append, Hl.
    rewrite lacks_str_of_int by reflexivity. reflexivity. }
  split.
  - split.
    + right. apply endswith_spec. exists (label ++ ": " ++ str_of_int n).
      unfold cli_module.line. rewrite !append_assoc. reflexivity.
    + split; apply contains_lacks_head; exact Hh.
  - apply norm_lacks_CR. unfold cli_module.line. rewrite !lacks_append, Hcr.
    rewrite lacks_str_of_int by reflexivity. reflexivity.
Qed.

(** [free] from end to end, once the instance of [sysinfo] exists on the
    device: the host sends the statement of the query [free] and prints the
    one line [free space: n], where [n] is the number of free blocks times
    the block size, between a line feed and two line feeds. *)
Theorem free_end_to_end :
  exists self reply,
    cli_module.sysinfo_init (cli_module.mk_args [] []) = inl self
    /\ cli_module.sysinfo_call un stvfs self
         (cli_module.mk_args [] [("query", cli_module.PStr "free")])
       = Return reply
    /\ free reply
       = ([EvOpen; EvStmt ("sysinfo(query=" ++ quoted "free" ++ ")" ++ CRLF);
           EvRead; EvClose],
          Return (chr LF ++ "free space: "
                  ++ str_of_int (cli_module.stvfs_at stvfs cli_module.F_BFREE
                                 * cli_module.stvfs_at stvfs cli_module.F_BSIZE)
                  ++ chr LF ++ chr LF)).
Proof.
  eexists. eexists. split; [reflexivity|]. split; [reflexivity|].
  unfold free, sysinfo_parsed, sysinfo_query, exchange. cbn [sysinfo_options fold_left fst snd].
  change (String.eqb "-q" "-q") with true. cbv iota.
  set (v := (cli_module.stvfs_at stvfs cli_module.F_BFREE
             * cli_module.stvfs_at stvfs cli_module.F_BSIZE)%Z).
  destruct (printable_number_line "free space" v eq_refl eq_refl) as [Hp Hn].
  match goal with
  | |- context [cli_module.serial_print ?m] =>
      assert (Hq : m = cli_module.line "free space" (str_of_int v))
  end.
  { cbv -[str_of_int Z.mul cli_module.stvfs_at append v].
    cbn [append]. rewrite !append_nil_r. reflexivity. }
  rewrite Hq, (serial_print_alone _ Hp), Hn.
  unfold print_line, cli_module.line. f_equal. f_equal.
  cbn [append chr]. rewrite (append_assoc (str_of_int v)). reflexivity.
Qed.

End Memory.



Lemma cat_two_files :
  join (chr LF)
    (map (fun file => chr LF ++ normalize (cli_module.file_text ex_stat ex_lines file))
         ["boot.py"; "main.py"]) ++ chr LF
  = chr LF ++ "import esp" ++ chr LF ++ "esp.osdebug(None)" ++ chr LF
    ++ chr LF ++ chr LF ++ "main.py: [Errno 2] ENOENT" ++ chr LF ++ chr LF.
Proof. vm_compute. reflexivity. Qed.

End DeviceFacts.

(** ** The escaped line as a literal *)

Module LiteralFacts.
  Import PyStrFacts NormFacts SplitFacts ExtractFacts EscapeFacts upy_serial_cli.



End LiteralFacts.

(** ** The probe of the constructor *)

Module ProbeFacts.
  Import PyStrFacts NormFacts SplitFacts ExtractFacts EscapeFacts upy_serial_cli.
  Import DedupFacts JoinFacts RoundTripFacts.

Local Arguments Ascii.eqb : simpl never.


Lemma cut_append_l (sep : string) :
  forall s a b z,
    cut sep s = Some (a, b) -> cut sep (s ++ z) = Some (a, b ++ z).
Proof.
  intros s a b z H. pose proof (cut_eq _ _ _ _ H) as Hs. subst s.
  rewrite !append_assoc. apply (cut_prefix_indep sep a b (b ++ z)). exact H.
Qed.

Lemma cut_CRLF_end (a b : string) :
  cut CRLF a = None -> cut CRLF (a ++ CRLF ++ b) = Some (a, b).
Proof.
  induction a as [|c a IH]; intros Hnone.
  - apply (cut_here CRLF).
  - assert (Hc : at_crlf c a = false).
    { rewrite <- startswith_CRLF. apply cut_none in Hnone.
      apply contains_cons_false in Hnone. tauto. }
    rewrite (cut_CRLF_other c a Hc) in Hnone.
    destruct (cut CRLF a) as [[x y]|] eqn:E; [discriminate|].
    change (String c a ++ CRLF ++ b) with (String c (a ++ CRLF ++ b)).
    rewrite cut_CRLF_other.
    + rewrite (IH eq_refl). reflexivity.
    + unfold at_crlf in *. destruct (Ascii.eqb c CR) eqn:Ec; [|reflexivity].
      cbn [andb] in *. destruct a as [|d a'].
      * reflexivity.
      * change (String d a' ++ CRLF ++ b) with (String d (a' ++ CRLF ++ b)).
        rewrite startswith_chr in *. exact Hc.
Qed.

(** The lines of [a ++ CRLF ++ b] are the lines of [a], then those of
    [b]. *)
Lemma split_CRLF_append (a : string) :
  forall b, split CRLF (a ++ CRLF ++ b) = (split CRLF a ++ split CRLF b)%list.
Proof.
  induction_on_length a n IH Hn; intros a Hn b.
  destruct (cut CRLF a) as [[x y]|] eqn:E.
  - rewrite (split_cut_some CRLF a x y CRLF_not_nil E).
    rewrite (split_cut_some CRLF _ x (y ++ CRLF ++ b) CRLF_not_nil
               (cut_append_l CRLF a x y _ E)).
    cbn [app]. f_equal.
    apply (IH (String.length y)); [|reflexivity].
    subst n. apply (cut_shorter CRLF a x y CRLF_not_nil E).
  - rewrite (split_cut_none CRLF a E).
    rewrite (split_cut_some CRLF _ a b CRLF_not_nil (cut_CRLF_end a b E)).
    reflexivity.
Qed.

Lemma split_CRLF_line (m : string) :
  clean m = true -> split CRLF m = [m].
Proof.
  intros Hm. apply split_cut_none. apply cut_none.
  apply andb_true_iff in Hm. destruct Hm as [Hcr _].
  apply (contains_lacks_head CR (chr LF) m Hcr).
Qed.

Lemma endswith_append (p x s : string) :
  endswith p s = true -> endswith p (x ++ s) = true.
Proof.
  intros H. apply endswith_spec in H. destruct H as [y ->].
  apply endswith_spec. exists (x ++ y). rewrite append_assoc. reflexivity.
Qed.

Lemma whole_line_found (m : string) (s : string) :
  In m (split CRLF s) ->
  exists pre post,
    s = pre ++ m ++ post
    /\ (pre = "" \/ endswith CRLF pre = true)
    /\ (post = "" \/ startswith CRLF post = true).
Proof.
  induction_on_length s n IH Hn; intros s Hn Hin.
  destruct (cut CRLF s) as [[a b]|] eqn:E.
  - rewrite (split_cut_some CRLF s a b CRLF_not_nil E) in Hin.
    pose proof (cut_eq _ _ _ _ E) as Hs.
    destruct Hin as [<-|Hin].
    + exists "", (CRLF ++ b). split; [exact Hs|]. split; [left; reflexivity|].
      right. apply startswith_append.
    + destruct (IH (String.length b)) with (s := b)
        as (pre & post & Hb & Hpre & Hpost);
        [subst n; apply (cut_shorter CRLF s a b CRLF_not_nil E) | reflexivity
         | exact Hin |].
      exists (a ++ CRLF ++ pre), post.
      split; [rewrite Hs, Hb, !append_assoc; reflexivity|].
      split; [|exact Hpost]. right.
      destruct Hpre as [->|Hpre].
      * apply endswith_spec. exists a. rewrite append_nil_r. reflexivity.
      * rewrite <- append_assoc. apply endswith_append. exact Hpre.
  - rewrite (split_cut_none CRLF s E) in Hin. destruct Hin as [<-|[]].
    exists "", "". rewrite append_nil_r. auto.
Qed.

Lemma whole_line_split (m pre post : string) :
  clean m = true ->
  pre = "" \/ endswith CRLF pre = true ->
  post = "" \/ startswith CRLF post = true ->
  In m (split CRLF (pre ++ m ++ post)).
Proof.
  intros Hm Hpre Hpost.
  assert (Hright : In m (split CRLF (m ++ post))).
  { destruct Hpost as [->|Hpost].
    - rewrite append_nil_r, (split_CRLF_line m Hm). left. reflexivity.
    - apply startswith_spec in Hpost. destruct Hpost as [y ->].
      rewrite split_CRLF_append, (split_CRLF_line m Hm). left. reflexivity. }
  destruct Hpre as [->|Hpre].
  - exact Hright.
  - apply endswith_spec in Hpre. destruct Hpre as [x ->].
    rewrite append_assoc, split_CRLF_append. apply in_or_app. right. exact Hright.
Qed.

(** The constructor transfers the module exactly when the reply to its
    probe is empty or has the text [### [Errno 2] ENOENT ###] as a whole
    line: between two CR LF, or between one and an end of the reply. *)
Theorem cli_module_missing_iff (output : string) :
  cli_module_missing output = true
  <-> output = ""
      \/ exists pre post,
           output = pre ++ "### [Errno 2] ENOENT ###" ++ post
           /\ (pre = "" \/ endswith CRLF pre = true)
           /\ (post = "" \/ startswith CRLF post = true).
Proof.
  unfold cli_module_missing.
  destruct output as [|c t] eqn:Eo.
  - cbn. split; auto.
  - rewrite <- Eo. replace (0 <? String.length output)%nat with true
      by (subst output; reflexivity).
    replace (List.length (split CRLF output) =? 0)%nat with false
      by (destruct (split CRLF output) eqn:E;
          [exfalso; exact (split_not_nil _ _ E) | reflexivity]).
    cbn [orb]. rewrite mem_In. split.
    + intros Hin. right. apply whole_line_found. exact Hin.
    + intros [Hnil|(pre & post & -> & Hpre & Hpost)].
      * subst output. discriminate.
      * apply whole_line_split; [reflexivity | assumption | assumption].
Qed.

End ProbeFacts.

(** ** [human_readable] on exact multiples *)

Module UnitFacts.
  Import cli_module HumanReadableFacts.

Lemma ge_1024_int (z : Z) : ge_1024 (PInt z) = (1024 <=? z)%Z.
Proof.
  unfold ge_1024, value, Qle_bool. cbn. rewrite !Z.mul_1_r. reflexivity.
Qed.

Lemma scale_exact (k : nat) :
  forall fuel m i,
    (0 <= m < 1024)%Z -> (0 < k -> (1 <= m)%Z) -> k <= fuel ->
    scale fuel (PInt (m * 1024 ^ Z.of_nat k)) i = Some (inl (PInt m, i + k)).
Proof.
  induction k as [|k IH]; intros fuel m i Hm Hpos Hfuel.
  - rewrite Z.pow_0_r, Z.mul_1_r, Nat.add_0_r.
    destruct fuel; cbn [scale]; rewrite ge_1024_int;
      replace (1024 <=? m)%Z with false by (symmetry; apply Z.leb_gt; lia);
      reflexivity.
  - destruct fuel as [|fuel]; [lia|].
    assert (Hp : (0 < 1024 ^ Z.of_nat k)%Z) by (apply Z.pow_pos_nonneg; lia).
    assert (He : (m * 1024 ^ Z.of_nat (S k) = (m * 1024 ^ Z.of_nat k) * 1024)%Z).
    { rewrite Nat2Z.inj_succ, Z.pow_succ_r by lia. ring. }
    cbn [scale]. rewrite ge_1024_int.
    replace (1024 <=? m * 1024 ^ Z.of_nat (S k))%Z with true
      by (symmetry; apply Z.leb_le; rewrite He; specialize (Hpos ltac:(lia));
          assert (1 * 1 <= m * 1024 ^ Z.of_nat k)%Z
            by (apply Z.mul_le_mono_nonneg; lia);
          lia).
    unfold multiple_of_1024, floordiv_1024.
    rewrite He, Z.mod_mul by lia. cbn [Z.eqb].
    rewrite Z.div_mul by lia.
    rewrite (IH fuel m (S i)); [do 3 f_equal; lia | exact Hm | | lia].
    intros _. apply Hpos. lia.
Qed.

(** [human_readable] on an exact multiple: for [m] below 1024 and [k] at
    most 4, [m * 1024 ^ k] bytes print as the digits of [m] followed by the
    [k]-th unit (none, K, M, G, T), without a decimal point. *)
Theorem human_readable_exact (m : Z) (k : nat) :
  (0 <= m < 1024)%Z -> (0 < k -> (1 <= m)%Z) -> k <= 4 ->
  human_readable (m * 1024 ^ Z.of_nat k)
  = Some (Return (str_of_int m ++ unit_of k)).
Proof.
  intros Hm Hpos Hk.
  assert (Hp : (0 < 1024 ^ Z.of_nat k)%Z) by (apply Z.pow_pos_nonneg; lia).
  unfold human_readable, human_readable_fuel.
  replace (m * 1024 ^ Z.of_nat k <? 0)%Z with false
    by (symmetry; apply Z.ltb_ge; nia).
  rewrite (scale_exact k _ m 0 Hm Hpos).
  - cbn [Nat.add]. unfold render.
    destruct k as [|[|[|[|[|k]]]]]; try lia; cbn; rewrite ?append_nil_r; reflexivity.
  - destruct k as [|k]; [lia|]. specialize (Hpos ltac:(lia)).
    assert (Hlog : (Z.of_nat (S k) <= Z.log2 (m * 1024 ^ Z.of_nat (S k)))%Z).
    { apply Z.log2_le_pow2; [nia|].
      assert (H2 : (2 ^ Z.of_nat (S k) <= 1024 ^ Z.of_nat (S k))%Z)
        by (apply Z.pow_le_mono_l; lia).
      nia. }
    lia.
Qed.

Lemma human_readable_exact_witness :
  human_readable (3 * 1024 ^ Z.of_nat 2) = Some (Return (str_of_int 3 ++ unit_of 2)).
Proof.
  apply (human_readable_exact 3 2); lia.
Defined.

End UnitFacts.

(** ** Chunked write, any length *)

Module ChunkFacts.
  Import PyStrFacts NormFacts SplitFacts ExtractFacts EscapeFacts upy_serial_cli.
  Import WriteFacts.

(** [serial_write] on a buffer of characters below U+0080 of any length,
    over a transport that writes each chunk whole: the loop ends, the bytes
    handed over are the encoded buffer, in [length / 256 + 1] writes, the
    last one of [length mod 256] bytes. *)
Theorem serial_write_ascii_whole (buf : string) (t_wait : option Q) (fuel : nat) :
  is_ascii buf = true ->
  String.length buf / DEFAULT_SER_WRBUF_SIZE < fuel ->
  exists log,
    serial_write blocking_write buf t_wait fuel = Some log
    /\ transmitted log = encode_utf8 buf
    /\ List.length (chunks log) = S (String.length buf / DEFAULT_SER_WRBUF_SIZE)
    /\ List.length (last (chunks log) [])
       = String.length buf mod DEFAULT_SER_WRBUF_SIZE.
Proof.
  intros Hascii Hfuel. unfold serial_write.
  destruct (serial_write_loop_ascii buf
              (match t_wait with None => DEFAULT_WAIT | Some t => t end)
              Hascii fuel 0)
    as (log & Hl & Ht & Hn & Hs & _).
  { rewrite Nat.sub_0_r. exact Hfuel. }
  rewrite Nat.sub_0_r in *. exists log. repeat split; assumption.
Qed.

Lemma serial_write_ascii_whole_witness :
  exists log,
    serial_write blocking_write (repeat_char 300 "a"%char) (Some 0%Q) 2 = Some log
    /\ transmitted log = encode_utf8 (repeat_char 300 "a"%char)
    /\ List.length (chunks log)
       = S (String.length (repeat_char 300 "a"%char) / DEFAULT_SER_WRBUF_SIZE)
    /\ List.length (last (chunks log) [])
       = String.length (repeat_char 300 "a"%char) mod DEFAULT_SER_WRBUF_SIZE.
Proof.
  apply (serial_write_ascii_whole (repeat_char 300 "a"%char) (Some 0%Q) 2).
  - vm_compute. reflexivity.
  - vm_compute. lia.
Defined.

End ChunkFacts.

(** ** Option loops *)

Module LoopFacts.
  Import PyStrFacts NormFacts SplitFacts ExtractFacts EscapeFacts upy_serial_cli.


Lemma ls_options_acc (opts : list (string * string)) :
  forall f l r,
    fold_left
      (fun flags opt =>
         let '(human_readable, list_format, rec) := flags in
         (if String.eqb (fst opt) "-f" then true else human_readable,
          if String.eqb (fst opt) "-l" then true else list_format,
          if String.eqb (fst opt) "-r" then true else rec))
      opts (f, l, r)
    = (f || has_flag "-f" opts, l || has_flag "-l" opts, r || has_flag "-r" opts).
Proof.
  induction opts as [|opt opts IH]; intros f l r.
  - cbn. rewrite !orb_false_r. reflexivity.
  - cbn [fold_left has_flag existsb]. rewrite IH. unfold has_flag.
    destruct (String.eqb (fst opt) "-f"), (String.eqb (fst opt) "-l"),
      (String.eqb (fst opt) "-r"); cbn [orb]; rewrite ?orb_true_r; reflexivity.
Qed.

Lemma sysinfo_options_acc (opts : list (string * string)) :
  forall query,
    has_flag "-q" opts = false ->
    fold_left
      (fun query opt => if String.eqb (fst opt) "-q" then snd opt else query)
      opts query = query.
Proof.
  induction opts as [|opt opts IH]; intros query H; [reflexivity|].
  cbn [has_flag existsb] in H. apply orb_false_iff in H. destruct H as [H1 H2].
  cbn [fold_left]. rewrite H1. apply IH. exact H2.
Qed.

(** The option loops of [ls] and [sysinfo]: the three flags of [ls] are
    set exactly when the options [-f], [-l] and [-r] occur, in any order
    and number; the query of [sysinfo] is [all] without an option [-q] and
    the value of the last [-q] otherwise. *)
Theorem option_loops (opts : list (string * string)) :
  ls_options opts = (has_flag "-f" opts, has_flag "-l" opts, has_flag "-r" opts)
  /\ (has_flag "-q" opts = false -> sysinfo_options opts = "all")
  /\ (forall query rest,
        has_flag "-q" rest = false ->
        sysinfo_options (opts ++ ("-q", query) :: rest) = query).
Proof.
  split; [|split].
  - unfold ls_options. rewrite ls_options_acc. reflexivity.
  - intros H. unfold sysinfo_options. apply sysinfo_options_acc. exact H.
  - intros query rest H. unfold sysinfo_options.
    rewrite fold_left_app. cbn [fold_left fst snd].
    change (String.eqb "-q" "-q") with true. cbv iota.
    apply sysinfo_options_acc. exact H.
Qed.

End LoopFacts.

(** ** Queries *)

Module QueryFacts.
  Import PyStrFacts NormFacts SplitFacts ExtractFacts EscapeFacts upy_serial_cli.

Section Query.
Variable un : list string.
Variable stvfs : list Z.

(** A query that the instance of [sysinfo] does not know ends the call on
    the device with code 255, and what it printed before is read by the
    host as the line [Usage: Unknown query]. *)
Theorem unknown_query_usage (self : cli_module.sysinfo_obj) (q : string) :
  mem q (cli_module.queries self) = false ->
  exists printed,
    cli_module.sysinfo_call un stvfs self
      (cli_module.mk_args [] [("query", cli_module.PStr q)])
    = Exit EXIT_FAILURE printed
    /\ extract_results printed
       = Return (chr LF ++ "Usage: Unknown query" ++ chr LF).
Proof.
  intros Hq. eexists. split.
  - unfold cli_module.sysinfo_call. cbn [cli_module.positional cli_module.keywords].
    change (String.eqb "query" "query") with true. cbv iota.
    unfold cli_module.query. rewrite Hq. cbn [negb]. unfold cli_module.usage.
    reflexivity.
  - vm_compute. reflexivity.
Qed.

End Query.

Lemma unknown_query_usage_witness :
  exists printed,
    cli_module.sysinfo_call [] []
      (cli_module.mk_sysinfo ["all"; "free"])
      (cli_module.mk_args [] [("query", cli_module.PStr "cpu")])
    = Exit EXIT_FAILURE printed
    /\ extract_results printed
       = Return (chr LF ++ "Usage: Unknown query" ++ chr LF).
Proof.
  apply (unknown_query_usage [] [] (cli_module.mk_sysinfo ["all"; "free"]) "cpu").
  reflexivity.
Defined.

End QueryFacts.

(** ** The entry point and the dispatch of commands *)

Module EntryFacts.
  Import PyStrFacts NormFacts SplitFacts ExtractFacts EscapeFacts upy_serial_cli.
  Import DedupFacts.

Section Entry.

Let step (state : option string * option string * bool) (opt : string * string)
  : option string * option string * bool :=
  let '(port, baudrate, interactive) := state in
  (if String.eqb (fst opt) "-p" then Some (snd opt) else port,
   if String.eqb (fst opt) "-b" then Some (snd opt) else baudrate,
   if String.eqb (fst opt) "-i" then true else interactive).

Lemma main_options_fold (opts : list (string * string)) :
  main_options opts = fold_left step opts (None, None, false).
Proof. reflexivity. Qed.

Lemma fold_port_kept (opts : list (string * string)) :
  forall p b i,
    has_flag "-p" opts = false ->
    fst (fst (fold_left step opts (p, b, i))) = p.
Proof.
  induction opts as [|opt opts IH]; intros p b i H; [reflexivity|].
  cbn [has_flag existsb] in H. apply orb_false_iff in H. destruct H as [H1 H2].
  cbn [fold_left step]. rewrite H1. apply IH. exact H2.
Qed.

Lemma fold_port_set (opts : list (string * string)) :
  forall p b i,
    has_flag "-p" opts = true ->
    exists port, fst (fst (fold_left step opts (p, b, i))) = Some port.
Proof.
  induction opts as [|opt opts IH]; intros p b i H; [discriminate|].
  cbn [fold_left step].
  destruct (has_flag "-p" opts) eqn:Hrest.
  - apply IH. reflexivity.
  - cbn [has_flag existsb] in H. fold (has_flag "-p" opts) in H.
    rewrite Hrest, orb_false_r in H. rewrite H.
    exists (snd opt). apply fold_port_kept. exact Hrest.
Qed.

Lemma fold_interactive (opts : list (string * string)) :
  forall p b i,
    snd (fold_left step opts (p, b, i)) = i || has_flag "-i" opts.
Proof.
  induction opts as [|opt opts IH]; intros p b i.
  - cbn. rewrite orb_false_r. reflexivity.
  - cbn [fold_left step has_flag existsb]. rewrite IH. unfold has_flag.
    destruct (String.eqb (fst opt) "-i"); cbn [orb]; [|reflexivity].
    rewrite orb_true_r. reflexivity.
Qed.

Lemma usage_code (argv0 : string) (is_err : bool) :
  exit_code (@usage launch argv0 is_err)
  = Some (if is_err then EXIT_FAILURE else EXIT_SUCCESS).
Proof. destruct is_err; reflexivity. Qed.

(** The entry point, on what [getopt] found.  The process ends with code
    0 exactly when [-h] is among the options; it ends with code 255 exactly
    when neither [-h] nor [-p] is; otherwise the shell is launched with the
    operands, in interactive mode exactly when [-i] occurs, on the port and
    the baud rate that the option loop leaves.  A command line that
    [getopt] rejects ends with code 255. *)
Theorem main_parsed_contract (argv0 : string) (opts : list (string * string))
    (args : list string) :
  (exit_code (main_parsed argv0 (Some (opts, args))) = Some EXIT_SUCCESS
   <-> mem_pair ("-h", "") opts = true)
  /\ (exit_code (main_parsed argv0 (Some (opts, args))) = Some EXIT_FAILURE
      <-> mem_pair ("-h", "") opts = false /\ has_flag "-p" opts = false)
  /\ (forall l,
        main_parsed argv0 (Some (opts, args)) = Return l <->
        mem_pair ("-h", "") opts = false
        /\ has_flag "-p" opts = true
        /\ l = mk_launch (launch_port l) (launch_baudrate l)
                         (has_flag "-i" opts) args
        /\ main_options opts
           = (Some (launch_port l), launch_baudrate l, has_flag "-i" opts))
  /\ exit_code (main_parsed argv0 None) = Some EXIT_FAILURE.
Proof.
  assert (Hnil : opts = [] -> mem_pair ("-h", "") opts = false
                              /\ has_flag "-p" opts = false).
  { intros ->. split; reflexivity. }
  unfold main_parsed.
  destruct opts as [|o opts'] eqn:Eo.
  { cbn. repeat split; try discriminate; try tauto; intros H; try discriminate;
      destruct H as [H1 H2]; try discriminate. destruct H2; discriminate. }
  rewrite <- Eo in *. replace (List.length opts =? 0)%nat with false
    by (subst opts; reflexivity).
  clear Hnil.
  destruct (mem_pair ("-h", "") opts) eqn:Hh.
  { rewrite usage_code. cbn [exit_code].
    repeat split; try discriminate; try tauto; intros H; try discriminate;
      destruct H as [H _]; discriminate. }
  rewrite main_options_fold.
  pose proof (fold_interactive opts None None false) as Hi. cbn [orb] in Hi.
  destruct (has_flag "-p" opts) eqn:Hp.
  - destruct (fold_port_set opts None None false Hp) as [port Hport].
    destruct (fold_left step opts (None, None, false)) as [[p b] i] eqn:Ef.
    cbn [fst snd] in Hport, Hi. subst p i.
    cbn [exit_code]. repeat split; try discriminate; try tauto.
    + intros [_ H]. discriminate.
    + injection H as <-. reflexivity.
    + injection H as <-. reflexivity.
    + intros (_ & _ & Hl & Hm). injection Hm as Hp' Hb. rewrite Hl.
      cbn [launch_port launch_baudrate]. rewrite <- Hp', <- Hb. reflexivity.
  - pose proof (fold_port_kept opts None None false Hp) as Hport.
    destruct (fold_left step opts (None, None, false)) as [[p b] i] eqn:Ef.
    cbn [fst] in Hport. subst p. rewrite usage_code. cbn [exit_code].
    repeat split; try discriminate; try tauto.
    intros (_ & H & _). discriminate.
Qed.

End Entry.

(** The commands reach no method outside [COMMANDS]: [help], [run] and
    the loop of [start] call a method only under a name of the list, [help]
    calls it with the single argument [-h] and never calls itself, [run]
    and [start] pass the remaining words on; [run] without a word ends the
    process with code 255. *)
Theorem dispatch_within_commands :
  (forall argv command args,
     help argv = Invoke command args ->
     In command COMMANDS /\ command <> "help" /\ args = ["-h"]
     /\ mem "-h" argv = false)
  /\ (forall argv0 argv command args,
        run argv0 argv = Return (Invoke command args) ->
        In command COMMANDS /\ argv = command :: args)
  /\ (forall line command args,
        start_round line = Invoke command args ->
        In command COMMANDS /\ line = command :: args)
  /\ (forall argv0, exit_code (run argv0 []) = Some EXIT_FAILURE).
Proof.
  split; [|split; [|split]].
  - intros argv command args. unfold help.
    destruct argv as [|a argv']; [discriminate|].
    cbn [List.length Nat.eqb orb hd].
    destruct (mem "-h" (a :: argv')) eqn:Hh; cbn [negb andb orb]; [discriminate|].
    destruct (mem a COMMANDS) eqn:Hc; cbn [negb]; [|discriminate].
    destruct (String.eqb a "help") eqn:He; [discriminate|].
    intros H. injection H as <- <-.
    split; [apply mem_In; exact Hc|]. split; [|split; reflexivity].
    apply String.eqb_neq. exact He.
  - intros argv0 argv command args. unfold run.
    destruct argv as [|a argv']; [discriminate|].
    cbn [List.length Nat.eqb hd tl].
    destruct (mem a COMMANDS) eqn:Hc.
    + intros H. injection H as <- <-. split; [apply mem_In; exact Hc | reflexivity].
    + discriminate.
  - intros line command args. unfold start_round.
    destruct line as [|a line']; [discriminate|].
    cbn [List.length Nat.ltb Nat.leb andb hd tl].
    destruct (mem a COMMANDS) eqn:Hc.
    + intros H. injection H as <- <-. split; [apply mem_In; exact Hc | reflexivity].
    + discriminate.
  - reflexivity.
Qed.

End EntryFacts.

(** ** A source that cannot be opened *)

Module PartialCopyFacts.
  Import PyStrFacts NormFacts SplitFacts ExtractFacts EscapeFacts upy_serial_cli.
  Import CopyFacts.

Section Partial.
Variable fs : string -> list string + pyexn.

(** The statements that copy the readable file [src] into the directory
    [dest]. *)
Let copied (dest src : string) : list event :=
  match fs src with
  | inl lines => map EvStmt (transfer (dest ++ "/" ++ basename src) lines)
  | inr _ => []
  end.

Lemma fwrite_into_readable (dest : string) (good rest : list string) :
  Forall (fun src => exists lines, fs src = inl lines) good ->
  fwrite_into fs dest (good ++ rest)
  = ((flat_map (copied dest) good ++ fst (fwrite_into fs dest rest))%list,
     snd (fwrite_into fs dest rest)).
Proof.
  induction 1 as [|src good [lines Hsrc] _ IH].
  - cbn [app flat_map]. destruct (fwrite_into fs dest rest). reflexivity.
  - cbn [app fwrite_into flat_map].
    rewrite (serial_fwrite_ok fs src _ lines Hsrc). rewrite IH.
    replace (copied dest src)
      with (map EvStmt (transfer (dest ++ "/" ++ basename src) lines))
      by (unfold copied; rewrite Hsrc; reflexivity).
    rewrite app_assoc. reflexivity.
Qed.

(** The loop of [cp] over the sources stops at the first source that
    cannot be opened: the sources before it are already written, each
    under its base name in the destination, nothing is sent for the ones
    after it, and the exception is the one of [open], which the guard of
    [cp] hands to [error]. *)
Theorem fwrite_into_stops_at_unreadable
    (dest : string) (good : list string) (bad : string) (later : list string)
    (e : pyexn) :
  Forall (fun src => exists lines, fs src = inl lines) good ->
  fs bad = inr e ->
  fwrite_into fs dest (good ++ bad :: later)
  = (flat_map
       (fun src =>
          match fs src with
          | inl lines => map EvStmt (transfer (dest ++ "/" ++ basename src) lines)
          | inr _ => []
          end) good,
     Raised e)
  /\ fwrite_into fs dest good
     = (flat_map
          (fun src =>
             match fs src with
             | inl lines => map EvStmt (transfer (dest ++ "/" ++ basename src) lines)
             | inr _ => []
             end) good,
        Return tt)
  /\ snd (guarded (fwrite_into fs dest (good ++ bad :: later))) = error e.
Proof.
  intros Hgood Hbad.
  assert (H1 : fwrite_into fs dest (good ++ bad :: later)
               = (flat_map (copied dest) good, Raised e)).
  { rewrite (fwrite_into_readable dest good (bad :: later) Hgood).
    cbn [fwrite_into]. unfold serial_fwrite. rewrite Hbad. cbn [fst snd].
    rewrite app_nil_r. reflexivity. }
  split; [exact H1|]. split.
  - rewrite <- (app_nil_r good) at 1.
    rewrite (fwrite_into_readable dest good [] Hgood). cbn [fwrite_into fst snd].
    rewrite app_nil_r. reflexivity.
  - rewrite H1. reflexivity.
Qed.

End Partial.

Lemma fwrite_into_stops_at_unreadable_witness :
  fwrite_into ex_fs "lib" (["/home/user/main.py"] ++ "nofile" :: ["/home/user/main.py"])
  = ([EvStmt (fopen_stmt "lib/main.py");
      EvStmt (fwrite_stmt "import a\n");
      EvStmt (fwrite_stmt "    x = \'y\'\n");
      EvStmt (fwrite_stmt "z");
      EvStmt fclose_stmt],
     Raised (OSError 2 "No such file or directory")).
Proof.
  refine (eq_trans
            (proj1 (fwrite_into_stops_at_unreadable ex_fs "lib"
                      ["/home/user/main.py"] "nofile" ["/home/user/main.py"]
                      (OSError 2 "No such file or directory") _ _)) _).
  - constructor; [eexists; reflexivity | constructor].
  - reflexivity.
  - vm_compute. reflexivity.
Defined.

End PartialCopyFacts.

(** ** The options of [du] *)

Module DuFacts.
  Import PyStrFacts NormFacts SplitFacts ExtractFacts EscapeFacts upy_serial_cli.

Section Du.
Variable int_of_str : string -> Z + pyexn.

Lemma du_options_plain (opts : list (string * string)) :
  forall depth hr,
    has_flag "-d" opts = false ->
    du_options int_of_str opts depth hr = inl (depth, hr || has_flag "-f" opts).
Proof.
  induction opts as [|opt opts IH]; intros depth hr H.
  - cbn. rewrite orb_false_r. reflexivity.
  - cbn [has_flag existsb] in H. apply orb_false_iff in H. destruct H as [H1 H2].
    cbn [du_options]. rewrite H1. rewrite (IH _ _ H2).
    cbn [has_flag existsb]. fold (has_flag "-f" opts).
    destruct (String.eqb (fst opt) "-f"); cbn [orb]; [|reflexivity].
    rewrite orb_true_r. reflexivity.
Qed.

Lemma du_options_app (opts rest : list (string * string)) :
  forall depth hr,
    du_options int_of_str (opts ++ rest) depth hr
    = match du_options int_of_str opts depth hr with
      | inr e => inr e
      | inl (depth', hr') => du_options int_of_str rest depth' hr'
      end.
Proof.
  induction opts as [|opt opts IH]; intros depth hr; [reflexivity|].
  cbn [app du_options].
  destruct (if String.eqb (fst opt) "-d" then int_of_str (snd opt) else inl depth)
    as [d|e]; [apply IH | reflexivity].
Qed.

(** The options of [du].  Without [-d] the statement carries the depth
    -1 and the flag of [-f].  With [-d], the integer that [int] reads from
    the value of the last [-d] is sent as it is, whatever its sign: no
    depth is refused.  When [int] raises, the exception leaves [du] and
    nothing is sent. *)
Theorem du_parsed_depth (opts rest : list (string * string)) (text : string)
    (args : list string) (reply : string) :
  has_flag "-d" rest = false ->
  (has_flag "-d" opts = false ->
   fst (du_parsed int_of_str opts args reply)
   = [EvOpen; EvStmt (du_stmt args (-1) (has_flag "-f" opts)); EvRead; EvClose])
  /\ (forall depth hr,
        du_options int_of_str opts (-1) false = inl (depth, hr) ->
        match int_of_str text with
        | inl n =>
            fst (du_parsed int_of_str (opts ++ ("-d", text) :: rest) args reply)
            = [EvOpen;
               EvStmt (du_stmt args n (hr || has_flag "-f" rest));
               EvRead; EvClose]
        | inr e =>
            du_parsed int_of_str (opts ++ ("-d", text) :: rest) args reply
            = ([], Raised e)
        end).
Proof.
  intros Hrest. split.
  - intros Hopts. unfold du_parsed.
    rewrite (du_options_plain opts _ _ Hopts). reflexivity.
  - intros depth hr Hd. unfold du_parsed.
    rewrite du_options_app, Hd. cbn [du_options fst snd].
    change (String.eqb "-d" "-d") with true. cbv iota.
    destruct (int_of_str text) as [n|e]; [|reflexivity].
    change (String.eqb "-d" "-f") with false. cbv iota.
    rewrite (du_options_plain rest _ _ Hrest). reflexivity.
Qed.

End Du.

Lemma du_parsed_depth_witness :
  fst (du_parsed (fun _ => inl 0%Z) [("-f", "")] ["lib"] "")
  = [EvOpen; EvStmt (du_stmt ["lib"] (-1) true); EvRead; EvClose].
Proof.
  refine (proj1 (du_parsed_depth (fun _ => inl 0%Z) [("-f", "")] [] "" ["lib"] "" _) _).
  - reflexivity.
  - reflexivity.
Defined.

End DuFacts.

(** ** [sysinfo] through the host *)

Module SysinfoFacts.
  Import PyStrFacts NormFacts SplitFacts ExtractFacts EscapeFacts upy_serial_cli.
  Import boot.

Section Sysinfo.
Variable un : list string.
Variable stvfs : list Z.


End Sysinfo.

End SysinfoFacts.

(** ** [ls] *)

Module ListFacts.
  Import PyStrFacts NormFacts SplitFacts ExtractFacts EscapeFacts upy_serial_cli.
  Import JoinFacts RoundTripFacts CatFacts DeviceFacts LoopFacts.

Section Dirs.
Variable stat_mode : string -> Z + pyexn.
Variable listdir_text : string -> string + pyexn.



End Dirs.


End ListFacts.
